(** * Visual comparison of staging and production pages

    A shallow embedding of the Playwright visual-regression test of the
    repository: [tests/visualComparisonTest.spec.js] and its copy (the
    retrying capture, module [Legacy]) and the report-generating test (the
    current capture, comparison and aggregation, module [Report]).

    JavaScript numbers are IEEE binary64 values (primitive floats), the
    file system is a finite map from paths to files, and every function
    that can throw or touch the outside world runs in the monad [Js]:
    a state transformer over [World] that completes normally or throws.
    Awaited calls run one after the other, as the tests await each of them.

    Left out: the HTML markup of the report (its data is kept), directories,
    the creation and closing of the browser context, timeouts other than
    as rejections of the call that timed out, and the merging of runs by
    which the engine sorts arrays of 64 elements or more. *)

From Stdlib Require Import PrimFloat Uint63 ZArith NArith Ascii.
From Stdlib Require SpecFloat FloatOps FloatAxioms.
From stdpp Require Import gmap strings list pretty.

Open Scope string_scope.

(** ** Images and files *)

(** One RGBA pixel: four bytes of the decoded buffer. *)
Record Pixel := mkPixel { red : N; green : N; blue : N; alpha : N }.

#[global] Instance Pixel_eq_dec : EqDecision Pixel.
Proof. solve_decision. Defined.

(** A decoded raster as [PNG.sync.read] returns it: [data] is the RGBA
    buffer, addressed here by pixel index [y * width + x] (byte offset
    divided by four). *)
Record Image := mkImage { width : N; height : N; data : N -> Pixel }.

(** One entry of the [results] array: [similarityPercentage] is a number,
    "Error" or "Size mismatch"; [error] is set by the [catch] of the page
    loop only. *)
Record Result := mkResult {
  pagePath : string;
  similarityPercentage : float + string;
  error : option string }.

(** One row of the report's table. *)
Record Row := mkRow {
  row_page : string;
  statusClass : string;
  statusText : string;
  stagingBase64 : option string;
  prodBase64 : option string;
  diffBase64 : option string }.

(** What the report shows: the three counts and the rows. *)
Record Summary := mkSummary {
  total : nat; passed : nat; failed : nat; errors : nat; rows : list Row }.

(** The content of a file. A file either decodes as a PNG or it does not;
    the HTML report is kept as the structured data it is rendered from. *)
Inductive File :=
  | PngFile (img : Image)
  | RawFile (content : string)
  | HtmlFile (report : Summary).

(** ** The browser and the world *)

(** The browser is an oracle indexed by [clock], the number of awaited
    browser calls made so far: [faults t] is the message with which call
    [t] rejects, if it does; [banner_visible t] answers [isVisible] and
    [render t url fullPage] is the raster a screenshot taken by call [t]
    captures. [location] is the page the session shows and [console] holds
    the lines written by [console.log] and [console.error]. *)
Record World := mkWorld {
  fs : gmap string File;
  faults : nat -> option string;
  banner_visible : nat -> bool;
  render : nat -> string -> bool -> Image;
  clock : nat;
  location : string;
  console : list string }.

Definition set_fs (f : gmap string File -> gmap string File) (w : World) : World :=
  mkWorld (f (fs w)) (faults w) (banner_visible w) (render w) (clock w) (location w) (console w).
Definition tick (w : World) : World :=
  mkWorld (fs w) (faults w) (banner_visible w) (render w) (S (clock w)) (location w) (console w).
Definition navigate (url : string) (w : World) : World :=
  mkWorld (fs w) (faults w) (banner_visible w) (render w) (clock w) url (console w).
Definition emit (line : string) (w : World) : World :=
  mkWorld (fs w) (faults w) (banner_visible w) (render w) (clock w) (location w) (console w ++ [line]).

(** ** Completions *)

Inductive Completion (A : Type) :=
  | Normal (value : A)
  | Throw (message : string).
Arguments Normal {A} value.
Arguments Throw {A} message.

Definition Js (A : Type) : Type := World -> World * Completion A.

Definition ret {A} (a : A) : Js A := fun w => (w, Normal a).
Definition throw {A} (message : string) : Js A := fun w => (w, Throw message).
Definition bind {A B} (c : Js A) (k : A -> Js B) : Js B :=
  fun w => match c w with
           | (w', Normal a) => k a w'
           | (w', Throw m) => (w', Throw m)
           end.
Definition try_catch {A} (body : Js A) (handler : string -> Js A) : Js A :=
  fun w => match body w with
           | (w', Normal a) => (w', Normal a)
           | (w', Throw m) => handler m w'
           end.

Notation "x <- c1 ;; c2" := (bind c1 (fun x => c2))
  (at level 100, c1 at next level, right associativity).
Notation "c1 ;; c2" := (bind c1 (fun _ => c2))
  (at level 100, right associativity).

Definition throws {A} (c : Js A) (w : World) : Prop :=
  exists m, (c w).2 = Throw m.

(** [c] leaves every file outside [paths] as it is, however it completes. *)
Definition writes_only {A} (paths : list string) (c : Js A) : Prop :=
  forall w q, q ∉ paths -> fs (c w).1 !! q = fs w !! q.

(** [c] makes at most [n] browser calls, however it completes. *)
Definition calls_at_most {A} (n : nat) (c : Js A) : Prop :=
  forall w, clock (c w).1 <= clock w + n.

(** ** Node built-ins *)

Definition console_log (line : string) : Js unit := fun w => (emit line w, Normal tt).
Definition console_error (line : string) : Js unit := console_log line.

Definition fs_existsSync (path : string) : Js bool :=
  fun w => (w, Normal (bool_decide (is_Some (fs w !! path)))).
Definition fs_readFileSync (path : string) : Js File :=
  fun w => match fs w !! path with
           | Some f => (w, Normal f)
           | None => (w, Throw ("ENOENT: no such file or directory, open '" +:+ path +:+ "'"))
           end.
Definition fs_writeFileSync (path : string) (f : File) : Js unit :=
  fun w => (set_fs <[path := f]> w, Normal tt).

(** Directories are not tracked: creating one changes nothing here. *)
Definition ensureDirectoryExistence (filePath : string) : Js unit := ret tt.

(** [imageToBase64]: the data URL of an existing image, [null] otherwise;
    the URL is represented by the path it is read from. *)
Definition imageToBase64 (w : World) (imagePath : string) : option string :=
  if bool_decide (is_Some (fs w !! imagePath)) then Some imagePath else None.

(** [string.replace(/\//g, "_")]. *)
Fixpoint replace_slashes (s : string) : string :=
  match s with
  | EmptyString => EmptyString
  | String c s' => String (if Ascii.eqb c "/" then "_"%char else c) (replace_slashes s')
  end.

(** [path.join] of segments that need no normalisation. *)
Definition path_join (dir name : string) : string := dir +:+ "/" +:+ name.

(** [Array.prototype.sort(compareFn)] as Node's engine runs it on an array
    of fewer than 64 elements, which it handles as one run: the leading run
    is detected by comparing each element with the one before it, a
    strictly descending run is reversed, and every further element is put
    in place by binary insertion. The comparator is called with the later
    element first, and a NaN it returns counts as 0. Longer arrays are cut
    into several such runs that are merged afterwards; the merge is not
    part of this model, which sorts them as one run. *)
Definition sort_order (v : float) : float := if PrimFloat.is_nan v then 0%float else v.

Section Sort.
Context {A : Type} (compareFn : A -> A -> float).

Definition sort_compare (a b : A) : float := sort_order (compareFn a b).

(** The loop of [CountAndMakeRun]: the elements after [previousElement]
    that continue the run, and the rest of the array. *)
Fixpoint extend_run (isDescending : bool) (previousElement : A) (l : list A)
  : list A * list A :=
  match l with
  | [] => ([], [])
  | currentElement :: rest =>
      let order := sort_compare currentElement previousElement in
      if (if isDescending then PrimFloat.leb 0 order else PrimFloat.ltb order 0)
      then ([], l)
      else let '(run, tail) := extend_run isDescending currentElement rest in
           (currentElement :: run, tail)
  end.

(** The leading run, made ascending, and the elements that follow it. *)
Definition CountAndMakeRun (l : list A) : list A * list A :=
  match l with
  | elementHigh :: elementLow :: rest =>
      let isDescending := PrimFloat.ltb (sort_compare elementLow elementHigh) 0 in
      let '(run, tail) := extend_run isDescending elementLow rest in
      let run := elementHigh :: elementLow :: run in
      (if isDescending then rev run else run, tail)
  | _ => (l, [])
  end.

(** The index at which [pivot] goes into [workArray], searched between
    [left] and [right]: [mid = left + ((right - left) >> 1)], then
    [right = mid] when the order is negative and [left = mid + 1]
    otherwise. *)
Fixpoint binary_search (fuel : nat) (pivot : A) (workArray : list A) (left right : nat)
  : nat :=
  match fuel with
  | 0 => left
  | S fuel' =>
      if (left <? right)%nat then
        let mid := (left + (right - left) / 2)%nat in
        match workArray !! mid with
        | Some x =>
            if PrimFloat.ltb (sort_compare pivot x) 0
            then binary_search fuel' pivot workArray left mid
            else binary_search fuel' pivot workArray (mid + 1) right
        | None => left
        end
      else left
  end.

Definition insert_pivot (sorted : list A) (pivot : A) : list A :=
  let left := binary_search (length sorted) pivot sorted 0 (length sorted) in
  (take left sorted ++ pivot :: drop left sorted)%list.

Definition BinaryInsertionSort (run rest : list A) : list A := foldl insert_pivot run rest.

Definition Array_sort (l : list A) : list A :=
  let '(run, rest) := CountAndMakeRun l in BinaryInsertionSort run rest.

End Sort.

(** [for (const x of items) body]. *)
Fixpoint for_of {A S} (items : list A) (body : S -> A -> Js S) (s : S) : Js S :=
  match items with
  | [] => ret s
  | x :: rest => s' <- body s x;; for_of rest body s'
  end.

(** ** Playwright page calls *)

(** An awaited call on the page that returns nothing. *)
Definition page_call : Js unit :=
  fun w => match faults w (clock w) with
           | Some m => (tick w, Throw m)
           | None => (tick w, Normal tt)
           end.
Definition page_setViewportSize : Js unit := page_call.
Definition page_evaluate : Js unit := page_call.
Definition page_waitForFunction : Js unit := page_call.
Definition page_waitForTimeout : Js unit := page_call.
Definition locator_click : Js unit := page_call.

Definition page_goto (url : string) : Js unit :=
  fun w => match faults w (clock w) with
           | Some m => (tick w, Throw m)
           | None => (navigate url (tick w), Normal tt)
           end.
Definition locator_isVisible : Js bool :=
  fun w => match faults w (clock w) with
           | Some m => (tick w, Throw m)
           | None => (tick w, Normal (banner_visible w (clock w)))
           end.
Definition page_screenshot (path : string) (fullPage : bool) : Js unit :=
  fun w => match faults w (clock w) with
           | Some m => (tick w, Throw m)
           | None => (set_fs <[path := PngFile (render w (clock w) (location w) fullPage)]> (tick w),
                      Normal tt)
           end.

(** ** Numbers *)

Definition number_of_N (n : N) : float := PrimFloat.of_uint63 (Uint63.of_Z (Z.of_N n)).

(** [(matchedPixels / totalPixels) * 100] on binary64 numbers. *)
Definition similarity (totalPixels mismatchedPixels : N) : float :=
  let matchedPixels := (totalPixels - mismatchedPixels)%N in
  PrimFloat.mul (PrimFloat.div (number_of_N matchedPixels) (number_of_N totalPixels)) 100%float.

(** Number of indices below [n] at which [p] holds. *)
Definition count_below (p : N -> bool) (n : N) : N :=
  N.peano_rect (fun _ => N) 0%N (fun i acc => if p i then N.succ acc else acc) n.

(** ** Imaging libraries

    [sharp] and [pixelmatch] are npm dependencies; their sources are not
    part of the repository. What they compute pixel by pixel is left open
    in [Imaging]; their geometry and counting follow the specification. *)

Record Imaging := mkImaging {
  (** [resample src w h i]: pixel [i] of [src] scaled to [w] by [h]. *)
  resample : Image -> N -> N -> N -> Pixel;
  (** [exceeds t p q]: the colour distance of two different pixels is
      beyond the tolerance [t]. *)
  exceeds : float -> Pixel -> Pixel -> bool;
  (** which side added the difference, and how a matching pixel is drawn *)
  added : Pixel -> Pixel -> bool;
  faded : Pixel -> Pixel }.

Section Libraries.
Variable lib : Imaging.

(** [a / b] rounded to the nearest integer. *)
Definition round_div (a b : N) : N := ((2 * a + b) / (2 * b))%N.

(** Modelled from the spec: the size [sharp] scales a [w] by [h] source to
    under the contain policy ("the original aspect ratio is preserved, the
    image is scaled to fit entirely within the target box"): the side that
    binds takes the full target length, the other one is scaled by the
    same factor. [sharp] itself is missing from the sources. *)
Definition contain_size (w h W H : N) : N * N :=
  if (W * h <=? H * w)%N
  then (W, N.max 1 (round_div (h * W) w))
  else (N.max 1 (round_div (w * H) h), H).

(** Top-left corner of the scaled source on the canvas (centred). *)
Definition contain_origin (w h W H : N) : N * N :=
  let '(iw, ih) := contain_size w h W H in
  (((W - iw) / 2)%N, ((H - ih) / 2)%N).

(** Is canvas position [(x, y)] inside the scaled source? *)
Definition box_test (iw ih ox oy x y : N) : bool :=
  ((ox <=? x) && (x <? ox + iw) && (oy <=? y) && (y <? oy + ih))%N.

(** Modelled from the spec: [sharp(buffer).resize(W, H, { fit: "contain",
    background })], missing from the sources: a canvas of exactly [W] by
    [H] pixels holding the whole source, scaled, with "any remaining canvas
    area ... padded" with the background colour. *)
Definition sharp_contain (src : Image) (W H : N) (background : Pixel) : Image :=
  let '(iw, ih) := contain_size (width src) (height src) W H in
  let '(ox, oy) := contain_origin (width src) (height src) W H in
  mkImage W H (fun i =>
    let x := (i mod W)%N in
    let y := (i / W)%N in
    if box_test iw ih ox oy x y
    then resample lib src iw ih ((y - oy) * iw + (x - ox))%N
    else background).

(** [sharp(buffer).resize(...).toBuffer()]: rejects when the buffer is
    not an image or a dimension is not positive; the output keeps the
    input format. *)
Definition sharp_resize (buffer : File) (W H : N) (background : Pixel) : Js File :=
  match buffer with
  | PngFile src =>
      if ((W =? 0) || (H =? 0))%N
      then throw "Expected positive integer for width or height"
      else ret (PngFile (sharp_contain src W H background))
  | _ => throw "Input buffer contains unsupported image format"
  end.

(** [PNG.sync.read(buffer)]. *)
Definition PNG_sync_read (buffer : File) : Js Image :=
  match buffer with
  | PngFile img => ret img
  | _ => throw "Invalid file signature"
  end.

(** Modelled from the spec: the per-pixel test of [pixelmatch], missing
    from the sources ("per-pixel RGBA comparison using a perceptual
    color-distance threshold"): equal bytes never mismatch, different
    bytes mismatch when their distance exceeds the tolerance. *)
Definition mismatched (threshold : float) (p q : Pixel) : bool :=
  if decide (p = q) then false else exceeds lib threshold p q.

Record PixelmatchOptions := mkOptions {
  threshold : float;
  diffColor : Pixel;
  diffColorAlt : Pixel }.

(** Modelled from the spec: [pixelmatch(img1, img2, output, width, height,
    options)], missing from the sources: the number of mismatched pixels,
    and the output buffer in which "mismatched pixels [are marked]
    distinctly depending on which side added the difference". *)
Definition pixelmatch (img1 img2 : N -> Pixel) (w h : N) (options : PixelmatchOptions)
  : N * (N -> Pixel) :=
  (count_below (fun i => mismatched (threshold options) (img1 i) (img2 i)) (w * h),
   fun i => if mismatched (threshold options) (img1 i) (img2 i)
            then (if added lib (img1 i) (img2 i) then diffColor options else diffColorAlt options)
            else faded lib (img1 i)).

End Libraries.

(** ** Configuration ([config.js]) *)

Record Environment := mkEnvironment { baseUrl : string; urls : list string }.
Record Config := mkConfig { staging : Environment; prod : Environment }.

Definition page_list : list string :=
  ["/"; "/durant"; "/pocola"; "/hochatown"; "/grant"; "/mcalester";
   "/broken-bow"; "/idabel"; "/stringtown"; "/events"; "/promotions"; "/newsroom"].

Definition config : Config :=
  mkConfig (mkEnvironment "https://choctawcstg.wpengine.com" page_list)
           (mkEnvironment "https://www.choctawcasinos.com" page_list).

(** The tolerance literal [0.1], as the binary64 number it denotes. *)
Definition tenth : float := 0x1.999999999999ap-4%float.

(** ** The retrying capture ([tests/visualComparisonTest.spec.js]) *)

Module Legacy.
Section Test.
Variable lib : Imaging.

Definition maxAttempts : nat := 3.

(** The body of the [try] block: one navigate-and-screenshot attempt. *)
Definition attempt (url path : string) : Js unit :=
  page_setViewportSize;;
  page_goto url;;
  page_screenshot path false.

Definition retry_line (attempts : nat) (url : string) : string :=
  "Attempt " +:+ pretty attempts +:+ " failed for " +:+ url +:+ ". Retrying...".
Definition failure_line (url : string) : string :=
  "Failed to load " +:+ url +:+ " after " +:+ pretty maxAttempts +:+ " attempts".

(** [while (attempts < maxAttempts) { try { ...; break } catch { ... } }];
    [fuel] bounds the iterations, [None] is fuel run out. *)
Fixpoint capture_loop (fuel attempts : nat) (url path : string) : Js (option unit) :=
  if (attempts <? maxAttempts)%nat then
    match fuel with
    | 0 => ret None
    | S fuel' =>
        fun w =>
          match attempt url path w with
          | (w', Normal _) => (w', Normal (Some tt))
          | (w', Throw _) =>
              let attempts := S attempts in
              (console_log (retry_line attempts url);;
               if (attempts =? maxAttempts)%nat then
                 console_log (failure_line url);;
                 throw (failure_line url)
               else capture_loop fuel' attempts url path) w'
          end
    end
  else ret (Some tt).

Definition captureScreenshot (url path : string) : Js (option unit) :=
  capture_loop maxAttempts 0 url path.

(** [compareScreenshots]: no normalisation, [-1] on a size mismatch. *)
Definition compareScreenshots (stagingPath prodPath diffPath : string) : Js float :=
  buffer1 <- fs_readFileSync stagingPath;;
  img1 <- PNG_sync_read buffer1;;
  buffer2 <- fs_readFileSync prodPath;;
  img2 <- PNG_sync_read buffer2;;
  if negb (width img1 =? width img2)%N || negb (height img1 =? height img2)%N then
    console_log ("Skipping comparison for " +:+ stagingPath +:+ " and " +:+ prodPath
                 +:+ " due to size mismatch.");;
    ret (-1)%float
  else
    let run := pixelmatch lib (data img1) (data img2) (width img1) (height img1)
                 (mkOptions tenth (mkPixel 255 0 0 255) (mkPixel 255 0 0 255)) in
    let mismatchedPixels := run.1 in
    fs_writeFileSync diffPath (PngFile (mkImage (width img1) (height img1) run.2));;
    let totalPixels := (width img1 * height img1)%N in
    let similarityPercentage := similarity totalPixels mismatchedPixels in
    console_log ("Mismatched pixels for " +:+ stagingPath +:+ " vs " +:+ prodPath
                 +:+ ": " +:+ pretty mismatchedPixels);;
    ret similarityPercentage.

Variable cfg : Config.
(** [Number.prototype.toFixed], a built-in of the engine. *)
Variable toFixed : float -> nat -> string.

(** [pagePath || 'home']. *)
Definition or_home (pagePath : string) : string :=
  if decide (pagePath = "") then "home" else pagePath.

(** The body of the page loop of the test "Compare staging and production
    screenshots". *)
Definition test_page (pagePath : string) : Js unit :=
  let stagingUrl := baseUrl (staging cfg) +:+ "/" +:+ pagePath in
  let prodUrl := baseUrl (prod cfg) +:+ "/" +:+ pagePath in
  let stagingScreenshotPath := "screenshots/staging/" +:+ or_home pagePath +:+ ".png" in
  let prodScreenshotPath := "screenshots/prod/" +:+ or_home pagePath +:+ ".png" in
  let diffScreenshotPath := "screenshots/diff/" +:+ or_home pagePath +:+ ".png" in
  console_log ("Testing page: " +:+ or_home pagePath);;
  try_catch
    (captureScreenshot stagingUrl stagingScreenshotPath;;
     captureScreenshot prodUrl prodScreenshotPath;;
     similarityPercentage <- compareScreenshots stagingScreenshotPath prodScreenshotPath
                               diffScreenshotPath;;
     if PrimFloat.eqb similarityPercentage (-1)%float then
       console_log ("Size mismatch detected for page: " +:+ or_home pagePath)
     else
       console_log ("Similarity percentage for page " +:+ or_home pagePath +:+ ": "
                    +:+ toFixed similarityPercentage 2 +:+ "%"))
    (fun message =>
       console_log ("Error testing page: " +:+ or_home pagePath +:+ " - " +:+ message)).

Definition visual_test : Js unit :=
  for_of (urls (staging cfg)) (fun _ pagePath => test_page pagePath) tt.

End Test.
End Legacy.

(** ** The report-generating test *)

Module Report.
Section Test.
Variable lib : Imaging.
Variable cfg : Config.

(** [resizeImage]: read, resize with [fit: "contain"] on a background of
    alpha 0, write back to the same path. *)
Definition resizeImage (imagePath : string) (width height : N) : Js unit :=
  buffer <- fs_readFileSync imagePath;;
  resizedBuffer <- sharp_resize lib buffer width height (mkPixel 255 255 255 0);;
  fs_writeFileSync imagePath resizedBuffer.

Definition compareScreenshots (baselinePath currentPath diffPath : string)
  : Js (float + string) :=
  baseline_exists <- fs_existsSync baselinePath;;
  current_exists <- fs_existsSync currentPath;;
  if negb baseline_exists || negb current_exists then
    console_log ("Missing file(s): " +:+ baselinePath +:+ " or " +:+ currentPath);;
    ret (inr "Error")
  else
    resizeImage baselinePath 1280 800;;
    resizeImage currentPath 1280 800;;
    buffer1 <- fs_readFileSync baselinePath;;
    img1 <- PNG_sync_read buffer1;;
    buffer2 <- fs_readFileSync currentPath;;
    img2 <- PNG_sync_read buffer2;;
    if negb (width img1 =? width img2)%N || negb (height img1 =? height img2)%N then
      console_log ("Size mismatch for " +:+ baselinePath +:+ " and " +:+ currentPath);;
      ret (inr "Size mismatch")
    else
      let diff := (pixelmatch lib (data img1) (data img2) (width img1) (height img1)
                     (mkOptions tenth (mkPixel 0 0 255 255) (mkPixel 255 165 0 255))).2 in
      fs_writeFileSync diffPath (PngFile (mkImage (width img1) (height img1) diff));;
      let totalPixels := (width img1 * height img1)%N in
      let mismatchedPixels :=
        (pixelmatch lib (data img1) (data img2) (width img1) (height img1)
           (mkOptions tenth (mkPixel 255 0 0 255) (mkPixel 255 0 0 255))).1 in
      ret (inl (similarity totalPixels mismatchedPixels)).

Definition acceptCookies : Js unit :=
  try_catch
    (visible <- locator_isVisible;;
     if visible then
       locator_click;;
       console_log "Accepted cookies.";;
       page_waitForTimeout
     else ret tt)
    (fun _ => console_log "No cookie banner detected.").

Definition captureScreenshot (url screenshotPath : string) : Js unit :=
  try_catch
    (console_log ("Navigating to: " +:+ url);;
     page_goto url;;
     acceptCookies;;
     page_evaluate;;
     page_waitForFunction;;
     console_log "All images loaded successfully.";;
     page_evaluate;;
     page_waitForTimeout;;
     ensureDirectoryExistence screenshotPath;;
     page_screenshot screenshotPath true;;
     console_log ("Screenshot captured: " +:+ screenshotPath))
    (fun message =>
       console_error ("Failed to capture screenshot for " +:+ url +:+ ": " +:+ message)).

(** The three filters of the summary. *)
Definition is_passed (r : Result) : bool :=
  match similarityPercentage r with
  | inl x => PrimFloat.leb 95 x
  | inr _ => false
  end.
Definition is_failed (r : Result) : bool :=
  match similarityPercentage r with
  | inl x => PrimFloat.ltb x 95
  | inr _ => false
  end.
Definition is_error (r : Result) : bool :=
  match similarityPercentage r with
  | inl _ => false
  | inr s => bool_decide (s = "Error")
  end.

(** The comparator handed to [results.sort]. *)
Definition compare_results (a b : Result) : float :=
  if is_error a then (-1)%float
  else if is_error b then 1%float
  else match similarityPercentage a, similarityPercentage b with
       | inl x, inl y => PrimFloat.sub x y
       | _, _ => 0%float
       end.

(** One table row: status and the three embedded images. *)
Definition row (w : World) (deviceName : string) (result : Result) : Row :=
  let sanitizedPath := replace_slashes (pagePath result) in
  let image dir := imageToBase64 w
    ("screenshots/" +:+ deviceName +:+ "/" +:+ dir +:+ "/" +:+ sanitizedPath +:+ ".png") in
  let '(class, text) :=
    match similarityPercentage result with
    | inl x => if PrimFloat.leb 95 x then ("status-pass", "Pass") else ("status-fail", "Fail")
    | inr _ => ("status-error", "Error")
    end in
  mkRow (pagePath result) class text (image "staging") (image "prod") (image "diff").

(** [generateHtmlReport]: counts, in-place sort, one row per result, and
    the report file. The value returned is the caller's array after the
    sort. *)
Definition generateHtmlReport (results : list Result) (deviceName : string)
  : Js (list Result) :=
  let reportPath := "visual_comparison_report_" +:+ deviceName +:+ ".html" in
  let passed := length (filter (fun r => is_passed r = true) results) in
  let failed := length (filter (fun r => is_failed r = true) results) in
  let errors := length (filter (fun r => is_error r = true) results) in
  let results := Array_sort compare_results results in
  fun w =>
    (fs_writeFileSync reportPath
       (HtmlFile (mkSummary (length results) passed failed errors
                    (map (row w deviceName) results)));;
     ret results) w.

(** The body of the page loop: [results] is the array pushed to. *)
Definition compare_page (baseDir : string) (results : list Result) (pagePath : string)
  : Js (list Result) :=
  let stagingUrl := baseUrl (staging cfg) +:+ pagePath in
  let prodUrl := baseUrl (prod cfg) +:+ pagePath in
  let stagingScreenshotPath :=
    path_join (path_join baseDir "staging") (replace_slashes pagePath +:+ ".png") in
  let prodScreenshotPath :=
    path_join (path_join baseDir "prod") (replace_slashes pagePath +:+ ".png") in
  let diffScreenshotPath :=
    path_join (path_join baseDir "diff") (replace_slashes pagePath +:+ ".png") in
  try_catch
    (captureScreenshot stagingUrl stagingScreenshotPath;;
     captureScreenshot prodUrl prodScreenshotPath;;
     similarity <- compareScreenshots stagingScreenshotPath prodScreenshotPath
                     diffScreenshotPath;;
     ret (results ++ [mkResult pagePath similarity None])%list)
    (fun message =>
       ret (results ++ [mkResult pagePath (inr "Error") (Some message)])%list).

Definition compare_pages (baseDir : string) : Js (list Result) :=
  for_of (urls (staging cfg)) (compare_page baseDir) [].

(** The test "Compare staging and prod screenshots and generate HTML
    report". *)
Definition visual_comparison_test : Js (list Result) :=
  let deviceName := "Desktop" in
  console_log "Running tests...";;
  let baseDir := "screenshots/" +:+ deviceName in
  results <- compare_pages baseDir;;
  generateHtmlReport results deviceName.

End Test.
End Report.

(** The function [captureScreenshot] evaluates in the page to trigger lazy
    loading: every tick of the interval scrolls by 300 and adds 300 to
    [totalHeight], and the promise resolves at the first tick at which
    [totalHeight >= document.body.scrollHeight]. [scrollHeight k] is the
    height the document has at tick [k]; the result is the number of ticks
    and the final [totalHeight], [None] when [fuel] ticks did not suffice. *)
Fixpoint scroll_ticks (scrollHeight : nat -> N) (fuel k : nat) (totalHeight : N)
  : option (nat * N) :=
  match fuel with
  | 0 => None
  | S fuel' =>
      let totalHeight := (totalHeight + 300)%N in
      if (scrollHeight k <=? totalHeight)%N then Some (S k, totalHeight)
      else scroll_ticks scrollHeight fuel' (S k) totalHeight
  end.
Definition scroll_to_bottom (scrollHeight : nat -> N) (fuel : nat) : option (nat * N) :=
  scroll_ticks scrollHeight fuel 0 0.

(** The image [compareScreenshots] leaves in place of a screenshot. *)
Definition normalised (lib : Imaging) (src : Image) : Image :=
  sharp_contain lib src 1280 800 (mkPixel 255 255 255 0).

(** A record the three totals are meant for: "Error" or a number. *)
Definition classified (r : Result) : Prop :=
  similarityPercentage r = inr "Error"
  \/ exists x, similarityPercentage r = inl x /\ PrimFloat.is_nan x = false.

(** [R] holds between every element of [l] and the next one. *)
Fixpoint linked {A} (R : A -> A -> Prop) (l : list A) : Prop :=
  match l with
  | a :: (b :: _) as t => R a b /\ linked R t
  | _ => True
  end.

(** Both records hold numbers, the first one at most the second. *)
Definition ascending (a b : Result) : Prop :=
  exists x y, similarityPercentage a = inl x /\ similarityPercentage b = inl y
              /\ PrimFloat.leb x y = true.

(** The sort's test [order < 0] on two records: the first one is to stand
    before the second. *)
Definition sorts_before (a b : Result) : bool :=
  PrimFloat.ltb (sort_compare Report.compare_results a b) 0.

(** [p] holds at each of the [len] indices from [base] on. *)
Fixpoint forall_from (p : N -> bool) (base : N) (len : positive) : bool :=
  match len with
  | xH => p base
  | xO l => forall_from p base l && forall_from p (base + Npos l) l
  | xI l => p base && forall_from p (N.succ base) l && forall_from p (N.succ base + Npos l) l
  end.

(** The rational number a finite binary64 number stands for, as numerator
    and denominator. *)
Definition exact_fraction (x : float) : option (Z * positive) :=
  match FloatOps.Prim2SF x with
  | SpecFloat.S754_zero _ => Some (0%Z, 1%positive)
  | SpecFloat.S754_finite s m e =>
      let n := if s then Z.neg m else Z.pos m in
      match e with
      | Z0 => Some (n, 1%positive)
      | Zpos p => Some ((n * 2 ^ Zpos p)%Z, 1%positive)
      | Zneg p => Some (n, (2 ^ p)%positive)
      end
  | _ => None
  end.

(** [x] is within [2^-43] of the exact percentage
    [100 * (totalPixels - mismatchedPixels) / totalPixels]: with [x = n / d],
    the inequality [|n / d - 100 * matched / total| <= 2^-43] cleared of its
    denominators. *)
Definition near_percentage (totalPixels mismatchedPixels : N) (x : float) : Prop :=
  exists n d, exact_fraction x = Some (n, d)
    /\ (Z.abs (Z.of_N totalPixels * n
               - Z.pos d * (100 * Z.of_N (totalPixels - mismatchedPixels))) * 2 ^ 43
        <= Z.pos d * Z.of_N totalPixels)%Z.

(** A test of [near_percentage (1280 * 800) mismatchedPixels x] on machine
    integers: [x] is [mantissa * 2^(se - 2154)], and with
    [1280 * 800 = 125 * 2^13] the inequality becomes
    [|125 * mantissa - 100 * matched * 2^sh| <= 125 * 2^(sh - 30)] for
    [sh = 2141 - se]; the other tests keep every product below [2^63]. *)
Definition near_percentage_check (mismatchedPixels : N) (x : float) : bool :=
  let matched := Uint63.of_Z (Z.of_N (1280 * 800 - mismatchedPixels)) in
  if PrimFloat.eqb x 0 then (matched =? 0)%uint63
  else
    let '(r, se) := PrimFloat.frshiftexp x in
    let mantissa := PrimFloat.normfr_mantissa r in
    let sh := (2141 - se)%uint63 in
    let a := (mantissa * 125)%uint63 in
    let c := (100 * matched)%uint63 in
    let b := (c << sh)%uint63 in
    PrimFloat.ltb 0 x
    && (0 <? mantissa)%uint63 && (mantissa <? 9007199254740992)%uint63
    && (2088 <=? se)%uint63 && (se <=? 2111)%uint63
    && (c <? (1 << (63 - sh)))%uint63
    && ((if (a <? b)%uint63 then (b - a)%uint63 else (a - b)%uint63)
          <=? (125 << (sh - 30)))%uint63.

(** What is checked of the similarity of each possible count on the canvas
    of 1280 by 800 pixels: it is a number close to the exact percentage, it
    reaches 95 exactly when at most 5 percent of the pixels mismatch, and it
    is 100 only when none does. *)
Definition similarity_checked (mismatchedPixels : N) : bool :=
  let x := similarity (1280 * 800) mismatchedPixels in
  negb (PrimFloat.is_nan x)
  && near_percentage_check mismatchedPixels x
  && Bool.eqb (PrimFloat.leb 95 x) (100 * mismatchedPixels <=? 5 * (1280 * 800))%N
  && Bool.eqb (PrimFloat.eqb x 100) (mismatchedPixels =? 0)%N.

(** ** Sample libraries, worlds and configurations *)

(** Nearest-neighbour scaling and exact byte comparison. *)
Definition nearest_exact : Imaging :=
  mkImaging
    (fun src w h i =>
       let x := (i mod w)%N in
       let y := (i / w)%N in
       data src ((y * height src / h) * width src + x * width src / w)%N)
    (fun _ _ _ => true)
    (fun p q => (red p <? red q)%N)
    (fun p => p).

Definition solid (c : N) : Image := mkImage 2 2 (fun _ => mkPixel c c c 255).

(** Every browser call succeeds; every screenshot is the same grey square. *)
Definition online : World :=
  mkWorld ∅ (fun _ => None) (fun _ => false) (fun _ _ _ => solid 128) 0 "about:blank" [].

(** Every browser call rejects. *)
Definition offline : World :=
  mkWorld ∅ (fun _ => Some "net::ERR_CONNECTION_REFUSED") (fun _ => false)
    (fun _ _ _ => solid 128) 0 "about:blank" [].

(** Offline, with the screenshots of an earlier run still on disk. *)
Definition stale : World :=
  set_fs (fun _ => {[ "screenshots/Desktop/staging/_.png" := PngFile (solid 10);
                      "screenshots/Desktop/prod/_.png" := PngFile (solid 200) ]}) offline.

(** Online, with two byte-identical screenshots on disk. *)
Definition twins : World :=
  set_fs (fun _ => {[ "screenshots/Desktop/staging/_.png" := PngFile (solid 128);
                      "screenshots/Desktop/prod/_.png" := PngFile (solid 128) ]}) online.

(** Offline, with files on disk that are not images. *)
Definition junk : World :=
  set_fs (fun _ => {[ "screenshots/Desktop/staging/_.png" := RawFile "<html>";
                      "screenshots/Desktop/prod/_.png" := RawFile "<html>" ]}) offline.

Definition home_only : Config :=
  mkConfig (mkEnvironment "https://staging.test" ["/"])
           (mkEnvironment "https://prod.test" ["/"]).
Definition no_pages : Config :=
  mkConfig (mkEnvironment "https://staging.test" [])
           (mkEnvironment "https://prod.test" []).

(** Online, with screenshots of different sizes on disk. *)
Definition uneven : World :=
  set_fs (fun _ => {[ "screenshots/staging/home.png" := PngFile (solid 10);
                      "screenshots/prod/home.png" := PngFile (mkImage 3 2 (fun _ => mkPixel 0 0 0 255)) ]})
    online.

(** The cookie banner cannot be queried; every other call succeeds. *)
Definition no_banner : World :=
  mkWorld ∅ (fun t => if (t =? 1)%nat then Some "locator.isVisible: Target closed" else None)
    (fun _ => false) (fun _ _ _ => solid 128) 0 "about:blank" [].

(** The images of the page never finish loading. *)
Definition slow_images : World :=
  mkWorld ∅ (fun t => if (t =? 3)%nat then Some "page.waitForFunction: Timeout 5000ms exceeded." else None)
    (fun _ => false) (fun _ _ _ => solid 128) 0 "about:blank" [].

(** Two sites with two pages that differ from each other and are the same
    on both sites: a screenshot is a square whose grey level is the length
    of the address. *)
Definition two_pages : Config :=
  mkConfig (mkEnvironment "https://stg.test" ["/"; "/events"])
           (mkEnvironment "https://www.test" ["/"; "/events"]).
Definition mirrored : World :=
  mkWorld ∅ (fun _ => None) (fun _ => false)
    (fun _ url _ => solid (N.of_nat (String.length url))) 0 "about:blank" [].

Definition similar (x : float) : Result := mkResult "/page" (inl x) None.
Definition size_mismatch : Result := mkResult "/wide" (inr "Size mismatch") None.
Definition capture_error : Result := mkResult "/down" (inr "Error") None.

(** * Properties *)

Arguments sharp_contain : simpl never.
Arguments pixelmatch : simpl never.
Arguments similarity : simpl never.
Arguments count_below : simpl never.

(** ** Completions: basic facts *)

Lemma bind_normal {A B} (c : Js A) (k : A -> Js B) w w' a :
  c w = (w', Normal a) -> (x <- c;; k x) w = k a w'.
Proof. intros H. unfold bind. now rewrite H. Qed.

Lemma bind_throw {A B} (c : Js A) (k : A -> Js B) w w' m :
  c w = (w', Throw m) -> (x <- c;; k x) w = (w', Throw m).
Proof. intros H. unfold bind. now rewrite H. Qed.

Lemma try_catch_total {A} (body : Js A) (handler : string -> Js A) w :
  (forall m w0, exists w1 a, handler m w0 = (w1, Normal a)) ->
  exists w' a, try_catch body handler w = (w', Normal a).
Proof.
  intros Hh. unfold try_catch.
  destruct (body w) as [w1 [a|m]]; [by exists w1, a | apply Hh].
Qed.

(** ** The current capture never throws *)

Lemma captureScreenshot_returns url screenshotPath w :
  exists w', Report.captureScreenshot url screenshotPath w = (w', Normal tt).
Proof.
  destruct (try_catch_total
    (console_log ("Navigating to: " +:+ url);;
       page_goto url;;
       Report.acceptCookies;;
       page_evaluate;;
       page_waitForFunction;;
       console_log "All images loaded successfully.";;
       page_evaluate;;
       page_waitForTimeout;;
       ensureDirectoryExistence screenshotPath;;
       page_screenshot screenshotPath true;;
       console_log ("Screenshot captured: " +:+ screenshotPath))
    (fun message =>
         console_error ("Failed to capture screenshot for " +:+ url +:+ ": " +:+ message)) w)
    as (w' & [] & H).
  - intros m w0. by eexists _, tt.
  - by exists w'.
Qed.

Lemma captureScreenshot_navigation_failure url screenshotPath w m :
  faults w (clock w) = Some m ->
  Report.captureScreenshot url screenshotPath w =
    (emit ("Failed to capture screenshot for " +:+ url +:+ ": " +:+ m)
       (tick (emit ("Navigating to: " +:+ url) w)), Normal tt).
Proof.
  intros H. unfold Report.captureScreenshot, try_catch, bind, console_log, page_goto.
  cbn. by rewrite H.
Qed.

(** ** File system steps *)

Lemma fs_existsSync_some path f w :
  fs w !! path = Some f -> fs_existsSync path w = (w, Normal true).
Proof. intros H. unfold fs_existsSync. by rewrite H, bool_decide_true. Qed.

Lemma fs_existsSync_none path w :
  fs w !! path = None -> fs_existsSync path w = (w, Normal false).
Proof.
  intros H. unfold fs_existsSync. rewrite H, bool_decide_false; [done|].
  by intros [? ?].
Qed.

Lemma fs_readFileSync_some path f w :
  fs w !! path = Some f -> fs_readFileSync path w = (w, Normal f).
Proof. intros H. unfold fs_readFileSync. by rewrite H. Qed.

(** ** Normalisation *)

Lemma sharp_contain_width lib src W H bg : width (sharp_contain lib src W H bg) = W.
Proof.
  unfold sharp_contain. by destruct (contain_size _ _ _ _), (contain_origin _ _ _ _).
Qed.

Lemma sharp_contain_height lib src W H bg : height (sharp_contain lib src W H bg) = H.
Proof.
  unfold sharp_contain. by destruct (contain_size _ _ _ _), (contain_origin _ _ _ _).
Qed.

Lemma resizeImage_png lib imagePath W H w src :
  W ≠ 0%N -> H ≠ 0%N ->
  fs w !! imagePath = Some (PngFile src) ->
  Report.resizeImage lib imagePath W H w =
    (set_fs <[imagePath := PngFile (sharp_contain lib src W H (mkPixel 255 255 255 0))]> w,
     Normal tt).
Proof.
  intros HW HH Hsrc. unfold Report.resizeImage.
  rewrite (bind_normal _ _ _ _ _ (fs_readFileSync_some _ _ _ Hsrc)).
  unfold sharp_resize.
  destruct (N.eqb_spec W 0); [done|]. destruct (N.eqb_spec H 0); [done|].
  reflexivity.
Qed.

(** ** Comparison *)

Lemma compareScreenshots_missing lib baselinePath currentPath diffPath w :
  fs w !! baselinePath = None \/ fs w !! currentPath = None ->
  Report.compareScreenshots lib baselinePath currentPath diffPath w =
    (emit ("Missing file(s): " +:+ baselinePath +:+ " or " +:+ currentPath) w,
     Normal (inr "Error")).
Proof.
  intros H. unfold Report.compareScreenshots, bind, fs_existsSync.
  destruct H as [H|H]; rewrite H.
  - rewrite (bool_decide_false (is_Some None)); [done | by intros [? ?]].
  - rewrite (bool_decide_false (is_Some None)); [|by intros [? ?]].
    by rewrite orb_true_r.
Qed.

Lemma compareScreenshots_success lib baselinePath currentPath diffPath w img1 img2 :
  baselinePath ≠ currentPath ->
  fs w !! baselinePath = Some (PngFile img1) ->
  fs w !! currentPath = Some (PngFile img2) ->
  Report.compareScreenshots lib baselinePath currentPath diffPath w =
    (set_fs <[diffPath := PngFile (mkImage 1280 800
               (pixelmatch lib (data (normalised lib img1)) (data (normalised lib img2))
                  1280 800 (mkOptions tenth (mkPixel 0 0 255 255) (mkPixel 255 165 0 255))).2)]>
       (set_fs <[currentPath := PngFile (normalised lib img2)]>
          (set_fs <[baselinePath := PngFile (normalised lib img1)]> w)),
     Normal (inl (similarity (1280 * 800)
       (pixelmatch lib (data (normalised lib img1)) (data (normalised lib img2))
          1280 800 (mkOptions tenth (mkPixel 255 0 0 255) (mkPixel 255 0 0 255))).1))).
Proof.
  intros Hne H1 H2. unfold Report.compareScreenshots.
  rewrite (bind_normal _ _ _ _ _ (fs_existsSync_some _ _ _ H1)).
  rewrite (bind_normal _ _ _ _ _ (fs_existsSync_some _ _ _ H2)).
  cbn [negb orb].
  rewrite (bind_normal _ _ _ _ _ (resizeImage_png lib _ 1280 800 _ _ ltac:(done) ltac:(done) H1)).
  assert (H2' : fs (set_fs <[baselinePath := PngFile (normalised lib img1)]> w) !! currentPath
                = Some (PngFile img2)).
  { cbn. by rewrite lookup_insert_ne. }
  rewrite (bind_normal _ _ _ _ _ (resizeImage_png lib _ 1280 800 _ _ ltac:(done) ltac:(done) H2')).
  fold (normalised lib img1). fold (normalised lib img2).
  set (w2 := set_fs <[currentPath := _]> _).
  assert (R1 : fs w2 !! baselinePath = Some (PngFile (normalised lib img1))).
  { subst w2. cbn. rewrite lookup_insert_ne by done. apply lookup_insert_eq. }
  assert (R2 : fs w2 !! currentPath = Some (PngFile (normalised lib img2))).
  { subst w2. cbn. apply lookup_insert_eq. }
  rewrite (bind_normal _ _ _ _ _ (fs_readFileSync_some _ _ _ R1)).
  unfold PNG_sync_read at 1. unfold bind at 1. unfold ret at 1.
  rewrite (bind_normal _ _ _ _ _ (fs_readFileSync_some _ _ _ R2)).
  unfold PNG_sync_read at 1. unfold bind at 1. unfold ret at 1.
  unfold normalised. rewrite !sharp_contain_width, !sharp_contain_height.
  rewrite !N.eqb_refl. cbn [negb orb].
  reflexivity.
Qed.

Lemma captureScreenshot_outcome url screenshotPath w :
  exists w', Report.captureScreenshot url screenshotPath w = (w', Normal tt)
    /\ clock w' <= clock w + 9
    /\ ((exists m, last (console w')
                   = Some ("Failed to capture screenshot for " +:+ url +:+ ": " +:+ m)
                /\ fs w' = fs w)
        \/ (exists img, last (console w') = Some ("Screenshot captured: " +:+ screenshotPath)
                /\ fs w' = <[screenshotPath := PngFile img]> (fs w))).
Proof.
  unfold Report.captureScreenshot, Report.acceptCookies, try_catch, bind, console_log,
    console_error, page_goto, page_evaluate, page_waitForFunction, page_waitForTimeout,
    locator_isVisible, locator_click, page_call, page_screenshot, ensureDirectoryExistence,
    ret, console_log.
  cbn.
  repeat (case_match; simplify_eq; cbn in * );
    (eexists; split; [reflexivity|]; cbn; split; [lia|]);
    first [ left; eexists; split; [apply last_snoc|reflexivity]
          | right; eexists; split; [apply last_snoc|reflexivity] ].
Qed.

(** ** Counting mismatches *)

Lemma count_below_succ p n :
  count_below p (N.succ n) = if p n then N.succ (count_below p n) else count_below p n.
Proof. unfold count_below. by rewrite N.peano_rect_succ. Qed.

Lemma count_below_le p n : (count_below p n <= n)%N.
Proof.
  induction n as [|n IH] using N.peano_ind; [done|].
  rewrite count_below_succ. destruct (p n); lia.
Qed.

Lemma count_below_none p n :
  (forall i, (i < n)%N -> p i = false) -> count_below p n = 0%N.
Proof.
  induction n as [|n IH] using N.peano_ind; intros H; [done|].
  rewrite count_below_succ, (H n) by lia. apply IH. intros i Hi. apply H. lia.
Qed.

Lemma mismatched_same lib t p : mismatched lib t p p = false.
Proof. unfold mismatched. by rewrite decide_True. Qed.

Lemma pixelmatch_bound lib img1 img2 w h options :
  ((pixelmatch lib img1 img2 w h options).1 <= w * h)%N.
Proof. apply count_below_le. Qed.

Lemma pixelmatch_identical lib img w h options :
  (pixelmatch lib img img w h options).1 = 0%N.
Proof. apply count_below_none. intros i _. apply mismatched_same. Qed.

Opaque count_below.

Lemma similarity_all_matched : similarity (1280 * 800) 0 = 100%float.
Proof. vm_compute. reflexivity. Qed.

(** *** The number computed from the two counts *)

Lemma forall_from_spec p len : forall base, forall_from p base len = true ->
  forall i, (base <= i < base + Npos len)%N -> p i = true.
Proof.
  induction len as [len IH|len IH|]; intros base H i Hi; cbn [forall_from] in H.
  - apply andb_prop in H as [H H3]. apply andb_prop in H as [H1 H2].
    destruct (N.eq_dec i base) as [->|]; [done|].
    destruct (N.lt_ge_cases i (N.succ base + Npos len)).
    + apply (IH _ H2). lia.
    + apply (IH _ H3). lia.
  - apply andb_prop in H as [H1 H2].
    destruct (N.lt_ge_cases i (base + Npos len)).
    + apply (IH _ H1). lia.
    + apply (IH _ H2). lia.
  - by replace i with base by lia.
Qed.

(** The mantissa and the exponent the primitives give for a normal
    number are those of its specification. *)
Lemma float_decompose x r se :
  PrimFloat.frshiftexp x = (r, se) ->
  Uint63.to_Z (PrimFloat.normfr_mantissa r) <> 0%Z ->
  (-1074 < Uint63.to_Z se - 2154)%Z ->
  exists s m,
    FloatOps.Prim2SF x = SpecFloat.S754_finite s m (Uint63.to_Z se - 2154)
    /\ Uint63.to_Z (PrimFloat.normfr_mantissa r) = Z.pos m.
Proof.
  intros Hfr HM HE.
  pose proof (FloatAxioms.frshiftexp_spec x) as Hspec. rewrite Hfr in Hspec.
  pose proof (FloatAxioms.normfr_mantissa_spec r) as Hman.
  pose proof (FloatAxioms.Prim2SF_valid x) as Hvalid.
  destruct (FloatOps.Prim2SF x) as [s|s| |s m e] eqn:Hx;
    cbn [SpecFloat.SFfrexp] in Hspec.
  - injection Hspec as Hr _. rewrite Hr in Hman. by destruct HM.
  - injection Hspec as Hr _. rewrite Hr in Hman. by destruct HM.
  - injection Hspec as Hr _. rewrite Hr in Hman. by destruct HM.
  - destruct (Z.leb FloatOps.prec (Z.pos (SpecFloat.digits2_pos m))) eqn:Hd.
    + injection Hspec as Hr He. rewrite Hr in Hman.
      unfold SpecFloat.SFnormfr_mantissa in Hman. rewrite Z.eqb_refl in Hman.
      exists s, m. split; [|exact Hman]. f_equal.
      unfold FloatOps.shift, FloatOps.prec in He. lia.
    + exfalso. injection Hspec as Hr He.
      apply Z.leb_gt in Hd.
      cbn [SpecFloat.valid_binary] in Hvalid. unfold SpecFloat.bounded in Hvalid.
      apply andb_prop in Hvalid as [Hcan _].
      unfold SpecFloat.canonical_mantissa, SpecFloat.fexp, SpecFloat.emin in Hcan.
      apply Z.eqb_eq in Hcan.
      unfold FloatOps.shift, FloatOps.prec, FloatOps.emax in *.
      change (IntDef.Z.pos_sub 53 (SpecFloat.digits2_pos m))
        with (53 - Z.pos (SpecFloat.digits2_pos m))%Z in He.
      change IntDef.Z.max with Z.max in Hcan. lia.
Qed.

Lemma zero_spec x :
  PrimFloat.eqb x 0 = true -> exists s, FloatOps.Prim2SF x = SpecFloat.S754_zero s.
Proof.
  rewrite FloatAxioms.eqb_spec.
  change (FloatOps.Prim2SF 0) with (SpecFloat.S754_zero false).
  destruct (FloatOps.Prim2SF x) as [s|s| |s m e]; cbn; try done.
  - by exists s.
  - by destruct s.
  - by destruct s.
Qed.

Lemma positive_spec x s m e :
  PrimFloat.ltb 0 x = true -> FloatOps.Prim2SF x = SpecFloat.S754_finite s m e -> s = false.
Proof.
  rewrite FloatAxioms.ltb_spec.
  change (FloatOps.Prim2SF 0) with (SpecFloat.S754_zero false).
  intros H Hx. rewrite Hx in H. by destruct s.
Qed.

Lemma wB_value : Uint63.wB = (2 ^ 63)%Z.
Proof. reflexivity. Qed.

Lemma near_percentage_check_spec mismatchedPixels x :
  (mismatchedPixels <= 1280 * 800)%N ->
  near_percentage_check mismatchedPixels x = true ->
  near_percentage (1280 * 800) mismatchedPixels x.
Proof.
  intros Hm. unfold near_percentage_check, near_percentage.
  set (k := (1280 * 800 - mismatchedPixels)%N).
  assert (Hk : Uint63.to_Z (Uint63.of_Z (Z.of_N k)) = Z.of_N k).
  { rewrite Uint63.of_Z_spec, wB_value. apply Z.mod_small. subst k. lia. }
  assert (HK : (0 <= Z.of_N k <= 1024000)%Z) by (subst k; lia).
  change (Z.of_N (1280 * 800)) with 1024000%Z.
  destruct (PrimFloat.eqb x 0) eqn:Hzero.
  - intros H. apply Uint63.eqb_spec in H. rewrite H in Hk.
    change (Uint63.to_Z 0) with 0%Z in Hk.
    destruct (zero_spec x Hzero) as [s Hx].
    exists 0%Z, 1%positive. unfold exact_fraction. rewrite Hx. split; [done|].
    rewrite <- Hk. done.
  - destruct (PrimFloat.frshiftexp x) as [r se] eqn:Hfr.
    intros H.
    apply andb_prop in H as [H H7]. apply andb_prop in H as [H H6].
    apply andb_prop in H as [H H5]. apply andb_prop in H as [H H4].
    apply andb_prop in H as [H H3]. apply andb_prop in H as [H1 H2].
    apply Uint63.ltb_spec in H2, H3, H6. apply Uint63.leb_spec in H4, H5, H7.
    change (Uint63.to_Z 0) with 0%Z in H2.
    change (Uint63.to_Z 9007199254740992) with (2 ^ 53)%Z in H3.
    change (Uint63.to_Z 2088) with 2088%Z in H4.
    change (Uint63.to_Z 2111) with 2111%Z in H5.
    set (M := Uint63.to_Z (PrimFloat.normfr_mantissa r)) in *.
    set (S := Uint63.to_Z se) in *.
    assert (Hsh : Uint63.to_Z (2141 - se) = (2141 - S)%Z).
    { rewrite Uint63.sub_spec, wB_value. change (Uint63.to_Z 2141) with 2141%Z.
      fold S. apply Z.mod_small. lia. }
    assert (Ha : Uint63.to_Z (PrimFloat.normfr_mantissa r * 125) = (M * 125)%Z).
    { rewrite Uint63.mul_spec, wB_value. change (Uint63.to_Z 125) with 125%Z.
      fold M. apply Z.mod_small. lia. }
    assert (Hc : Uint63.to_Z (100 * Uint63.of_Z (Z.of_N k)) = (100 * Z.of_N k)%Z).
    { rewrite Uint63.mul_spec, wB_value, Hk. change (Uint63.to_Z 100) with 100%Z.
      apply Z.mod_small. lia. }
    assert (H63 : Uint63.to_Z (63 - (2141 - se)) = (63 - (2141 - S))%Z).
    { rewrite Uint63.sub_spec, wB_value, Hsh. change (Uint63.to_Z 63) with 63%Z.
      apply Z.mod_small. lia. }
    assert (H30 : Uint63.to_Z (2141 - se - 30) = (2141 - S - 30)%Z).
    { rewrite Uint63.sub_spec, wB_value, Hsh. change (Uint63.to_Z 30) with 30%Z.
      apply Z.mod_small. lia. }
    set (W := (2 ^ (2141 - S - 30))%Z).
    assert (HW : (0 < W)%Z) by (apply Z.pow_pos_nonneg; lia).
    assert (HWle : (W <= 2 ^ 23)%Z) by (apply Z.pow_le_mono_r; lia).
    assert (Hpow : (2 ^ (2141 - S) = 2 ^ 30 * W)%Z).
    { subst W. rewrite <- Z.pow_add_r by lia. f_equal. lia. }
    assert (Hpow63 : (2 ^ (63 - (2141 - S)) * W = 2 ^ 33)%Z).
    { subst W. rewrite <- Z.pow_add_r by lia. f_equal. lia. }
    rewrite Uint63.lsl_spec, H63, wB_value in H6.
    change (Uint63.to_Z 1) with 1%Z in H6.
    rewrite Z.mod_small in H6.
    2:{ split; [lia|]. rewrite Z.mul_1_l. apply Z.pow_lt_mono_r; lia. }
    rewrite Hc, Z.mul_1_l in H6.
    assert (Hfit : (100 * Z.of_N k * W < 2 ^ 33)%Z) by nia.
    assert (Hb : Uint63.to_Z ((100 * Uint63.of_Z (Z.of_N k)) << (2141 - se))
                 = (100 * Z.of_N k * (2 ^ 30 * W))%Z).
    { rewrite Uint63.lsl_spec, Hc, Hsh, wB_value, Hpow. apply Z.mod_small. lia. }
    assert (Hbound : Uint63.to_Z (125 << (2141 - se - 30)) = (125 * W)%Z).
    { rewrite Uint63.lsl_spec, H30, wB_value. change (Uint63.to_Z 125) with 125%Z.
      fold W. apply Z.mod_small. lia. }
    rewrite Hbound in H7.
    assert (Hdiff : (Z.abs (M * 125 - 100 * Z.of_N k * (2 ^ 30 * W)) <= 125 * W)%Z).
    { destruct (Uint63.ltb _ _) eqn:Hlt.
      - apply Uint63.ltb_spec in Hlt. rewrite Ha, Hb in Hlt.
        rewrite Uint63.sub_spec, Ha, Hb, wB_value, Z.mod_small in H7 by lia. lia.
      - assert (Hge : ~ (Uint63.to_Z (PrimFloat.normfr_mantissa r * 125)
                         < Uint63.to_Z ((100 * Uint63.of_Z (Z.of_N k)) << (2141 - se)))%Z).
        { intros Hlt'. apply Uint63.ltb_spec in Hlt'. congruence. }
        rewrite Ha, Hb in Hge.
        rewrite Uint63.sub_spec, Ha, Hb, wB_value, Z.mod_small in H7 by lia. lia. }
    destruct (float_decompose x r se Hfr ltac:(fold M; lia) ltac:(fold S; lia))
      as (s & m & Hx & HMm).
    fold M in HMm. fold S in Hx.
    pose proof (positive_spec x s m _ H1 Hx) as ->.
    unfold exact_fraction. rewrite Hx.
    destruct (S - 2154)%Z as [|p|p] eqn:HE; [lia | lia |].
    exists (Z.pos m), (2 ^ p)%positive. split; [done|].
    rewrite Pos2Z.inj_pow.
    replace (Z.pos p) with (13 + 30 + (2141 - S - 30))%Z by lia.
    rewrite !Z.pow_add_r by lia. fold W. rewrite <- HMm.
    change (2 ^ 13)%Z with 8192%Z. change (2 ^ 30)%Z with 1073741824%Z in *.
    change (2 ^ 43)%Z with 8796093022208%Z.
    set (Q := (Z.of_N k * W)%Z).
    replace (100 * Z.of_N k * (1073741824 * W))%Z with (107374182400 * Q)%Z in Hdiff
      by (subst Q; lia).
    replace (8192 * 1073741824 * W * (100 * Z.of_N k))%Z with (879609302220800 * Q)%Z
      by (subst Q; lia).
    lia.
Qed.

(** Every count from 0 to 1280 * 800 passes the check. *)
Lemma similarity_table : forall_from similarity_checked 0 1024001 = true.
Proof. vm_compute. reflexivity. Qed.

Lemma similarity_facts mismatchedPixels :
  (mismatchedPixels <= 1280 * 800)%N ->
  let x := similarity (1280 * 800) mismatchedPixels in
  PrimFloat.is_nan x = false
  /\ near_percentage (1280 * 800) mismatchedPixels x
  /\ (PrimFloat.leb 95 x = true <-> (100 * mismatchedPixels <= 5 * (1280 * 800))%N)
  /\ (PrimFloat.eqb x 100 = true <-> mismatchedPixels = 0%N).
Proof.
  intros Hm x.
  pose proof (forall_from_spec _ _ _ similarity_table mismatchedPixels ltac:(lia)) as H.
  unfold similarity_checked in H. fold x in H.
  apply andb_prop in H as [H H4]. apply andb_prop in H as [H H3].
  apply andb_prop in H as [H1 H2].
  split; [by destruct (PrimFloat.is_nan x)|].
  split; [by apply near_percentage_check_spec|].
  apply Bool.eqb_prop in H3, H4. rewrite H3, H4. split.
  - apply N.leb_le.
  - apply N.eqb_eq.
Qed.

(** The conversion of a count to a number is exact: it is the binary64
    number the reference semantics normalises the integer to. *)
Lemma number_of_N_spec n :
  (n < 2 ^ 63)%N ->
  FloatOps.Prim2SF (number_of_N n)
  = SpecFloat.binary_normalize FloatOps.prec FloatOps.emax (Z.of_N n) 0 false.
Proof.
  intros Hn. unfold number_of_N. rewrite FloatAxioms.of_uint63_spec.
  rewrite Uint63.of_Z_spec. rewrite Z.mod_small; [done|].
  change Uint63.wB with (2 ^ 63)%Z. lia.
Qed.

Lemma similarity_spec totalPixels mismatchedPixels :
  (totalPixels < 2 ^ 63)%N ->
  FloatOps.Prim2SF (similarity totalPixels mismatchedPixels)
  = FloatAxioms.SF64mul
      (FloatAxioms.SF64div
         (SpecFloat.binary_normalize FloatOps.prec FloatOps.emax
            (Z.of_N (totalPixels - mismatchedPixels)) 0 false)
         (SpecFloat.binary_normalize FloatOps.prec FloatOps.emax (Z.of_N totalPixels) 0 false))
      (SpecFloat.binary_normalize FloatOps.prec FloatOps.emax 100 0 false).
Proof.
  intros HT. unfold similarity.
  rewrite FloatAxioms.mul_spec, FloatAxioms.div_spec.
  rewrite !number_of_N_spec by lia. reflexivity.
Qed.

(** C6. When both screenshots exist as images, the comparison returns the
    number [(totalPixels - mismatchedPixels) / totalPixels * 100], where
    [totalPixels] is width times height of the (normalised, hence
    equal-sized) images and [mismatchedPixels], the count reported by
    [pixelmatch], never exceeds [totalPixels]. The number is computed on
    binary64 numbers: it is the quotient of the two counts, converted
    exactly, times 100, each rounded as the reference semantics of binary64
    prescribes; it lies within [2^-43] of the exact percentage, reaches 95
    exactly when at most 5 percent of the pixels mismatch, and is 100
    exactly when no pixel mismatches. For two byte-identical images the
    count is 0 and the number returned is exactly 100. *)
Theorem similarity_of_comparison lib baselinePath currentPath diffPath w img1 img2 :
  baselinePath ≠ currentPath ->
  fs w !! baselinePath = Some (PngFile img1) ->
  fs w !! currentPath = Some (PngFile img2) ->
  let a := normalised lib img1 in
  let b := normalised lib img2 in
  let totalPixels := (width a * height a)%N in
  let mismatchedPixels :=
    (pixelmatch lib (data a) (data b) (width a) (height a)
       (mkOptions tenth (mkPixel 255 0 0 255) (mkPixel 255 0 0 255))).1 in
  exists x,
    (Report.compareScreenshots lib baselinePath currentPath diffPath w).2 = Normal (inl x)
    /\ x = PrimFloat.mul
             (PrimFloat.div (number_of_N (totalPixels - mismatchedPixels))
                            (number_of_N totalPixels))
             100%float
    /\ (mismatchedPixels <= totalPixels)%N
    /\ FloatOps.Prim2SF x
       = FloatAxioms.SF64mul
           (FloatAxioms.SF64div
              (SpecFloat.binary_normalize FloatOps.prec FloatOps.emax
                 (Z.of_N (totalPixels - mismatchedPixels)) 0 false)
              (SpecFloat.binary_normalize FloatOps.prec FloatOps.emax
                 (Z.of_N totalPixels) 0 false))
           (SpecFloat.binary_normalize FloatOps.prec FloatOps.emax 100 0 false)
    /\ near_percentage totalPixels mismatchedPixels x
    /\ (PrimFloat.leb 95 x = true <-> (100 * mismatchedPixels <= 5 * totalPixels)%N)
    /\ (PrimFloat.eqb x 100 = true <-> mismatchedPixels = 0%N)
    /\ (img1 = img2 -> mismatchedPixels = 0%N /\ x = 100%float).
Proof.
  intros Hne H1 H2 a b totalPixels mismatchedPixels.
  rewrite (compareScreenshots_success lib _ _ diffPath w img1 img2 Hne H1 H2).
  cbn [snd].
  assert (Hw : width a = 1280%N) by apply sharp_contain_width.
  assert (Hh : height a = 800%N) by apply sharp_contain_height.
  subst totalPixels mismatchedPixels. rewrite Hw, Hh. fold a b.
  set (m := (pixelmatch lib (data a) (data b) 1280 800 _).1).
  assert (Hm : (m <= 1280 * 800)%N) by apply pixelmatch_bound.
  destruct (similarity_facts m Hm) as (_ & Hnear & H95 & H100).
  exists (similarity (1280 * 800) m).
  split; [reflexivity|]. split; [reflexivity|]. split; [exact Hm|].
  split; [by apply similarity_spec|].
  split; [exact Hnear|]. split; [exact H95|]. split; [exact H100|].
  intros ->. subst m a b. rewrite pixelmatch_identical.
  split; [reflexivity|]. apply similarity_all_matched.
Qed.

Lemma similarity_of_comparison_witness :
  (exists x,
     (Report.compareScreenshots nearest_exact "screenshots/Desktop/staging/_.png"
        "screenshots/Desktop/prod/_.png" "screenshots/Desktop/diff/_.png" stale).2
       = Normal (inl x)
     /\ near_percentage (1280 * 800)
          (pixelmatch nearest_exact (data (normalised nearest_exact (solid 10)))
             (data (normalised nearest_exact (solid 200))) 1280 800
             (mkOptions tenth (mkPixel 255 0 0 255) (mkPixel 255 0 0 255))).1 x)
  /\ (Report.compareScreenshots nearest_exact "screenshots/Desktop/staging/_.png"
        "screenshots/Desktop/prod/_.png" "screenshots/Desktop/diff/_.png" twins).2
     = Normal (inl 100%float).
Proof.
  split.
  - destruct (similarity_of_comparison nearest_exact "screenshots/Desktop/staging/_.png"
                "screenshots/Desktop/prod/_.png" "screenshots/Desktop/diff/_.png" stale
                (solid 10) (solid 200) ltac:(done) eq_refl eq_refl)
      as (x & Hx & _ & _ & _ & Hnear & _).
    exists x. split; [exact Hx | exact Hnear].
  - destruct (similarity_of_comparison nearest_exact "screenshots/Desktop/staging/_.png"
                "screenshots/Desktop/prod/_.png" "screenshots/Desktop/diff/_.png" twins
                (solid 128) (solid 128) ltac:(done) eq_refl eq_refl)
      as (x & Hx & _ & _ & _ & _ & _ & _ & Hsame).
    destruct (Hsame eq_refl) as [_ ->]. exact Hx.
Defined.

(** The retrying test's differencer computes the same ratio, on the
    images as captured. *)
Lemma legacy_similarity lib stagingPath prodPath diffPath w img1 img2 :
  fs w !! stagingPath = Some (PngFile img1) ->
  fs w !! prodPath = Some (PngFile img2) ->
  width img1 = width img2 -> height img1 = height img2 ->
  (Legacy.compareScreenshots lib stagingPath prodPath diffPath w).2 =
    Normal (similarity (width img1 * height img1)
              (pixelmatch lib (data img1) (data img2) (width img1) (height img1)
                 (mkOptions tenth (mkPixel 255 0 0 255) (mkPixel 255 0 0 255))).1).
Proof.
  intros H1 H2 Hw Hh. unfold Legacy.compareScreenshots.
  rewrite (bind_normal _ _ _ _ _ (fs_readFileSync_some _ _ _ H1)).
  unfold PNG_sync_read at 1. unfold bind at 1. unfold ret at 1.
  rewrite (bind_normal _ _ _ _ _ (fs_readFileSync_some _ _ _ H2)).
  unfold PNG_sync_read at 1. unfold bind at 1. unfold ret at 1.
  rewrite <- Hw, <- Hh, !N.eqb_refl. cbn [negb orb].
  reflexivity.
Qed.

(** C10. For two existing screenshot images (at the distinct staging, prod
    and diff paths of a page), [compareScreenshots] writes the image resized to
    1280 by 800 back to each screenshot's own path before it reads the files
    for differencing: the similarity is computed from the normalised images,
    and after the comparison the files at the staging and prod paths are the
    normalised images. *)
Theorem normalisation_overwrites_screenshots lib baselinePath currentPath diffPath w img1 img2 :
  baselinePath ≠ currentPath -> diffPath ≠ baselinePath -> diffPath ≠ currentPath ->
  fs w !! baselinePath = Some (PngFile img1) ->
  fs w !! currentPath = Some (PngFile img2) ->
  let resized :=
    ((Report.resizeImage lib baselinePath 1280 800;;
      Report.resizeImage lib currentPath 1280 800) w).1 in
  let compared := Report.compareScreenshots lib baselinePath currentPath diffPath w in
  (fs resized !! baselinePath = Some (PngFile (normalised lib img1))
   /\ fs resized !! currentPath = Some (PngFile (normalised lib img2)))
  /\ compared.2 =
       Normal (inl (similarity (1280 * 800)
         (pixelmatch lib (data (normalised lib img1)) (data (normalised lib img2)) 1280 800
            (mkOptions tenth (mkPixel 255 0 0 255) (mkPixel 255 0 0 255))).1))
  /\ (fs compared.1 !! baselinePath = Some (PngFile (normalised lib img1))
      /\ fs compared.1 !! currentPath = Some (PngFile (normalised lib img2)))
  /\ (width (normalised lib img1) = 1280%N /\ height (normalised lib img1) = 800%N
      /\ width (normalised lib img2) = 1280%N /\ height (normalised lib img2) = 800%N).
Proof.
  intros Hne Hd1 Hd2 H1 H2 resized compared.
  assert (H2' : fs (set_fs <[baselinePath := PngFile (normalised lib img1)]> w) !! currentPath
                = Some (PngFile img2)).
  { cbn [fs set_fs]. by rewrite lookup_insert_ne. }
  assert (Hres : resized = set_fs <[currentPath := PngFile (normalised lib img2)]>
                             (set_fs <[baselinePath := PngFile (normalised lib img1)]> w)).
  { unfold resized.
    rewrite (bind_normal _ _ _ _ _
               (resizeImage_png lib _ 1280 800 _ _ ltac:(done) ltac:(done) H1)).
    fold (normalised lib img1).
    by rewrite (resizeImage_png lib _ 1280 800 _ _ ltac:(done) ltac:(done) H2'). }
  unfold compared.
  rewrite (compareScreenshots_success lib _ _ diffPath w img1 img2 Hne H1 H2), Hres.
  cbn [fst snd fs set_fs].
  repeat split.
  - rewrite lookup_insert_ne by done. apply lookup_insert_eq.
  - apply lookup_insert_eq.
  - rewrite !lookup_insert_ne by done. apply lookup_insert_eq.
  - rewrite lookup_insert_ne by done. apply lookup_insert_eq.
  - apply sharp_contain_width.
  - apply sharp_contain_height.
  - apply sharp_contain_width.
  - apply sharp_contain_height.
Qed.

Lemma normalisation_overwrites_screenshots_witness :
  fs (Report.compareScreenshots nearest_exact "screenshots/Desktop/staging/_.png"
        "screenshots/Desktop/prod/_.png" "screenshots/Desktop/diff/_.png" stale).1
    !! "screenshots/Desktop/staging/_.png"
  = Some (PngFile (normalised nearest_exact (solid 10))).
Proof.
  exact (proj1 (proj1 (proj2 (proj2
    (normalisation_overwrites_screenshots nearest_exact "screenshots/Desktop/staging/_.png"
       "screenshots/Desktop/prod/_.png" "screenshots/Desktop/diff/_.png" stale
       (solid 10) (solid 200) ltac:(done) ltac:(done) ltac:(done) eq_refl eq_refl))))).
Defined.

(** ** The page loop *)

Lemma compare_page_cases lib cfg baseDir results p w :
  exists w2,
    (exists w1, Report.captureScreenshot (baseUrl (staging cfg) +:+ p)
                  (path_join (path_join baseDir "staging") (replace_slashes p +:+ ".png")) w
                = (w1, Normal tt)
             /\ Report.captureScreenshot (baseUrl (prod cfg) +:+ p)
                  (path_join (path_join baseDir "prod") (replace_slashes p +:+ ".png")) w1
                = (w2, Normal tt))
    /\ Report.compare_page lib cfg baseDir results p w =
       match Report.compareScreenshots lib
               (path_join (path_join baseDir "staging") (replace_slashes p +:+ ".png"))
               (path_join (path_join baseDir "prod") (replace_slashes p +:+ ".png"))
               (path_join (path_join baseDir "diff") (replace_slashes p +:+ ".png")) w2 with
       | (w3, Normal v) => (w3, Normal (results ++ [mkResult p v None])%list)
       | (w3, Throw m) => (w3, Normal (results ++ [mkResult p (inr "Error") (Some m)])%list)
       end.
Proof.
  destruct (captureScreenshot_returns (baseUrl (staging cfg) +:+ p)
              (path_join (path_join baseDir "staging") (replace_slashes p +:+ ".png")) w)
    as [w1 H1].
  destruct (captureScreenshot_returns (baseUrl (prod cfg) +:+ p)
              (path_join (path_join baseDir "prod") (replace_slashes p +:+ ".png")) w1)
    as [w2 H2].
  exists w2. split; [by exists w1|].
  unfold Report.compare_page, try_catch.
  rewrite (bind_normal _ _ _ _ _ H1), (bind_normal _ _ _ _ _ H2).
  unfold bind. by destruct (Report.compareScreenshots _ _ _ _ _) as [w3 [v|m]].
Qed.

Lemma compare_page_pushes lib cfg baseDir results p w :
  exists w' r, Report.compare_page lib cfg baseDir results p w
               = (w', Normal (results ++ [r])%list)
            /\ pagePath r = p.
Proof.
  destruct (compare_page_cases lib cfg baseDir results p w) as (w2 & _ & ->).
  destruct (Report.compareScreenshots _ _ _ _ _) as [w3 [v|m]]; by eexists _, _.
Qed.

Lemma for_of_compare_page lib cfg baseDir items : forall acc w,
  exists w' rs, for_of items (Report.compare_page lib cfg baseDir) acc w
                = (w', Normal (acc ++ rs)%list)
             /\ map pagePath rs = items.
Proof.
  induction items as [|p items IH]; intros acc w; cbn [for_of].
  - exists w, []. by rewrite app_nil_r.
  - destruct (compare_page_pushes lib cfg baseDir acc p w) as (w1 & r & H & Hr).
    rewrite (bind_normal _ _ _ _ _ H).
    destruct (IH (acc ++ [r])%list w1) as (w2 & rs & H2 & Hrs).
    exists w2, (r :: rs). rewrite H2, <- app_assoc. cbn. by rewrite Hr, Hrs.
Qed.

(** ** Sorting *)

Section SortFacts.
Context {A : Type} (f : A -> A -> float).

Lemma extend_run_app d : forall l prev run tail,
  extend_run f d prev l = (run, tail) -> l = (run ++ tail)%list.
Proof.
  induction l as [|c l IH]; intros prev run tail; cbn [extend_run].
  - by intros [= <- <-].
  - destruct (if d then _ else _).
    + by intros [= <- <-].
    + destruct (extend_run f d c l) as [r t] eqn:E. intros [= <- <-].
      cbn. f_equal. by eapply IH.
Qed.

Lemma insert_pivot_perm sorted p : insert_pivot f sorted p ≡ₚ p :: sorted.
Proof.
  unfold insert_pivot. rewrite <- Permutation_middle. by rewrite take_drop.
Qed.

Lemma BinaryInsertionSort_perm rest : forall run,
  BinaryInsertionSort f run rest ≡ₚ (run ++ rest)%list.
Proof.
  induction rest as [|p rest IH]; intros run; cbn.
  - by rewrite app_nil_r.
  - unfold BinaryInsertionSort in IH. rewrite IH, insert_pivot_perm.
    by rewrite <- Permutation_middle.
Qed.

Lemma CountAndMakeRun_perm l run tail :
  CountAndMakeRun f l = (run, tail) -> (run ++ tail)%list ≡ₚ l.
Proof.
  destruct l as [|a [|b l]]; cbn [CountAndMakeRun].
  - by intros [= <- <-].
  - by intros [= <- <-].
  - destruct (extend_run f _ b l) as [r t] eqn:E. apply extend_run_app in E as ->.
    intros [= <- <-]. destruct (PrimFloat.ltb _ 0); [|done].
    exact (Permutation_app_tail t (Permutation_sym (Permutation_rev (a :: b :: r)))).
Qed.

Lemma Array_sort_perm l : Array_sort f l ≡ₚ l.
Proof.
  unfold Array_sort. destruct (CountAndMakeRun f l) as [run rest] eqn:E.
  rewrite BinaryInsertionSort_perm. by apply CountAndMakeRun_perm.
Qed.

(** Where the binary search ends: the element before that place, if the
    search moved right at all, was compared and is not after the pivot;
    the element at that place, if the search moved left at all, was
    compared and is after the pivot. *)
Lemma binary_search_spec pivot a : forall fuel left right,
  right - left <= fuel -> left <= right -> right <= length a ->
  let r := binary_search f fuel pivot a left right in
  left <= r <= right
  /\ (r = left \/ exists x, a !! (r - 1) = Some x
                            /\ PrimFloat.ltb (sort_compare f pivot x) 0 = false)
  /\ (r = right \/ exists x, a !! r = Some x
                             /\ PrimFloat.ltb (sort_compare f pivot x) 0 = true).
Proof.
  induction fuel as [|fuel IH]; intros left right Hfuel Hle Hlen; cbn [binary_search].
  - cbn. split; [lia|]. split; [by left | left; lia].
  - destruct (Nat.ltb_spec left right) as [Hlt|Hge].
    2:{ cbn. split; [lia|]. split; [by left | left; lia]. }
    set (mid := left + (right - left) / 2).
    assert (Hmid : left <= mid < right).
    { subst mid. split; [lia|]. pose proof (Nat.div_lt (right - left) 2). lia. }
    destruct (lookup_lt_is_Some_2 a mid ltac:(lia)) as [x Hx]. rewrite Hx.
    destruct (PrimFloat.ltb (sort_compare f pivot x) 0) eqn:Hc.
    + destruct (IH left mid ltac:(lia) ltac:(lia) ltac:(lia)) as (Hr & Hl & Hrt).
      split; [lia|]. split; [exact Hl|].
      destruct Hrt as [->|Hrt]; [right; eauto | by right].
    + destruct (IH (mid + 1) right ltac:(lia) ltac:(lia) ltac:(lia)) as (Hr & Hl & Hrt).
      split; [lia|]. split; [|exact Hrt].
      destruct Hl as [->|Hl]; [|by right].
      right. exists x. replace (mid + 1 - 1) with mid by lia. done.
Qed.

End SortFacts.

Lemma generateHtmlReport_returns results deviceName w :
  Report.generateHtmlReport results deviceName w =
    (set_fs <["visual_comparison_report_" +:+ deviceName +:+ ".html" :=
              HtmlFile (mkSummary
                (length (Array_sort Report.compare_results results))
                (length (filter (fun r => Report.is_passed r = true) results))
                (length (filter (fun r => Report.is_failed r = true) results))
                (length (filter (fun r => Report.is_error r = true) results))
                (map (Report.row w deviceName) (Array_sort Report.compare_results results)))]> w,
     Normal (Array_sort Report.compare_results results)).
Proof. reflexivity. Qed.

Lemma test_returns lib cfg w :
  exists w1 results,
    Report.compare_pages lib cfg "screenshots/Desktop" (emit "Running tests..." w)
      = (w1, Normal results)
    /\ map pagePath results = urls (staging cfg)
    /\ Report.visual_comparison_test lib cfg w
       = Report.generateHtmlReport results "Desktop" w1.
Proof.
  destruct (for_of_compare_page lib cfg "screenshots/Desktop" (urls (staging cfg)) []
              (emit "Running tests..." w)) as (w1 & rs & H & Hrs).
  exists w1, rs. unfold Report.compare_pages. split; [exact H|]. split; [exact Hrs|].
  unfold Report.visual_comparison_test.
  unfold bind at 1. cbn [console_log].
  change ("screenshots/" +:+ "Desktop") with "screenshots/Desktop".
  unfold Report.compare_pages. unfold bind. by rewrite H.
Qed.

(** C1. Whatever the browser and the disk do, the page loop completes
    normally and appends exactly one record per configured page, in the
    configured order, to the records it already holds, which it leaves
    untouched; the whole test completes normally as well, and the sorted
    array and the report have as many entries as there are configured
    pages. *)
Theorem one_result_per_page lib cfg w :
  (forall baseDir acc, exists w' rs,
      for_of (urls (staging cfg)) (Report.compare_page lib cfg baseDir) acc w
        = (w', Normal (acc ++ rs)%list)
      /\ map pagePath rs = urls (staging cfg)
      /\ length rs = length (urls (staging cfg)))
  /\ exists w' sorted summary,
      Report.visual_comparison_test lib cfg w = (w', Normal sorted)
      /\ map pagePath sorted ≡ₚ urls (staging cfg)
      /\ length sorted = length (urls (staging cfg))
      /\ fs w' !! "visual_comparison_report_Desktop.html" = Some (HtmlFile summary)
      /\ total summary = length (urls (staging cfg))
      /\ length (rows summary) = length (urls (staging cfg)).
Proof.
  split.
  - intros baseDir acc.
    destruct (for_of_compare_page lib cfg baseDir (urls (staging cfg)) acc w)
      as (w' & rs & H & Hrs).
    exists w', rs. repeat split; [done..|]. by rewrite <- Hrs, length_map.
  - destruct (test_returns lib cfg w) as (w1 & rs & _ & Hrs & ->).
    rewrite generateHtmlReport_returns. eexists _, _, _. split; [reflexivity|].
    assert (Hlen : length (Array_sort Report.compare_results rs)
                   = length (urls (staging cfg))).
    { by rewrite (Permutation_length (Array_sort_perm _ rs)), <- Hrs, length_map. }
    repeat split.
    + by rewrite (Array_sort_perm _ rs), Hrs.
    + exact Hlen.
    + cbn. apply lookup_insert_eq.
    + exact Hlen.
    + cbn. by rewrite length_map.
Qed.

(** C8, as amended. With an empty page list the test makes no browser
    call, writes a report of zero pages and completes normally with no
    record; and no configuration and no world makes the test end with an
    error. *)
Theorem empty_configuration_completes lib cfg w :
  urls (staging cfg) = [] ->
  Report.visual_comparison_test lib cfg w =
    (set_fs <["visual_comparison_report_Desktop.html" := HtmlFile (mkSummary 0 0 0 0 [])]>
       (emit "Running tests..." w), Normal [])
  /\ forall cfg' w0, exists w' results,
       Report.visual_comparison_test lib cfg' w0 = (w', Normal results).
Proof.
  intros Hempty. split.
  - unfold Report.visual_comparison_test, Report.compare_pages. by rewrite Hempty.
  - intros cfg' w0. destruct (test_returns lib cfg' w0) as (w1 & rs & _ & _ & ->).
    rewrite generateHtmlReport_returns. by eexists _, _.
Qed.

Lemma empty_configuration_completes_witness :
  Report.visual_comparison_test nearest_exact no_pages online =
    (set_fs <["visual_comparison_report_Desktop.html" := HtmlFile (mkSummary 0 0 0 0 [])]>
       (emit "Running tests..." online), Normal [])
  /\ forall cfg' w0, exists w' results,
       Report.visual_comparison_test nearest_exact cfg' w0 = (w', Normal results).
Proof. apply (empty_configuration_completes nearest_exact no_pages online). reflexivity. Defined.

(** With no page configured the test does not fail: it returns the empty
    array. *)
Lemma empty_configuration_no_error :
  ~ throws (Report.visual_comparison_test nearest_exact no_pages) online
  /\ (Report.visual_comparison_test nearest_exact no_pages online).2 = Normal [].
Proof. split; [intros [m Hm]; discriminate Hm | reflexivity]. Qed.

(** ** Screenshot paths *)

Lemma append_assoc (a b c : string) : (a +:+ b) +:+ c = a +:+ (b +:+ c).
Proof. induction a as [|x a IH]; [done | exact (f_equal (String x) IH)]. Qed.

Lemma append_cancel (a b c : string) : a +:+ b = a +:+ c -> b = c.
Proof.
  induction a as [|x a IH]; [done|]. intros H.
  change (String x (a +:+ b) = String x (a +:+ c)) in H. injection H as H. auto.
Qed.

Lemma page_paths_distinct baseDir name :
  path_join (path_join baseDir "staging") name ≠ path_join (path_join baseDir "prod") name
  /\ path_join (path_join baseDir "diff") name ≠ path_join (path_join baseDir "staging") name
  /\ path_join (path_join baseDir "diff") name ≠ path_join (path_join baseDir "prod") name.
Proof.
  unfold path_join. rewrite !append_assoc.
  repeat split; intros H%append_cancel; discriminate H.
Qed.

(** ** Missing screenshots *)

(** C5, as amended. When, after the two captures of a page, the staging or
    the prod screenshot file is missing, the comparison returns "Error" having
    done nothing but write a console line (no normalisation, no differencing),
    the page's record is the "Error" record, and the file at the page's diff
    path is what it was before the page was processed. *)
Theorem missing_screenshot_is_error lib cfg baseDir results p w :
  let stagingPath := path_join (path_join baseDir "staging") (replace_slashes p +:+ ".png") in
  let prodPath := path_join (path_join baseDir "prod") (replace_slashes p +:+ ".png") in
  let diffPath := path_join (path_join baseDir "diff") (replace_slashes p +:+ ".png") in
  let captured :=
    ((Report.captureScreenshot (baseUrl (staging cfg) +:+ p) stagingPath;;
      Report.captureScreenshot (baseUrl (prod cfg) +:+ p) prodPath) w).1 in
  fs captured !! stagingPath = None \/ fs captured !! prodPath = None ->
  Report.compareScreenshots lib stagingPath prodPath diffPath captured =
    (emit ("Missing file(s): " +:+ stagingPath +:+ " or " +:+ prodPath) captured,
     Normal (inr "Error"))
  /\ Report.compare_page lib cfg baseDir results p w =
       (emit ("Missing file(s): " +:+ stagingPath +:+ " or " +:+ prodPath) captured,
        Normal (results ++ [mkResult p (inr "Error") None])%list)
  /\ fs (Report.compare_page lib cfg baseDir results p w).1 !! diffPath = fs w !! diffPath.
Proof.
  intros stagingPath prodPath diffPath captured Hmissing.
  destruct (compare_page_cases lib cfg baseDir results p w) as (w2 & (w1 & H1 & H2) & Hpage).
  fold stagingPath prodPath diffPath in H1, H2, Hpage.
  assert (Hc : captured = w2).
  { unfold captured. by rewrite (bind_normal _ _ _ _ _ H1), H2. }
  rewrite Hc in *. clear Hc.
  pose proof (compareScreenshots_missing lib stagingPath prodPath diffPath w2 Hmissing) as Hcmp.
  rewrite Hpage, Hcmp. repeat split. cbn.
  destruct (page_paths_distinct baseDir (replace_slashes p +:+ ".png")) as (_ & Hds & Hdp).
  fold stagingPath prodPath diffPath in Hds, Hdp.
  destruct (captureScreenshot_outcome (baseUrl (staging cfg) +:+ p) stagingPath w)
    as (w1' & E1 & _ & F1).
  destruct (captureScreenshot_outcome (baseUrl (prod cfg) +:+ p) prodPath w1)
    as (w2' & E2 & _ & F2).
  rewrite H1 in E1. rewrite H2 in E2. simplify_eq.
  assert (G2 : fs w2' !! diffPath = fs w1' !! diffPath).
  { destruct F2 as [(m & _ & ->)|(img & _ & ->)]; [done|]. by rewrite lookup_insert_ne. }
  assert (G1 : fs w1' !! diffPath = fs w !! diffPath).
  { destruct F1 as [(m & _ & ->)|(img & _ & ->)]; [done|]. by rewrite lookup_insert_ne. }
  by rewrite G2, G1.
Qed.

Lemma missing_screenshot_is_error_witness :
  Report.compare_page nearest_exact home_only "screenshots/Desktop" [] "/" offline =
    (emit "Missing file(s): screenshots/Desktop/staging/_.png or screenshots/Desktop/prod/_.png"
       ((Report.captureScreenshot "https://staging.test/" "screenshots/Desktop/staging/_.png";;
         Report.captureScreenshot "https://prod.test/" "screenshots/Desktop/prod/_.png")
          offline).1,
     Normal [mkResult "/" (inr "Error") None]).
Proof.
  apply (missing_screenshot_is_error nearest_exact home_only "screenshots/Desktop" [] "/" offline).
  left. reflexivity.
Defined.

(** A failed capture leaves the disk as it was, earlier artifacts included. *)
Lemma failed_capture_keeps_disk url screenshotPath w m :
  last (console (Report.captureScreenshot url screenshotPath w).1)
    = Some ("Failed to capture screenshot for " +:+ url +:+ ": " +:+ m) ->
  fs (Report.captureScreenshot url screenshotPath w).1 = fs w.
Proof.
  destruct (captureScreenshot_outcome url screenshotPath w) as (w' & -> & _ & F).
  cbn. intros Hlast. destruct F as [(m' & _ & ->)|(img & Hl & _)]; [done|].
  rewrite Hl in Hlast. discriminate Hlast.
Qed.

(** Both captures of the page fail, yet the screenshots left by an earlier
    run are normalised and differenced: the outcome is a similarity and a
    diff image is written. *)
Lemma stale_screenshots_are_compared :
  let captured :=
    ((Report.captureScreenshot "https://staging.test/" "screenshots/Desktop/staging/_.png";;
      Report.captureScreenshot "https://prod.test/" "screenshots/Desktop/prod/_.png") stale).1 in
  let page := Report.compare_page nearest_exact home_only "screenshots/Desktop" [] "/" stale in
  console captured =
    ["Navigating to: https://staging.test/";
     "Failed to capture screenshot for https://staging.test/: net::ERR_CONNECTION_REFUSED";
     "Navigating to: https://prod.test/";
     "Failed to capture screenshot for https://prod.test/: net::ERR_CONNECTION_REFUSED"]
  /\ page.2 =
       Normal [mkResult "/"
                 (inl (similarity (1280 * 800)
                    (pixelmatch nearest_exact (data (normalised nearest_exact (solid 10)))
                       (data (normalised nearest_exact (solid 200))) 1280 800
                       (mkOptions tenth (mkPixel 255 0 0 255) (mkPixel 255 0 0 255))).1))
                 None]
  /\ fs page.1 !! "screenshots/Desktop/staging/_.png"
       = Some (PngFile (normalised nearest_exact (solid 10)))
  /\ fs stale !! "screenshots/Desktop/diff/_.png" = None
  /\ is_Some (fs page.1 !! "screenshots/Desktop/diff/_.png").
Proof.
  intros captured page. split; [reflexivity|].
  unfold page.
  destruct (compare_page_cases nearest_exact home_only "screenshots/Desktop" [] "/" stale)
    as (w2 & (w1 & H1 & H2) & ->).
  rewrite captureScreenshot_navigation_failure
    with (m := "net::ERR_CONNECTION_REFUSED") in H1 by reflexivity.
  injection H1 as <-.
  rewrite captureScreenshot_navigation_failure
    with (m := "net::ERR_CONNECTION_REFUSED") in H2 by reflexivity.
  injection H2 as <-.
  erewrite (compareScreenshots_success nearest_exact _ _ _ _ (solid 10) (solid 200));
    [| done | reflexivity | reflexivity].
  cbn [fst snd app fs set_fs].
  split; [reflexivity|]. split; [|split; [reflexivity|]].
  - rewrite !lookup_insert_ne by done. apply lookup_insert_eq.
  - rewrite lookup_insert_eq. by eexists.
Qed.

(** ** Where an "Error" record comes from *)

Lemma compareScreenshots_error lib baselinePath currentPath diffPath w w' :
  Report.compareScreenshots lib baselinePath currentPath diffPath w
    = (w', Normal (inr "Error")) ->
  fs w !! baselinePath = None \/ fs w !! currentPath = None.
Proof.
  destruct (fs w !! baselinePath) as [f1|] eqn:H1; [|by left].
  destruct (fs w !! currentPath) as [f2|] eqn:H2; [|by right].
  unfold Report.compareScreenshots.
  rewrite (bind_normal _ _ _ _ _ (fs_existsSync_some _ _ _ H1)).
  rewrite (bind_normal _ _ _ _ _ (fs_existsSync_some _ _ _ H2)).
  cbn [negb orb].
  unfold bind, Report.resizeImage, bind, fs_readFileSync, sharp_resize, PNG_sync_read,
    fs_writeFileSync, console_log, ret, throw.
  intros H. exfalso. revert H.
  repeat (case_match; simplify_eq; try discriminate); intros; simplify_eq.
Qed.

(** C9, as amended. [captureScreenshot] never throws: it makes one pass of
    at most nine browser calls and returns normally, having either logged the
    failure (disk unchanged) or written the screenshot. A page's record
    is therefore "Error" only when a screenshot file is missing at the check
    of [compareScreenshots], or when [compareScreenshots] itself throws, in
    which case the record carries the message. *)
Theorem error_outcome_origin lib cfg baseDir results p w w' r :
  Report.compare_page lib cfg baseDir results p w = (w', Normal (results ++ [r])%list) ->
  similarityPercentage r = inr "Error" ->
  let stagingPath := path_join (path_join baseDir "staging") (replace_slashes p +:+ ".png") in
  let prodPath := path_join (path_join baseDir "prod") (replace_slashes p +:+ ".png") in
  let diffPath := path_join (path_join baseDir "diff") (replace_slashes p +:+ ".png") in
  (forall url screenshotPath w0,
     exists w1, Report.captureScreenshot url screenshotPath w0 = (w1, Normal tt)
       /\ clock w1 <= clock w0 + 9
       /\ ((exists m, last (console w1)
                      = Some ("Failed to capture screenshot for " +:+ url +:+ ": " +:+ m)
                   /\ fs w1 = fs w0)
           \/ (exists img, last (console w1) = Some ("Screenshot captured: " +:+ screenshotPath)
                   /\ fs w1 = <[screenshotPath := PngFile img]> (fs w0))))
  /\ exists captured,
       (Report.captureScreenshot (baseUrl (staging cfg) +:+ p) stagingPath;;
        Report.captureScreenshot (baseUrl (prod cfg) +:+ p) prodPath) w = (captured, Normal tt)
       /\ ((fs captured !! stagingPath = None \/ fs captured !! prodPath = None)
           \/ exists m,
                (Report.compareScreenshots lib stagingPath prodPath diffPath captured).2
                  = Throw m
                /\ error r = Some m).
Proof.
  intros Hpage Herr stagingPath prodPath diffPath.
  split; [apply captureScreenshot_outcome|].
  destruct (compare_page_cases lib cfg baseDir results p w) as (w2 & (w1 & H1 & H2) & Hcases).
  fold stagingPath prodPath diffPath in H1, H2, Hcases.
  exists w2. split.
  { by rewrite (bind_normal _ _ _ _ _ H1), H2. }
  rewrite Hpage in Hcases.
  destruct (Report.compareScreenshots lib stagingPath prodPath diffPath w2)
    as [w3 [v|m]] eqn:Hcmp.
  - left. injection Hcases as -> Hr. apply app_inj_tail in Hr as [_ ->].
    cbn in Herr. subst v. by apply (compareScreenshots_error lib _ _ diffPath w2 w3).
  - right. exists m. injection Hcases as -> Hr. apply app_inj_tail in Hr as [_ ->].
    by split.
Qed.

Lemma error_outcome_origin_witness :
  exists captured,
    (Report.captureScreenshot "https://staging.test/" "screenshots/Desktop/staging/_.png";;
     Report.captureScreenshot "https://prod.test/" "screenshots/Desktop/prod/_.png") offline
      = (captured, Normal tt)
    /\ ((fs captured !! "screenshots/Desktop/staging/_.png" = None
         \/ fs captured !! "screenshots/Desktop/prod/_.png" = None)
        \/ exists m,
             (Report.compareScreenshots nearest_exact "screenshots/Desktop/staging/_.png"
                "screenshots/Desktop/prod/_.png" "screenshots/Desktop/diff/_.png" captured).2
               = Throw m
             /\ error (mkResult "/" (inr "Error") None) = Some m).
Proof.
  exact (proj2 (error_outcome_origin nearest_exact home_only "screenshots/Desktop" [] "/"
                  offline _ (mkResult "/" (inr "Error") None) eq_refl eq_refl)).
Defined.

(** Both screenshot files exist, the missing-file check passes, and the
    page is still recorded as "Error": normalisation throws on a file that is
    not an image. *)
Lemma error_from_comparison :
  let stagingPath := "screenshots/Desktop/staging/_.png" in
  let prodPath := "screenshots/Desktop/prod/_.png" in
  let captured :=
    ((Report.captureScreenshot "https://staging.test/" stagingPath;;
      Report.captureScreenshot "https://prod.test/" prodPath) junk).1 in
  fs captured !! stagingPath = Some (RawFile "<html>")
  /\ fs captured !! prodPath = Some (RawFile "<html>")
  /\ (Report.compareScreenshots nearest_exact stagingPath prodPath
        "screenshots/Desktop/diff/_.png" captured).2
       = Throw "Input buffer contains unsupported image format"
  /\ (Report.compare_page nearest_exact home_only "screenshots/Desktop" [] "/" junk).2
       = Normal [mkResult "/" (inr "Error")
                   (Some "Input buffer contains unsupported image format")].
Proof. repeat split; reflexivity. Qed.

(** ** Retrying *)

(** C4, as amended. The retrying capture makes up to three
    navigate-and-screenshot attempts, stops at the first that succeeds, and
    after a third failure throws an error whose message is the fixed text
    "Failed to load <url> after 3 attempts". The current capture makes a
    single attempt and returns normally whether or not it fails; a failed
    navigation costs exactly one browser call. *)
Theorem capture_attempts url path w :
  match Legacy.attempt url path w with
  | (w1, Normal _) => Legacy.captureScreenshot url path w = (w1, Normal (Some tt))
  | (w1, Throw _) =>
    match Legacy.attempt url path (emit (Legacy.retry_line 1 url) w1) with
    | (w2, Normal _) => Legacy.captureScreenshot url path w = (w2, Normal (Some tt))
    | (w2, Throw _) =>
      match Legacy.attempt url path (emit (Legacy.retry_line 2 url) w2) with
      | (w3, Normal _) => Legacy.captureScreenshot url path w = (w3, Normal (Some tt))
      | (w3, Throw _) =>
          Legacy.captureScreenshot url path w =
            (emit (Legacy.failure_line url) (emit (Legacy.retry_line 3 url) w3),
             Throw ("Failed to load " +:+ url +:+ " after 3 attempts"))
      end
    end
  end
  /\ match faults w (clock w) with
     | Some m =>
         Report.captureScreenshot url path w =
           (emit ("Failed to capture screenshot for " +:+ url +:+ ": " +:+ m)
              (tick (emit ("Navigating to: " +:+ url) w)), Normal tt)
     | None => exists w', Report.captureScreenshot url path w = (w', Normal tt)
     end.
Proof.
  split.
  - unfold Legacy.captureScreenshot.
    cbn [Legacy.capture_loop Legacy.maxAttempts Nat.ltb Nat.leb Nat.eqb].
    unfold bind, console_log, throw. cbn beta iota.
    destruct (Legacy.attempt url path w) as [w1 [[]|m1]]; [done|].
    destruct (Legacy.attempt url path (emit _ w1)) as [w2 [[]|m2]]; [done|].
    destruct (Legacy.attempt url path (emit _ w2)) as [w3 [[]|m3]]; [done|].
    reflexivity.
  - destruct (faults w (clock w)) as [m|] eqn:Hm.
    + by apply captureScreenshot_navigation_failure.
    + apply captureScreenshot_returns.
Qed.

(** When every browser call rejects, the current capture returns normally
    after one call, and the retrying capture throws a message that is not the
    last failure's. *)
Lemma capture_without_retry :
  Report.captureScreenshot "https://prod.test/" "prod.png" offline =
    (emit "Failed to capture screenshot for https://prod.test/: net::ERR_CONNECTION_REFUSED"
       (tick (emit "Navigating to: https://prod.test/" offline)), Normal tt)
  /\ clock (Report.captureScreenshot "https://prod.test/" "prod.png" offline).1 = 1
  /\ (Legacy.captureScreenshot "https://prod.test/" "prod.png" offline).2
       = Throw "Failed to load https://prod.test/ after 3 attempts"
  /\ console (Legacy.captureScreenshot "https://prod.test/" "prod.png" offline).1 =
       ["Attempt 1 failed for https://prod.test/. Retrying...";
        "Attempt 2 failed for https://prod.test/. Retrying...";
        "Attempt 3 failed for https://prod.test/. Retrying...";
        "Failed to load https://prod.test/ after 3 attempts"].
Proof. repeat split; reflexivity. Qed.

(** ** Aggregation *)

(** 95 passes, anything below fails, "Error" counts as an error. *)
Example classification_boundary :
  Report.is_passed (similar 95) = true /\ Report.is_failed (similar 95) = false
  /\ Report.is_passed (similar 94.5) = false /\ Report.is_failed (similar 94.5) = true
  /\ Report.is_error capture_error = true.
Proof. repeat split; reflexivity. Qed.

(** *** Order of binary64 numbers *)

Lemma SFcompare_antisym x y c :
  SpecFloat.SFcompare x y = Some c -> SpecFloat.SFcompare y x = Some (CompOpp c).
Proof.
  destruct x as [sx|sx| |sx mx ex], y as [sy|sy| |sy my ey]; cbn;
    try discriminate;
    try (intros [= <-]; reflexivity);
    try (destruct sx; intros [= <-]; reflexivity);
    try (destruct sy; intros [= <-]; reflexivity);
    try (destruct sx, sy; intros [= <-]; reflexivity).
  intros [= <-]. f_equal.
  destruct sx, sy; try reflexivity.
  - rewrite (Z.compare_antisym ex ey).
    destruct (ex ?= ey)%Z; cbn; try reflexivity.
    rewrite (Pos.compare_cont_antisym mx my Eq). reflexivity.
  - rewrite (Z.compare_antisym ex ey).
    destruct (ex ?= ey)%Z; cbn; try reflexivity.
    rewrite (Pos.compare_cont_antisym mx my Eq). reflexivity.
Qed.

Lemma SFcompare_defined x y :
  x <> SpecFloat.S754_nan -> y <> SpecFloat.S754_nan ->
  exists c, SpecFloat.SFcompare x y = Some c.
Proof.
  destruct x as [sx|sx| |sx mx ex], y as [sy|sy| |sy my ey]; cbn; try done; eauto.
Qed.

Lemma not_nan x : PrimFloat.is_nan x = false -> FloatOps.Prim2SF x <> SpecFloat.S754_nan.
Proof.
  unfold PrimFloat.is_nan. rewrite FloatAxioms.eqb_spec. unfold SpecFloat.SFeqb.
  intros H Hn. rewrite Hn in H. done.
Qed.

Lemma leb_ltb_exclusive x y : PrimFloat.leb y x = true -> PrimFloat.ltb x y = true -> False.
Proof.
  rewrite FloatAxioms.leb_spec, FloatAxioms.ltb_spec. unfold SpecFloat.SFleb, SpecFloat.SFltb.
  destruct (SpecFloat.SFcompare (FloatOps.Prim2SF y) (FloatOps.Prim2SF x)) as [c|] eqn:H;
    [|done].
  rewrite (SFcompare_antisym _ _ _ H). by destruct c.
Qed.

Lemma leb_or_ltb x y :
  PrimFloat.is_nan x = false -> PrimFloat.is_nan y = false ->
  PrimFloat.leb y x = true \/ PrimFloat.ltb x y = true.
Proof.
  intros Hx Hy. rewrite FloatAxioms.leb_spec, FloatAxioms.ltb_spec.
  unfold SpecFloat.SFleb, SpecFloat.SFltb.
  destruct (SFcompare_defined (FloatOps.Prim2SF y) (FloatOps.Prim2SF x)) as [c H];
    [by apply not_nan | by apply not_nan |].
  rewrite H, (SFcompare_antisym _ _ _ H). destruct c; auto.
Qed.

Lemma SFcompare_refl x : x <> SpecFloat.S754_nan -> SpecFloat.SFcompare x x = Some Eq.
Proof.
  destruct x as [s|s| |s m e]; cbn; try done.
  - by destruct s.
  - intros _. f_equal. destruct s; rewrite Z.compare_refl, Pos.compare_cont_refl; done.
Qed.

Lemma is_nan_spec x : PrimFloat.is_nan x = true -> FloatOps.Prim2SF x = SpecFloat.S754_nan.
Proof.
  unfold PrimFloat.is_nan. rewrite FloatAxioms.eqb_spec. unfold SpecFloat.SFeqb.
  intros H. destruct (FloatOps.Prim2SF x) as [s|s| |s m e] eqn:E; [..|done| ];
    rewrite SFcompare_refl in H; done.
Qed.

Lemma ltb_nan_l x y : PrimFloat.is_nan x = true -> PrimFloat.ltb x y = false.
Proof.
  intros H. rewrite FloatAxioms.ltb_spec, (is_nan_spec _ H). done.
Qed.

Lemma ltb_leb x y : PrimFloat.ltb x y = true -> PrimFloat.leb x y = true.
Proof.
  rewrite FloatAxioms.leb_spec, FloatAxioms.ltb_spec. unfold SpecFloat.SFleb, SpecFloat.SFltb.
  by destruct (SpecFloat.SFcompare _ _) as [[]|].
Qed.

(** The order the sort reads from the comparator's answer. *)
Lemma sort_order_negative v : PrimFloat.ltb (sort_order v) 0 = PrimFloat.ltb v 0.
Proof.
  unfold sort_order. destruct (PrimFloat.is_nan v) eqn:E; [|done].
  rewrite (ltb_nan_l v 0 E). reflexivity.
Qed.

Lemma sort_order_not_nan v : PrimFloat.is_nan (sort_order v) = false.
Proof. unfold sort_order. by destruct (PrimFloat.is_nan v) eqn:E. Qed.

Lemma sort_order_sign v :
  PrimFloat.leb 0 (sort_order v) = negb (PrimFloat.ltb (sort_order v) 0).
Proof.
  destruct (PrimFloat.ltb (sort_order v) 0) eqn:Hlt; cbn.
  - destruct (PrimFloat.leb 0 (sort_order v)) eqn:Hle; [|done].
    destruct (leb_ltb_exclusive _ _ Hle Hlt).
  - destruct (leb_or_ltb (sort_order v) 0 (sort_order_not_nan v) eq_refl); congruence.
Qed.

(** The operators of the reference semantics, as the arithmetic tactics
    know them. *)
Ltac zdef :=
  repeat match goal with
  | |- context [IntDef.Z.max] => change IntDef.Z.max with Z.max
  | |- context [IntDef.Z.min] => change IntDef.Z.min with Z.min
  | |- context [IntDef.Z.sub] => change IntDef.Z.sub with Z.sub
  | |- context [IntDef.Z.add] => change IntDef.Z.add with Z.add
  | |- context [IntDef.Z.opp] => change IntDef.Z.opp with Z.opp
  | |- context [IntDef.Z.mul] => change IntDef.Z.mul with Z.mul
  | |- context [IntDef.Z.leb] => change IntDef.Z.leb with Z.leb
  | |- context [IntDef.Z.eqb] => change IntDef.Z.eqb with Z.eqb
  | |- context [IntDef.Z.compare] => change IntDef.Z.compare with Z.compare
  | |- context [IntDef.Z.even] => change IntDef.Z.even with Z.even
  | |- context [PosDef.Pos.iter] => change @PosDef.Pos.iter with @Pos.iter
  | |- context [PosDef.Pos.compare_cont] => change PosDef.Pos.compare_cont with Pos.compare_cont
  | |- context [PosDef.Pos.succ] => change PosDef.Pos.succ with Pos.succ
  end.

(** **** The sign of a difference

    Rounding a non-zero integer multiple of a power of two, at an exponent
    that is not below the smallest one, never gives zero and keeps the
    sign; valid numbers compare as their mantissas do at a common
    exponent. Hence [x - y < 0] exactly when [x < y]. *)

Section Rounding.
Variables prec emax : Z.
Hypothesis Hprec : (0 < prec)%Z.


Lemma digits2_bounds m :
  (2 ^ (Z.pos (SpecFloat.digits2_pos m) - 1) <= Z.pos m < 2 ^ Z.pos (SpecFloat.digits2_pos m))%Z.
Proof.
  induction m as [m IH|m IH|]; cbn [SpecFloat.digits2_pos]; zdef.
  - rewrite Pos2Z.inj_succ. replace (Z.succ (Z.pos (SpecFloat.digits2_pos m)) - 1)%Z
      with (Z.succ (Z.pos (SpecFloat.digits2_pos m) - 1))%Z by lia.
    rewrite !Z.pow_succ_r by lia. lia.
  - rewrite Pos2Z.inj_succ. replace (Z.succ (Z.pos (SpecFloat.digits2_pos m)) - 1)%Z
      with (Z.succ (Z.pos (SpecFloat.digits2_pos m) - 1))%Z by lia.
    rewrite !Z.pow_succ_r by lia. lia.
  - cbn. lia.
Qed.

Lemma fexp_ge_emin k : ((SpecFloat.emin prec emax) <= SpecFloat.fexp prec emax k)%Z.
Proof. unfold SpecFloat.fexp. zdef. lia. Qed.

Lemma shr_1_m mrs :
  (0 <= SpecFloat.shr_m mrs)%Z ->
  SpecFloat.shr_m (SpecFloat.shr_1 mrs) = (SpecFloat.shr_m mrs / 2)%Z.
Proof.
  destruct mrs as [m r s]. cbn [SpecFloat.shr_m SpecFloat.shr_1].
  destruct m as [|[p|p|]|p]; cbn [SpecFloat.shr_m]; intros H.
  - reflexivity.
  - rewrite Pos2Z.inj_xI. apply (Z.div_unique _ _ _ 1); lia.
  - rewrite Pos2Z.inj_xO. apply (Z.div_unique _ _ _ 0); lia.
  - reflexivity.
  - lia.
Qed.

Lemma shr_iter p : forall mrs,
  (0 <= SpecFloat.shr_m mrs)%Z ->
  SpecFloat.shr_m (SpecFloat.iter_pos SpecFloat.shr_1 p mrs)
  = (SpecFloat.shr_m mrs / 2 ^ Z.pos p)%Z.
Proof.
  induction p as [p IH|p IH|]; intros mrs H; cbn [SpecFloat.iter_pos].
  - assert (Hp : (0 < 2 ^ Z.pos p)%Z) by (apply Z.pow_pos_nonneg; lia).
    assert (H1 : (0 <= SpecFloat.shr_m (SpecFloat.shr_1 mrs))%Z).
    { rewrite shr_1_m by done. apply Z.div_pos; lia. }
    assert (H2 : (0 <= SpecFloat.shr_m
                        (SpecFloat.iter_pos SpecFloat.shr_1 p (SpecFloat.shr_1 mrs)))%Z).
    { rewrite IH by done. apply Z.div_pos; lia. }
    rewrite IH, IH, shr_1_m by done.
    rewrite !Z.div_div by lia. f_equal.
    rewrite (Pos2Z.inj_xI p).
    replace (2 * Z.pos p + 1)%Z with (Z.pos p + Z.pos p + 1)%Z by lia.
    rewrite !Z.pow_add_r by lia. ring.
  - assert (Hp : (0 < 2 ^ Z.pos p)%Z) by (apply Z.pow_pos_nonneg; lia).
    assert (H2 : (0 <= SpecFloat.shr_m (SpecFloat.iter_pos SpecFloat.shr_1 p mrs))%Z).
    { rewrite IH by done. apply Z.div_pos; lia. }
    rewrite IH, IH by done.
    rewrite !Z.div_div by lia. f_equal.
    rewrite (Pos2Z.inj_xO p).
    replace (2 * Z.pos p)%Z with (Z.pos p + Z.pos p)%Z by lia.
    rewrite !Z.pow_add_r by lia. ring.
  - by apply shr_1_m.
Qed.

Lemma shr_fexp_positive m e l :
  ((SpecFloat.emin prec emax) <= e)%Z ->
  (0 < SpecFloat.shr_m (SpecFloat.shr_fexp prec emax (Z.pos m) e l).1)%Z
  /\ ((SpecFloat.emin prec emax) <= (SpecFloat.shr_fexp prec emax (Z.pos m) e l).2)%Z.
Proof.
  intros He. unfold SpecFloat.shr_fexp, SpecFloat.shr. cbn [SpecFloat.Zdigits2]. zdef.
  assert (Hm : SpecFloat.shr_m (SpecFloat.shr_record_of_loc (Z.pos m) l) = Z.pos m).
  { by destruct l as [|[]]. }
  pose proof (digits2_bounds m) as [Hlo _].
  destruct (SpecFloat.fexp prec emax (Z.pos (SpecFloat.digits2_pos m) + e) - e)%Z as [|n|n] eqn:Hn;
    cbn [fst snd]; rewrite ?Hm; [lia | | lia].
  rewrite shr_iter, Hm by (rewrite Hm; lia). zdef.
  unfold SpecFloat.fexp in Hn. revert Hn. zdef. intros Hn.
  split; [|lia].
  apply Z.div_str_pos. split; [lia|].
  etransitivity; [|exact Hlo]. apply Z.pow_le_mono_r; lia.
Qed.

Lemma round_nearest_even_positive m l :
  (0 < m)%Z -> (0 < SpecFloat.round_nearest_even m l)%Z.
Proof.
  intros Hm. unfold SpecFloat.round_nearest_even. zdef.
  destruct l as [|[]]; try lia. destruct (Z.even m); lia.
Qed.

Lemma binary_round_aux_sign sx m e l :
  ((SpecFloat.emin prec emax) <= e)%Z ->
  (exists m' e', SpecFloat.binary_round_aux prec emax sx (Z.pos m) e l
                 = SpecFloat.S754_finite sx m' e')
  \/ SpecFloat.binary_round_aux prec emax sx (Z.pos m) e l = SpecFloat.S754_infinity sx.
Proof.
  intros He. unfold SpecFloat.binary_round_aux.
  pose proof (shr_fexp_positive m e l He) as [H1 H1e].
  destruct (SpecFloat.shr_fexp prec emax (Z.pos m) e l) as [mrs' e'].
  cbn [fst snd] in H1, H1e.
  pose proof (round_nearest_even_positive _ (SpecFloat.loc_of_shr_record mrs') H1) as H2.
  destruct (SpecFloat.round_nearest_even _ _) as [|m2|m2]; [lia | | lia].
  pose proof (shr_fexp_positive m2 e' SpecFloat.loc_Exact H1e) as [H3 _].
  destruct (SpecFloat.shr_fexp prec emax (Z.pos m2) e' SpecFloat.loc_Exact) as [mrs'' e''].
  cbn [fst] in H3.
  destruct (SpecFloat.shr_m mrs'') as [|m3|m3]; [lia | | lia].
  destruct (IntDef.Z.leb _ _); [left; eauto | by right].
Qed.

Lemma binary_round_sign sx m e :
  ((SpecFloat.emin prec emax) <= e)%Z ->
  (exists m' e', SpecFloat.binary_round prec emax sx m e = SpecFloat.S754_finite sx m' e')
  \/ SpecFloat.binary_round prec emax sx m e = SpecFloat.S754_infinity sx.
Proof.
  intros He. unfold SpecFloat.binary_round, SpecFloat.shl_align.
  destruct (IntDef.Z.sub _ _) as [|d|d].
  - by apply binary_round_aux_sign.
  - by apply binary_round_aux_sign.
  - apply binary_round_aux_sign. apply fexp_ge_emin.
Qed.


Lemma iter_xO_value m d : Z.pos (Pos.iter xO m d) = (Z.pos m * 2 ^ Z.pos d)%Z.
Proof.
  induction d as [|d IH] using Pos.peano_ind.
  - cbn [Pos.iter]. rewrite (Pos2Z.inj_xO m). change (2 ^ 1)%Z with 2%Z. lia.
  - rewrite Pos.iter_succ, (Pos2Z.inj_xO (Pos.iter xO m d)), IH, Pos2Z.inj_succ.
    rewrite Z.pow_succ_r by lia. ring.
Qed.

Lemma shl_align_value m e ez :
  (ez <= e)%Z ->
  Z.pos (SpecFloat.shl_align m e ez).1 = (Z.pos m * 2 ^ (e - ez))%Z.
Proof.
  intros Hle. unfold SpecFloat.shl_align. zdef.
  destruct (ez - e)%Z as [|d|d] eqn:Hd; cbn [fst].
  - replace (e - ez)%Z with 0%Z by lia. lia.
  - lia.
  - rewrite iter_xO_value. f_equal. f_equal. lia.
Qed.

(** What validity says of a mantissa and its exponent. *)
Lemma bounded_spec m e :
  SpecFloat.bounded prec emax m e = true ->
  (SpecFloat.emin prec emax <= e)%Z
  /\ (Z.pos m < 2 ^ prec)%Z
  /\ ((SpecFloat.emin prec emax < e)%Z -> (2 ^ (prec - 1) <= Z.pos m)%Z).
Proof.
  unfold SpecFloat.bounded, SpecFloat.canonical_mantissa, SpecFloat.fexp. zdef.
  intros H. apply andb_prop in H as [H _]. apply Z.eqb_eq in H.
  pose proof (digits2_bounds m) as [Hlo Hhi].
  split; [lia|]. split.
  - eapply Z.lt_le_trans; [exact Hhi|]. apply Z.pow_le_mono_r; lia.
  - intros He. replace (prec - 1)%Z with (Z.pos (SpecFloat.digits2_pos m) - 1)%Z by lia.
    exact Hlo.
Qed.

(** Two valid finite numbers of one sign compare as their mantissas do
    once brought to the smaller exponent. *)
Lemma compare_aligned mx ex my ey :
  SpecFloat.bounded prec emax mx ex = true ->
  SpecFloat.bounded prec emax my ey = true ->
  match Z.compare ex ey with
  | Lt => Lt
  | Gt => Gt
  | Eq => Pos.compare_cont Eq mx my
  end
  = Z.compare (Z.pos mx * 2 ^ (ex - Z.min ex ey)) (Z.pos my * 2 ^ (ey - Z.min ex ey)).
Proof.
  intros Hx Hy.
  apply bounded_spec in Hx as (Hxe & Hxhi & Hxlo), Hy as (Hye & Hyhi & Hylo).
  assert (Hpow : (2 ^ prec = 2 * 2 ^ (prec - 1))%Z).
  { rewrite <- Z.pow_succ_r by lia. f_equal. lia. }
  destruct (Z.compare_spec ex ey) as [->|Hlt|Hgt].
  - rewrite Z.min_id, Z.sub_diag, !Z.mul_1_r. symmetry. apply Pos2Z.inj_compare.
  - rewrite Z.min_l by lia. rewrite Z.sub_diag, Z.mul_1_r. symmetry. apply Z.compare_lt_iff.
    assert (2 <= 2 ^ (ey - ex))%Z.
    { change 2%Z with (2 ^ 1)%Z at 1. apply Z.pow_le_mono_r; lia. }
    specialize (Hylo ltac:(lia)). nia.
  - rewrite Z.min_r by lia. rewrite Z.sub_diag, Z.mul_1_r. symmetry. apply Z.compare_gt_iff.
    assert (2 <= 2 ^ (ex - ey))%Z.
    { change 2%Z with (2 ^ 1)%Z at 1. apply Z.pow_le_mono_r; lia. }
    specialize (Hxlo ltac:(lia)). nia.
Qed.

Lemma SFcompare_aligned sx mx ex sy my ey :
  SpecFloat.bounded prec emax mx ex = true ->
  SpecFloat.bounded prec emax my ey = true ->
  SpecFloat.SFcompare (SpecFloat.S754_finite sx mx ex) (SpecFloat.S754_finite sy my ey)
  = Some (Z.compare
            (SpecFloat.cond_Zopp sx (Z.pos (SpecFloat.shl_align mx ex (Z.min ex ey)).1))
            (SpecFloat.cond_Zopp sy (Z.pos (SpecFloat.shl_align my ey (Z.min ex ey)).1))).
Proof.
  intros Hx Hy. cbn [SpecFloat.SFcompare]. zdef. f_equal.
  rewrite !shl_align_value by lia.
  pose proof (compare_aligned mx ex my ey Hx Hy) as Hc.
  assert (0 < Z.pos mx * 2 ^ (ex - Z.min ex ey))%Z.
  { apply Z.mul_pos_pos; [lia | apply Z.pow_pos_nonneg; lia]. }
  assert (0 < Z.pos my * 2 ^ (ey - Z.min ex ey))%Z.
  { apply Z.mul_pos_pos; [lia | apply Z.pow_pos_nonneg; lia]. }
  destruct sx, sy; cbn [SpecFloat.cond_Zopp]; zdef.
  - rewrite (Z.compare_opp (Z.pos mx * _) (Z.pos my * _)).
    rewrite (Z.compare_antisym (Z.pos mx * _) (Z.pos my * _)), <- Hc.
    destruct (Z.compare ex ey); try reflexivity.
  - symmetry. apply Z.compare_lt_iff. lia.
  - symmetry. apply Z.compare_gt_iff. lia.
  - exact Hc.
Qed.

(** The difference of two numbers is negative exactly when the first is
    the smaller one. *)
Lemma SFsub_negative x y :
  SpecFloat.valid_binary prec emax x = true ->
  SpecFloat.valid_binary prec emax y = true ->
  x <> SpecFloat.S754_nan -> y <> SpecFloat.S754_nan ->
  SpecFloat.SFltb (SpecFloat.SFsub prec emax x y) (SpecFloat.S754_zero false)
  = SpecFloat.SFltb x y.
Proof.
  intros Vx Vy Nx Ny. unfold SpecFloat.SFltb.
  destruct x as [sx|sx| |sx mx ex], y as [sy|sy| |sy my ey]; try done;
    cbn [SpecFloat.SFsub];
    try (destruct sx, sy; reflexivity);
    try (destruct sx; reflexivity);
    try (destruct sy; reflexivity).
  cbn [SpecFloat.valid_binary] in Vx, Vy.
  rewrite (SFcompare_aligned sx mx ex sy my ey Vx Vy). zdef.
  set (X := SpecFloat.cond_Zopp sx _). set (Y := SpecFloat.cond_Zopp sy _).
  assert (Hez : (SpecFloat.emin prec emax <= Z.min ex ey)%Z).
  { apply bounded_spec in Vx as (? & _), Vy as (? & _). lia. }
  unfold SpecFloat.binary_normalize.
  destruct (Z.compare_spec X Y) as [Heq|Hlt|Hgt].
  - replace (X - Y)%Z with 0%Z by lia. reflexivity.
  - destruct (X - Y)%Z as [|d|d] eqn:Hd; [lia | lia |].
    destruct (binary_round_sign true d _ Hez) as [(m' & e' & ->)| ->]; reflexivity.
  - destruct (X - Y)%Z as [|d|d] eqn:Hd; [lia | | lia].
    destruct (binary_round_sign false d _ Hez) as [(m' & e' & ->)| ->]; reflexivity.
Qed.

End Rounding.

Lemma sub_negative x y :
  PrimFloat.is_nan x = false -> PrimFloat.is_nan y = false ->
  PrimFloat.ltb (PrimFloat.sub x y) 0 = PrimFloat.ltb x y.
Proof.
  intros Hx Hy.
  rewrite !FloatAxioms.ltb_spec, FloatAxioms.sub_spec.
  change (FloatOps.Prim2SF 0) with (SpecFloat.S754_zero false).
  apply SFsub_negative.
  - done.
  - apply FloatAxioms.Prim2SF_valid.
  - apply FloatAxioms.Prim2SF_valid.
  - unfold PrimFloat.is_nan in Hx. rewrite FloatAxioms.eqb_spec in Hx.
    intros Hn. rewrite Hn in Hx. done.
  - unfold PrimFloat.is_nan in Hy. rewrite FloatAxioms.eqb_spec in Hy.
    intros Hn. rewrite Hn in Hy. done.
Qed.

(** *** The three totals *)

Lemma at_most_one_total (r : Result) :
  (if Report.is_passed r then 1 else 0) + (if Report.is_failed r then 1 else 0)
  + (if Report.is_error r then 1 else 0) <= 1.
Proof.
  unfold Report.is_passed, Report.is_failed, Report.is_error.
  destruct (similarityPercentage r) as [x|s].
  - destruct (PrimFloat.leb 95 x) eqn:Hp, (PrimFloat.ltb x 95) eqn:Hf; try lia.
    destruct (leb_ltb_exclusive _ _ Hp Hf).
  - destruct (bool_decide _); lia.
Qed.

Lemma exactly_one_total (r : Result) :
  classified r ->
  (if Report.is_passed r then 1 else 0) + (if Report.is_failed r then 1 else 0)
  + (if Report.is_error r then 1 else 0) = 1.
Proof.
  intros Hr. unfold Report.is_passed, Report.is_failed, Report.is_error.
  destruct Hr as [->|(x & -> & Hx)]; [reflexivity|].
  destruct (PrimFloat.leb 95 x) eqn:Hp, (PrimFloat.ltb x 95) eqn:Hf; try reflexivity.
  - destruct (leb_ltb_exclusive _ _ Hp Hf).
  - destruct (leb_or_ltb x 95 Hx eq_refl); congruence.
Qed.

Ltac count_head :=
  repeat first [ rewrite decide_True by done | rewrite decide_False by done ];
  cbn [length] in *; lia.

Lemma totals_bound (results : list Result) :
  length (filter (fun r => Report.is_passed r = true) results)
  + length (filter (fun r => Report.is_failed r = true) results)
  + length (filter (fun r => Report.is_error r = true) results) <= length results.
Proof.
  induction results as [|r l IH]; [done|]. rewrite !filter_cons.
  pose proof (at_most_one_total r) as Hr.
  destruct (Report.is_passed r), (Report.is_failed r), (Report.is_error r); count_head.
Qed.

Lemma totals_cover (results : list Result) :
  Forall classified results ->
  length (filter (fun r => Report.is_passed r = true) results)
  + length (filter (fun r => Report.is_failed r = true) results)
  + length (filter (fun r => Report.is_error r = true) results) = length results.
Proof.
  induction 1 as [|r l Hr _ IH]; [done|]. rewrite !filter_cons.
  apply exactly_one_total in Hr.
  destruct (Report.is_passed r), (Report.is_failed r), (Report.is_error r); count_head.
Qed.

(** *** The records the page loop produces *)

(** What [compareScreenshots] can return: the two files are resized to
    1280 by 800 before their dimensions are compared, so the comparison
    either throws, or returns "Error" (a file is missing), or returns the
    similarity of a count of at most 1280 * 800 mismatched pixels. *)
Lemma compareScreenshots_value lib baselinePath currentPath diffPath w :
  baselinePath ≠ currentPath ->
  exists w',
    (exists m, Report.compareScreenshots lib baselinePath currentPath diffPath w
               = (w', Throw m))
    \/ Report.compareScreenshots lib baselinePath currentPath diffPath w
       = (w', Normal (inr "Error"))
    \/ exists mismatchedPixels,
         (mismatchedPixels <= 1280 * 800)%N
         /\ Report.compareScreenshots lib baselinePath currentPath diffPath w
            = (w', Normal (inl (similarity (1280 * 800) mismatchedPixels))).
Proof.
  intros Hne.
  destruct (fs w !! baselinePath) as [f1|] eqn:H1.
  2:{ eexists. right. left. apply compareScreenshots_missing. by left. }
  destruct (fs w !! currentPath) as [f2|] eqn:H2.
  2:{ eexists. right. left. apply compareScreenshots_missing. by right. }
  destruct f1 as [img1|c1|r1].
  - destruct f2 as [img2|c2|r2].
    + eexists. right. right. eexists. split; [|by apply compareScreenshots_success].
      apply pixelmatch_bound.
    + eexists. left. unfold Report.compareScreenshots.
      rewrite (bind_normal _ _ _ _ _ (fs_existsSync_some _ _ _ H1)).
      rewrite (bind_normal _ _ _ _ _ (fs_existsSync_some _ _ _ H2)).
      cbn [negb orb].
      rewrite (bind_normal _ _ _ _ _
                 (resizeImage_png lib _ 1280 800 _ _ ltac:(done) ltac:(done) H1)).
      unfold Report.resizeImage, bind at 1 2, fs_readFileSync.
      cbn [fs set_fs]. rewrite lookup_insert_ne, H2 by done. by eexists.
    + eexists. left. unfold Report.compareScreenshots.
      rewrite (bind_normal _ _ _ _ _ (fs_existsSync_some _ _ _ H1)).
      rewrite (bind_normal _ _ _ _ _ (fs_existsSync_some _ _ _ H2)).
      cbn [negb orb].
      rewrite (bind_normal _ _ _ _ _
                 (resizeImage_png lib _ 1280 800 _ _ ltac:(done) ltac:(done) H1)).
      unfold Report.resizeImage, bind at 1 2, fs_readFileSync.
      cbn [fs set_fs]. rewrite lookup_insert_ne, H2 by done. by eexists.
  - eexists. left. unfold Report.compareScreenshots.
    rewrite (bind_normal _ _ _ _ _ (fs_existsSync_some _ _ _ H1)).
    rewrite (bind_normal _ _ _ _ _ (fs_existsSync_some _ _ _ H2)).
    cbn [negb orb]. unfold Report.resizeImage, bind at 1 2, fs_readFileSync.
    rewrite H1. by eexists.
  - eexists. left. unfold Report.compareScreenshots.
    rewrite (bind_normal _ _ _ _ _ (fs_existsSync_some _ _ _ H1)).
    rewrite (bind_normal _ _ _ _ _ (fs_existsSync_some _ _ _ H2)).
    cbn [negb orb]. unfold Report.resizeImage, bind at 1 2, fs_readFileSync.
    rewrite H1. by eexists.
Qed.

(** The record of a page is "Error" or a number: never "Size mismatch". *)
Lemma compare_page_classified lib cfg baseDir results p w :
  exists w' r, Report.compare_page lib cfg baseDir results p w
               = (w', Normal (results ++ [r])%list)
            /\ pagePath r = p /\ classified r.
Proof.
  destruct (compare_page_cases lib cfg baseDir results p w) as (w2 & _ & ->).
  destruct (page_paths_distinct baseDir (replace_slashes p +:+ ".png")) as (Hsp & _ & _).
  destruct (compareScreenshots_value lib _ _
              (path_join (path_join baseDir "diff") (replace_slashes p +:+ ".png")) w2 Hsp)
    as (w3 & [[m ->]|[->|(mismatchedPixels & Hm & ->)]]).
  - eexists _, _. split; [reflexivity|]. split; [done | by left].
  - eexists _, _. split; [reflexivity|]. split; [done | by left].
  - eexists _, _. split; [reflexivity|]. split; [done|]. right.
    eexists. split; [reflexivity|]. by apply similarity_facts.
Qed.

Lemma for_of_compare_page_classified lib cfg baseDir items : forall acc w,
  exists w' rs, for_of items (Report.compare_page lib cfg baseDir) acc w
                = (w', Normal (acc ++ rs)%list)
             /\ map pagePath rs = items /\ Forall classified rs.
Proof.
  induction items as [|p items IH]; intros acc w; cbn [for_of].
  - exists w, []. by rewrite app_nil_r.
  - destruct (compare_page_classified lib cfg baseDir acc p w) as (w1 & r & H & Hr & Hc).
    rewrite (bind_normal _ _ _ _ _ H).
    destruct (IH (acc ++ [r])%list w1) as (w2 & rs & H2 & Hrs & Hcs).
    exists w2, (r :: rs). rewrite H2, <- app_assoc. cbn.
    split; [done|]. split; [by rewrite Hr, Hrs | by constructor].
Qed.

Lemma test_records_classified lib cfg w :
  exists w1 results,
    Report.compare_pages lib cfg "screenshots/Desktop" (emit "Running tests..." w)
      = (w1, Normal results)
    /\ map pagePath results = urls (staging cfg)
    /\ Forall classified results
    /\ Report.visual_comparison_test lib cfg w
       = Report.generateHtmlReport results "Desktop" w1.
Proof.
  destruct (for_of_compare_page_classified lib cfg "screenshots/Desktop"
              (urls (staging cfg)) [] (emit "Running tests..." w)) as (w1 & rs & H & Hrs & Hc).
  exists w1, rs. unfold Report.compare_pages. split; [exact H|]. split; [exact Hrs|].
  split; [exact Hc|].
  unfold Report.visual_comparison_test.
  unfold bind at 1. cbn [console_log].
  change ("screenshots/" +:+ "Desktop") with "screenshots/Desktop".
  unfold Report.compare_pages. unfold bind. by rewrite H.
Qed.

(** The count filter looks for the literal "Error" only: a record
    "Size mismatch", which the page loop never produces, would be in none
    of the three totals if [generateHtmlReport] were handed one. *)
Lemma size_mismatch_in_no_total w :
  exists r,
    fs (Report.generateHtmlReport [size_mismatch] "Desktop" w).1
      !! "visual_comparison_report_Desktop.html"
    = Some (HtmlFile (mkSummary 1 0 0 0 [r]))
    /\ statusClass r = "status-error" /\ statusText r = "Error".
Proof.
  rewrite generateHtmlReport_returns. eexists. split.
  - cbn [fs set_fs fst]. rewrite lookup_insert_eq. reflexivity.
  - split; reflexivity.
Qed.

(** C2. Every record of a run of the test is counted in exactly one of the
    three totals of the report. Each record holds "Error" (the only outcome
    other than a similarity that the comparison produces: both files are
    resized to 1280 by 800 before their dimensions are compared) or a
    number that is at least 95 or below 95; a number of at least 95 is
    counted as passed, with 95 itself passing, a number below 95 as failed,
    and "Error" as an error; the three totals add up to the number of
    records, which is the number of configured pages. *)
Theorem every_record_in_one_total lib cfg w :
  exists w' sorted summary,
    Report.visual_comparison_test lib cfg w = (w', Normal sorted)
    /\ fs w' !! "visual_comparison_report_Desktop.html" = Some (HtmlFile summary)
    /\ Forall (fun r => similarityPercentage r = inr "Error"
                 \/ exists x, similarityPercentage r = inl x
                      /\ (PrimFloat.leb 95 x = true \/ PrimFloat.ltb x 95 = true)) sorted
    /\ Forall (fun r => (if Report.is_passed r then 1 else 0)
                       + (if Report.is_failed r then 1 else 0)
                       + (if Report.is_error r then 1 else 0) = 1) sorted
    /\ passed summary = length (filter (fun r => Report.is_passed r = true) sorted)
    /\ failed summary = length (filter (fun r => Report.is_failed r = true) sorted)
    /\ errors summary = length (filter (fun r => Report.is_error r = true) sorted)
    /\ passed summary + failed summary + errors summary = total summary
    /\ total summary = length sorted
    /\ total summary = length (urls (staging cfg))
    /\ (forall r, Report.is_passed r = true
                 <-> exists x, similarityPercentage r = inl x /\ PrimFloat.leb 95 x = true)
    /\ (forall r, Report.is_failed r = true
                 <-> exists x, similarityPercentage r = inl x /\ PrimFloat.ltb x 95 = true)
    /\ (forall r, Report.is_error r = true <-> similarityPercentage r = inr "Error")
    /\ Report.is_passed (similar 95) = true /\ Report.is_failed (similar 95) = false
    /\ (forall x, PrimFloat.ltb x 95 = true ->
          Report.is_failed (similar x) = true /\ Report.is_passed (similar x) = false).
Proof.
  destruct (test_records_classified lib cfg w) as (w1 & rs & _ & Hrs & Hc & ->).
  rewrite generateHtmlReport_returns.
  pose proof (Array_sort_perm Report.compare_results rs) as Hperm.
  assert (Hsorted : Forall classified (Array_sort Report.compare_results rs)).
  { by rewrite Hperm. }
  eexists _, _, _. split; [reflexivity|].
  split; [cbn [fs set_fs]; apply lookup_insert_eq|].
  cbn [total passed failed errors].
  split.
  { eapply Forall_impl; [exact Hsorted|]. intros r [Hr|(x & Hx & Hnan)]; [by left|].
    right. exists x. split; [done|]. apply (leb_or_ltb x 95 Hnan eq_refl). }
  split; [eapply Forall_impl; [exact Hsorted | apply exactly_one_total]|].
  split; [by rewrite Hperm|]. split; [by rewrite Hperm|]. split; [by rewrite Hperm|].
  split; [rewrite (Permutation_length Hperm); by apply totals_cover|].
  split; [done|].
  split; [by rewrite (Permutation_length Hperm), <- Hrs, length_map|].
  split.
  { intros r. unfold Report.is_passed. destruct (similarityPercentage r) as [x|s].
    - split; [by exists x | by intros (? & [= <-] & ?)].
    - split; [done | by intros (? & [=] & _)]. }
  split.
  { intros r. unfold Report.is_failed. destruct (similarityPercentage r) as [x|s].
    - split; [by exists x | by intros (? & [= <-] & ?)].
    - split; [done | by intros (? & [=] & _)]. }
  split.
  { intros r. unfold Report.is_error. destruct (similarityPercentage r) as [x|s].
    - split; [done | by intros [=]].
    - rewrite bool_decide_eq_true. split; [by intros -> | by intros [= ->]]. }
  split; [reflexivity|]. split; [reflexivity|].
  intros x Hx. unfold Report.is_failed, Report.is_passed. cbn. split; [exact Hx|].
  destruct (PrimFloat.leb 95 x) eqn:Hle; [|done].
  destruct (leb_ltb_exclusive _ _ Hle Hx).
Qed.

(** *** Order of the sorted array *)

Section Linked.
Context {A : Type} (R : A -> A -> Prop).

Lemma linked_cons a l :
  linked R (a :: l) <-> (forall b, head l = Some b -> R a b) /\ linked R l.
Proof.
  destruct l as [|b l]; cbn.
  - split; [|done]. intros _. split; [intros b [=] | done].
  - split; [intros [H1 H2]; split; [by intros ? [= <-] | done] | intros [H1 H2]; auto].
Qed.

Lemma linked_tail a l : linked R (a :: l) -> linked R l.
Proof. intros H. by apply linked_cons in H as [_ H]. Qed.


Lemma linked_snoc l a :
  linked R l -> (forall b, last l = Some b -> R b a) -> linked R (l ++ [a]).
Proof.
  induction l as [|c l IH]; [done|]. intros Hl Hlast.
  apply linked_cons in Hl as [Hh Ht]. cbn [app]. apply linked_cons. split.
  - destruct l as [|d l]; cbn.
    + intros b [= <-]. by apply Hlast.
    + intros b [= <-]. by apply Hh.
  - apply IH; [done|]. intros b Hb. apply Hlast.
    destruct l; [done|]. exact Hb.
Qed.

Lemma linked_insert p : forall ns j,
  j <= length ns -> linked R ns ->
  (j = 0 \/ exists x, ns !! (j - 1) = Some x /\ R x p) ->
  (j = length ns \/ exists x, ns !! j = Some x /\ R p x) ->
  linked R (take j ns ++ p :: drop j ns).
Proof.
  induction ns as [|a ns IH]; intros j Hj Hl Hleft Hright.
  - by destruct j.
  - destruct j as [|j].
    + cbn. split; [|done]. destruct Hright as [?|(x & [= <-] & Hx)]; done.
    + cbn [take drop app]. apply linked_cons. split.
      * destruct j as [|j].
        -- cbn. intros b [= <-]. destruct Hleft as [?|(x & [= <-] & Hx)]; done.
        -- destruct ns as [|b ns]; [cbn in Hj; lia|]. cbn. intros ? [= <-].
           by destruct Hl.
      * cbn in Hj. apply IH; [lia | by eapply linked_tail | |].
        -- destruct j as [|j]; [by left|]. right.
           destruct Hleft as [?|(x & Hx & HR)]; [done|]. exists x. split; [|done].
           replace (S (S j) - 1) with (S j) in Hx by lia.
           replace (S j - 1) with j by lia. exact Hx.
        -- destruct Hright as [Hr|(x & Hx & HR)]; [left; cbn in Hr; lia | right; eauto].
Qed.

End Linked.

Lemma linked_weaken {A} (R R' : A -> A -> Prop) l :
  (forall a b, a ∈ l -> b ∈ l -> R a b -> R' a b) -> linked R l -> linked R' l.
Proof.
  induction l as [|a l IH]; [done|]. intros HR Hl.
  apply linked_cons in Hl as [Hh Ht]. apply linked_cons. split.
  - intros b Hb. apply HR; [set_solver | | by apply Hh].
    destruct l; simplify_eq/=. set_solver.
  - apply IH; [|done]. intros x y Hx Hy. apply HR; set_solver.
Qed.

Lemma linked_rev {A} (R : A -> A -> Prop) l : linked R l -> linked (flip R) (rev l).
Proof.
  induction l as [|a l IH]; [done|]. intros Hl.
  apply linked_cons in Hl as [Hh Ht]. cbn [rev]. apply linked_snoc; [by apply IH|].
  intros b Hb. apply Hh. destruct l as [|c l]; [done|].
  cbn [rev] in Hb. rewrite last_snoc in Hb. by simplify_eq.
Qed.

Lemma before_error a b : Report.is_error a = true -> sorts_before a b = true.
Proof.
  intros Ha. unfold sorts_before, sort_compare, Report.compare_results. by rewrite Ha.
Qed.

Lemma before_number_error a b :
  Report.is_error a = false -> Report.is_error b = true -> sorts_before a b = false.
Proof.
  intros Ha Hb. unfold sorts_before, sort_compare, Report.compare_results.
  by rewrite Ha, Hb.
Qed.

Lemma before_numbers a b x y :
  similarityPercentage a = inl x -> similarityPercentage b = inl y ->
  sorts_before a b = PrimFloat.ltb (PrimFloat.sub x y) 0.
Proof.
  intros Ha Hb. unfold sorts_before, sort_compare, Report.compare_results, Report.is_error.
  rewrite Ha, Hb. apply sort_order_negative.
Qed.

Lemma classified_subseteq (l k : list Result) :
  l ⊆ k -> Forall classified k -> Forall classified l.
Proof.
  intros Hsub Hc. apply Forall_forall. intros r Hr.
  by apply (proj1 (Forall_forall _ _) Hc), Hsub.
Qed.

Lemma classified_number r :
  classified r -> Report.is_error r = false ->
  exists x, similarityPercentage r = inl x /\ PrimFloat.is_nan x = false.
Proof. intros [H|H] He; [|done]. unfold Report.is_error in He. by rewrite H in He. Qed.

Lemma classified_sorts_before l a b :
  Forall classified l -> a ∈ l -> b ∈ l ->
  Report.is_error a = false -> Report.is_error b = false ->
  if sorts_before a b then ascending a b else ascending b a.
Proof.
  intros Hc Ha Hb Hea Heb.
  destruct (classified_number a (proj1 (Forall_forall _ _) Hc a Ha) Hea) as (x & Hx & Nx).
  destruct (classified_number b (proj1 (Forall_forall _ _) Hc b Hb) Heb) as (y & Hy & Ny).
  rewrite (before_numbers a b x y Hx Hy), (sub_negative x y Nx Ny).
  destruct (PrimFloat.ltb x y) eqn:Hlt.
  - exists x, y. repeat split; [done..|]. by apply ltb_leb.
  - exists y, x. repeat split; [done..|].
    destruct (leb_or_ltb x y Nx Ny); [done | congruence].
Qed.

(** An "Error" record is inserted in front of everything. *)
Lemma insert_error (p : Result) acc :
  Report.is_error p = true -> insert_pivot Report.compare_results acc p = p :: acc.
Proof.
  intros Hp. unfold insert_pivot.
  destruct (binary_search_spec Report.compare_results p acc (length acc) 0 (length acc)
              ltac:(lia) ltac:(lia) ltac:(lia)) as (_ & [->|(x & _ & Hx)] & _).
  - by rewrite take_0, drop_0.
  - change (sorts_before p x = false) in Hx. by rewrite before_error in Hx.
Qed.

(** Any other record is inserted behind the "Error" records, next to the
    two records the search compared it with last. *)
Lemma insert_number (p : Result) es ns :
  Report.is_error p = false -> Forall (fun r => Report.is_error r = true) es ->
  exists j, j <= length ns
    /\ insert_pivot Report.compare_results (es ++ ns) p
       = (es ++ take j ns ++ p :: drop j ns)%list
    /\ (j = 0 \/ exists x, ns !! (j - 1) = Some x /\ sorts_before p x = false)
    /\ (j = length ns \/ exists x, ns !! j = Some x /\ sorts_before p x = true).
Proof.
  intros Hp Hes. unfold insert_pivot.
  destruct (binary_search_spec Report.compare_results p (es ++ ns)%list
              (length (es ++ ns)) 0 (length (es ++ ns)) ltac:(lia) ltac:(lia) ltac:(lia))
    as (Hr & Hleft & Hright).
  set (r := binary_search _ _ _ _ _ _) in *. clearbody r. rewrite length_app in Hr.
  assert (Hge : length es <= r).
  { destruct Hright as [->|(x & Hx & Hb)]; [rewrite length_app; lia|].
    destruct (Nat.le_gt_cases (length es) r) as [|Hlt]; [done|].
    rewrite lookup_app_l in Hx by done. change (sorts_before p x = true) in Hb.
    rewrite before_number_error in Hb; [done | done |].
    exact (proj1 (Forall_forall _ _) Hes x (list_elem_of_lookup_2 _ _ _ Hx)). }
  exists (r - length es). split; [lia|]. split.
  { rewrite take_app_ge, drop_app_ge by done. by rewrite <- app_assoc. }
  split.
  - destruct (decide (r - length es = 0)) as [|Hpos]; [by left | right].
    destruct Hleft as [->|(x & Hx & Hb)]; [lia|].
    exists x. split; [|done]. rewrite lookup_app_r in Hx by lia.
    by replace (r - length es - 1) with (r - 1 - length es) by lia.
  - destruct Hright as [->|(x & Hx & Hb)]; [left; rewrite length_app; lia | right].
    exists x. split; [|done]. by rewrite lookup_app_r in Hx by lia.
Qed.

Lemma insert_number_sorted l (p : Result) es ns :
  Report.is_error p = false ->
  Forall (fun r => Report.is_error r = true) es ->
  Forall (fun r => Report.is_error r = false) ns ->
  exists ns', insert_pivot Report.compare_results (es ++ ns) p = (es ++ ns')%list
    /\ Forall (fun r => Report.is_error r = false) ns' /\ ns' ≡ₚ p :: ns
    /\ (Forall classified l -> p ∈ l -> ns ⊆ l ->
        linked ascending ns -> linked ascending ns').
Proof.
  intros Hp Hes Hns.
  destruct (insert_number p es ns Hp Hes) as (j & Hj & -> & Hleft & Hright).
  eexists. split; [reflexivity|].
  assert (Hperm : (take j ns ++ p :: drop j ns)%list ≡ₚ p :: ns).
  { by rewrite <- Permutation_middle, take_drop. }
  split; [by rewrite Hperm; constructor|]. split; [done|].
  intros Ht Hpl Hsub Hl. apply linked_insert; [done..| |].
  - destruct Hleft as [|(x & Hx & Hb)]; [by left | right]. exists x. split; [done|].
    pose proof (list_elem_of_lookup_2 _ _ _ Hx) as Hin.
    pose proof (classified_sorts_before l p x Ht Hpl (Hsub _ Hin) Hp
                  (proj1 (Forall_forall _ _) Hns x Hin)) as H.
    by rewrite Hb in H.
  - destruct Hright as [|(x & Hx & Hb)]; [by left | right]. exists x. split; [done|].
    pose proof (list_elem_of_lookup_2 _ _ _ Hx) as Hin.
    pose proof (classified_sorts_before l p x Ht Hpl (Hsub _ Hin) Hp
                  (proj1 (Forall_forall _ _) Hns x Hin)) as H.
    by rewrite Hb in H.
Qed.

Lemma BinaryInsertionSort_shape l : forall rest es ns,
  Forall (fun r => Report.is_error r = true) es ->
  Forall (fun r => Report.is_error r = false) ns ->
  exists ns',
    BinaryInsertionSort Report.compare_results (es ++ ns) rest
      = (rev (filter (fun r => Report.is_error r = true) rest) ++ es ++ ns')%list
    /\ Forall (fun r => Report.is_error r = false) ns'
    /\ (Forall classified l -> ns ⊆ l -> rest ⊆ l ->
        linked ascending ns -> linked ascending ns').
Proof.
  induction rest as [|p rest IH]; intros es ns Hes Hns.
  - exists ns. by rewrite filter_nil.
  - cbn [BinaryInsertionSort foldl]. rewrite filter_cons.
    destruct (Report.is_error p) eqn:Hp.
    + rewrite decide_True by done. rewrite insert_error by done.
      destruct (IH (p :: es) ns ltac:(by constructor) Hns) as (ns' & Hrun & Hn' & Hs).
      exists ns'. split; [|split; [done|]].
      * unfold BinaryInsertionSort in Hrun. rewrite app_comm_cons, Hrun.
        cbn [rev]. by rewrite <- !app_assoc.
      * intros Ht H1 H2. apply Hs; [done | done |]. set_solver.
    + rewrite decide_False by done.
      destruct (insert_number_sorted l p es ns Hp Hes Hns)
        as (ns1 & -> & Hn1 & Hperm & Hs1).
      destruct (IH es ns1 Hes Hn1) as (ns' & Hrun & Hn' & Hs).
      exists ns'. split; [exact Hrun|]. split; [done|].
      intros Ht H1 H2 Hl. apply Hs; [done | | set_solver |].
      * intros x. rewrite Hperm. set_solver.
      * apply Hs1; [done | set_solver | done | done].
Qed.

Lemma extend_run_linked {A} (f : A -> A -> float) d : forall l prev run tail,
  extend_run f d prev l = (run, tail) ->
  linked (fun p c => PrimFloat.ltb (sort_compare f c p) 0 = d) (prev :: run).
Proof.
  induction l as [|c l IH]; intros prev run tail; cbn [extend_run].
  - by intros [= <- <-].
  - destruct (if d then _ else _) eqn:Hd.
    + by intros [= <- <-].
    + destruct (extend_run f d c l) as [r t] eqn:E. intros [= <- <-].
      split; [|by eapply IH].
      unfold sort_compare in *. rewrite sort_order_sign in Hd.
      destruct d, (PrimFloat.ltb (sort_order (f c prev)) 0); done.
Qed.

(** An ascending run: at most its first element is an "Error". *)
Lemma ascending_run_numbers a l :
  linked (fun p c => sorts_before c p = false) (a :: l) ->
  Forall (fun r => Report.is_error r = false) l.
Proof.
  revert a. induction l as [|b l IH]; intros a Hl; [done|].
  destruct Hl as [Hab Hl]. constructor; [|by eapply IH].
  destruct (Report.is_error b) eqn:Hb; [|done]. by rewrite before_error in Hab.
Qed.

(** A descending run: once an "Error", always an "Error". *)
Lemma descending_run_errors a l :
  linked (fun p c => sorts_before c p = true) (a :: l) -> Report.is_error a = true ->
  Forall (fun r => Report.is_error r = true) l.
Proof.
  revert a. induction l as [|b l IH]; intros a Hl Ha; [done|].
  destruct Hl as [Hab Hl].
  assert (Hb : Report.is_error b = true).
  { destruct (Report.is_error b) eqn:Hb; [done|]. by rewrite before_number_error in Hab. }
  constructor; [done | by eapply IH].
Qed.

Lemma descending_run_split l :
  linked (fun p c => sorts_before c p = true) l ->
  exists ds es, l = (ds ++ es)%list
    /\ Forall (fun r => Report.is_error r = false) ds
    /\ Forall (fun r => Report.is_error r = true) es.
Proof.
  induction l as [|a l IH]; intros Hl; [by exists [], []|].
  destruct (Report.is_error a) eqn:Ha.
  - exists [], (a :: l). split; [done|]. split; [done|].
    constructor; [done | by eapply descending_run_errors].
  - destruct (IH (linked_tail _ _ _ Hl)) as (ds & es & -> & Hds & Hes).
    exists (a :: ds), es. split; [done|]. split; [by constructor | done].
Qed.

Lemma filter_err_all (l : list Result) :
  Forall (fun r => Report.is_error r = true) l ->
  filter (fun r => Report.is_error r = true) l = l.
Proof.
  induction 1 as [|a l Ha _ IH]; [done|]. rewrite filter_cons, decide_True by done.
  by rewrite IH.
Qed.

Lemma filter_err_none (l : list Result) :
  Forall (fun r => Report.is_error r = false) l ->
  filter (fun r => Report.is_error r = true) l = [].
Proof.
  induction 1 as [|a l Ha _ IH]; [done|]. rewrite filter_cons, decide_False by congruence.
  done.
Qed.

Lemma CountAndMakeRun_shape l run tail :
  CountAndMakeRun Report.compare_results l = (run, tail) ->
  exists prefix ns,
    l = (prefix ++ tail)%list
    /\ run = (rev (filter (fun r => Report.is_error r = true) prefix) ++ ns)%list
    /\ Forall (fun r => Report.is_error r = false) ns
    /\ ns ⊆ prefix
    /\ (Forall classified prefix -> linked ascending ns).
Proof.
  destruct l as [|a [|b l]]; cbn [CountAndMakeRun].
  - intros [= <- <-]. by exists [], [].
  - intros [= <- <-]. destruct (Report.is_error a) eqn:Ha.
    + exists [a], []. rewrite filter_cons, decide_True by done.
      repeat split; try done. set_solver.
    + exists [a], [a]. rewrite filter_cons, decide_False by congruence.
      repeat split; try done. by constructor.
  - destruct (extend_run Report.compare_results _ b l) as [r t] eqn:E.
    pose proof (extend_run_app _ _ _ _ _ _ E) as ->.
    apply extend_run_linked in E.
    change (PrimFloat.ltb (sort_compare Report.compare_results b a) 0)
      with (sorts_before b a) in *.
    destruct (sorts_before b a) eqn:Hd; intros [= <- <-].
    + (* a descending run, reversed *)
      assert (Hl : linked (fun p c => sorts_before c p = true) (a :: b :: r)).
      { split; [exact Hd | exact E]. }
      destruct (descending_run_split _ Hl) as (ds & es & Heq & Hds & Hes).
      exists (a :: b :: r), (rev ds). split; [done|].
      split.
      { change (rev (a :: b :: r)
                = (rev (filter (fun r => Report.is_error r = true) (a :: b :: r))
                   ++ rev ds)%list).
        rewrite Heq, filter_app, (filter_err_none ds), (filter_err_all es) by done.
        by rewrite rev_app_distr. }
      split; [by apply Forall_rev|].
      split.
      { intros x Hx. apply list_elem_of_In, in_rev, list_elem_of_In in Hx.
        rewrite Heq. set_solver. }
      intros Ht. rewrite Heq in Hl, Ht.
      assert (Hlds : linked (fun p c => sorts_before c p = true) ds).
      { clear -Hl. induction ds as [|d ds IH]; [done|]. cbn [app] in Hl.
        apply linked_cons in Hl as [Hh Hl]. apply linked_cons. split; [|by apply IH].
        intros c Hc. apply Hh. destruct ds; [done|]. exact Hc. }
      apply linked_rev in Hlds. revert Hlds. apply linked_weaken.
      intros x y Hx Hy Hxy. unfold flip in Hxy.
      apply list_elem_of_In, in_rev, list_elem_of_In in Hx, Hy.
      pose proof (classified_sorts_before _ x y Ht ltac:(set_solver) ltac:(set_solver)
                    (proj1 (Forall_forall _ _) Hds x Hx)
                    (proj1 (Forall_forall _ _) Hds y Hy)) as H.
      by rewrite Hxy in H.
    + (* an ascending run *)
      assert (Hl : linked (fun p c => sorts_before c p = false) (a :: b :: r)).
      { split; [exact Hd | exact E]. }
      pose proof (ascending_run_numbers _ _ Hl) as Hnum.
      assert (Hasc : forall ns,
                ns ⊆ a :: b :: r -> Forall (fun r => Report.is_error r = false) ns ->
                Forall classified (a :: b :: r) ->
                linked (fun p c => sorts_before c p = false) ns -> linked ascending ns).
      { intros ns Hsub Hns Ht. apply linked_weaken. intros x y Hx Hy Hxy.
        pose proof (classified_sorts_before _ y x Ht (Hsub _ Hy) (Hsub _ Hx)
                      (proj1 (Forall_forall _ _) Hns y Hy)
                      (proj1 (Forall_forall _ _) Hns x Hx)) as H.
        by rewrite Hxy in H. }
      destruct (Report.is_error a) eqn:Ha.
      * exists (a :: b :: r), (b :: r). split; [done|].
        rewrite filter_cons, decide_True, (filter_err_none (b :: r)) by done.
        split; [done|]. split; [done|]. split; [set_solver|].
        intros Ht. apply Hasc; [set_solver | done | done | by eapply linked_tail].
      * exists (a :: b :: r), (a :: b :: r). split; [done|].
        rewrite (filter_err_none (a :: b :: r)) by by constructor.
        split; [done|]. split; [by constructor|]. split; [done|].
        intros Ht. apply Hasc; [done | by constructor | done | done].
Qed.

(** The sorted array: the "Error" records in the reverse of their order,
    then the others, ascending when they are numbers. *)
Lemma Array_sort_shape (results : list Result) :
  exists ns,
    Array_sort Report.compare_results results
      = (rev (filter (fun r => Report.is_error r = true) results) ++ ns)%list
    /\ Forall (fun r => Report.is_error r = false) ns
    /\ (Forall classified results -> linked ascending ns).
Proof.
  unfold Array_sort.
  destruct (CountAndMakeRun Report.compare_results results) as [run tail] eqn:E.
  destruct (CountAndMakeRun_shape _ _ _ E) as (prefix & ns & -> & -> & Hns & Hsub & Hs).
  destruct (BinaryInsertionSort_shape (prefix ++ tail) tail
              (rev (filter (fun r => Report.is_error r = true) prefix)) ns)
    as (ns' & -> & Hns' & Hs'); [|done|].
  { apply Forall_rev. apply Forall_forall. intros r Hr.
    by apply list_elem_of_filter in Hr as [Hr _]. }
  exists ns'. split; [|split; [done|]].
  - by rewrite filter_app, rev_app_distr, <- app_assoc.
  - intros Ht. apply Hs'; [done | set_solver | set_solver |].
    apply Hs. revert Ht. apply classified_subseteq. set_solver.
Qed.

(** The ordering of the specification's example, wherever the "Error"
    record stands in the input. *)
Example ordering_example :
  Array_sort Report.compare_results [similar 10; similar 99; similar 50; capture_error]
    = [capture_error; similar 10; similar 50; similar 99]
  /\ Array_sort Report.compare_results [similar 10; similar 99; capture_error; similar 50]
    = [capture_error; similar 10; similar 50; similar 99]
  /\ Array_sort Report.compare_results [similar 10; capture_error; similar 99; similar 50]
    = [capture_error; similar 10; similar 50; similar 99]
  /\ Array_sort Report.compare_results [capture_error; similar 10; similar 99; similar 50]
    = [capture_error; similar 10; similar 50; similar 99].
Proof. repeat split; reflexivity. Qed.



(** Every run of the test on fewer than 64 pages ends in this order: its
    records are "Error" or numbers. *)
Lemma test_returns_ordered lib cfg w :
  length (urls (staging cfg)) < 64 ->
  exists w' es ns,
    Report.visual_comparison_test lib cfg w = (w', Normal (es ++ ns)%list)
    /\ Forall (fun r => similarityPercentage r = inr "Error") es
    /\ linked ascending ns.
Proof.
  intros _.
  destruct (test_records_classified lib cfg w) as (w1 & rs & _ & _ & Hc & ->).
  rewrite generateHtmlReport_returns.
  destruct (Array_sort_shape rs) as (ns & -> & _ & Hasc).
  eexists _, _, ns. split; [reflexivity|]. split; [|by apply Hasc].
  apply Forall_rev, Forall_forall. intros r Hr.
  apply list_elem_of_filter in Hr as [Hr _]. unfold Report.is_error in Hr.
  destruct (similarityPercentage r) as [x|s]; [done|].
  apply bool_decide_eq_true in Hr. by subst.
Qed.

(** ** Geometry of the contain policy *)

Section Geometry.
Open Scope N_scope.

Lemma round_div_bounds a b :
  b ≠ 0 -> 2 * b * round_div a b <= 2 * a + b /\ 2 * a < 2 * b * round_div a b + b.
Proof.
  intros Hb. unfold round_div.
  pose proof (N.Div0.mul_div_le (2 * a + b) (2 * b)).
  pose proof (N.mul_succ_div_gt (2 * a + b) (2 * b) ltac:(lia)).
  lia.
Qed.

Lemma round_div_le a b c : b ≠ 0 -> a <= c * b -> round_div a b <= c.
Proof.
  intros Hb Hle. destruct (round_div_bounds a b Hb) as [Hlo _]. nia.
Qed.

Lemma contain_size_fits w h W H :
  w ≠ 0 -> h ≠ 0 -> W ≠ 0 -> H ≠ 0 ->
  0 < (contain_size w h W H).1 <= W /\ 0 < (contain_size w h W H).2 <= H.
Proof.
  intros Hw Hh HW HH. unfold contain_size.
  destruct (N.leb_spec (W * h) (H * w)) as [Hle|Hlt]; cbn [fst snd].
  - pose proof (round_div_le (h * W) w H Hw ltac:(lia)). lia.
  - pose proof (round_div_le (w * H) h W Hh ltac:(lia)). lia.
Qed.

Lemma contain_origin_fits w h W H :
  w ≠ 0 -> h ≠ 0 -> W ≠ 0 -> H ≠ 0 ->
  (contain_origin w h W H).1 + (contain_size w h W H).1 <= W
  /\ (contain_origin w h W H).2 + (contain_size w h W H).2 <= H.
Proof.
  intros Hw Hh HW HH.
  destruct (contain_size_fits w h W H Hw Hh HW HH) as [[_ Hiw] [_ Hih]].
  unfold contain_origin. destruct (contain_size w h W H) as [iw ih]. cbn [fst snd] in *.
  pose proof (N.Div0.div_le_upper_bound (W - iw) 2 (W - iw) ltac:(lia)).
  pose proof (N.Div0.div_le_upper_bound (H - ih) 2 (H - ih) ltac:(lia)).
  lia.
Qed.

(** One side takes the whole target length; the other is the source
    length times the same factor, rounded to a whole pixel (and at
    least one pixel). *)
Lemma contain_size_ratio w h W H :
  w ≠ 0 -> h ≠ 0 ->
  let iw := (contain_size w h W H).1 in
  let ih := (contain_size w h W H).2 in
  (iw = W /\ 2 * (h * W) < 2 * w * ih + w /\ (2 * w * ih <= 2 * (h * W) + w \/ ih = 1))
  \/ (ih = H /\ 2 * (w * H) < 2 * h * iw + h /\ (2 * h * iw <= 2 * (w * H) + h \/ iw = 1)).
Proof.
  intros Hw Hh. unfold contain_size.
  destruct (N.leb_spec (W * h) (H * w)) as [Hle|Hlt]; cbn [fst snd]; [left|right].
  - destruct (round_div_bounds (h * W) w Hw). split; [done|].
    destruct (N.max_spec 1 (round_div (h * W) w)) as [[? ->]|[? ->]]; nia.
  - destruct (round_div_bounds (w * H) h Hh). split; [done|].
    destruct (N.max_spec 1 (round_div (w * H) h)) as [[? ->]|[? ->]]; nia.
Qed.

Lemma contain_origin_centred w h W H :
  w ≠ 0 -> h ≠ 0 -> W ≠ 0 -> H ≠ 0 ->
  2 * (contain_origin w h W H).1 <= W - (contain_size w h W H).1
    <= 2 * (contain_origin w h W H).1 + 1
  /\ 2 * (contain_origin w h W H).2 <= H - (contain_size w h W H).2
    <= 2 * (contain_origin w h W H).2 + 1.
Proof.
  intros Hw Hh HW HH. unfold contain_origin.
  destruct (contain_size w h W H) as [iw ih]. cbn [fst snd].
  pose proof (N.Div0.mul_div_le (W - iw) 2).
  pose proof (N.mul_succ_div_gt (W - iw) 2 ltac:(lia)).
  pose proof (N.Div0.mul_div_le (H - ih) 2).
  pose proof (N.mul_succ_div_gt (H - ih) 2 ltac:(lia)).
  lia.
Qed.

Lemma box_test_spec iw ih ox oy x y :
  box_test iw ih ox oy x y = true <-> (ox <= x < ox + iw /\ oy <= y < oy + ih).
Proof.
  unfold box_test. rewrite !andb_true_iff, !N.leb_le, !N.ltb_lt. lia.
Qed.

Lemma sharp_contain_data lib src W H bg x y :
  W ≠ 0 -> x < W ->
  data (sharp_contain lib src W H bg) (y * W + x) =
    if box_test (contain_size (width src) (height src) W H).1
         (contain_size (width src) (height src) W H).2
         (contain_origin (width src) (height src) W H).1
         (contain_origin (width src) (height src) W H).2 x y
    then resample lib src (contain_size (width src) (height src) W H).1
           (contain_size (width src) (height src) W H).2
           ((y - (contain_origin (width src) (height src) W H).2)
              * (contain_size (width src) (height src) W H).1
            + (x - (contain_origin (width src) (height src) W H).1))
    else bg.
Proof.
  intros HW Hx. unfold sharp_contain.
  destruct (contain_size _ _ _ _) as [iw ih], (contain_origin _ _ _ _) as [ox oy].
  cbn [data fst snd].
  replace ((y * W + x) mod W) with x.
  2:{ rewrite N.add_comm, N.Div0.mod_add. by rewrite N.mod_small. }
  replace ((y * W + x) / W) with y.
  2:{ rewrite N.add_comm, N.div_add by done. rewrite N.div_small by done. lia. }
  reflexivity.
Qed.

End Geometry.

(** C7. Resizing an image file to [W] by [H] replaces it by an image of
    exactly that width and height. The source is scaled by one factor to
    [iw] by [ih] pixels (one side takes the full target length, the other is
    the source side times the same factor, rounded to a whole pixel) and
    lies centred inside the canvas: every pixel of the scaled source is on
    the canvas, at its place in the rectangle that starts at [(ox, oy)], and
    every canvas pixel outside that rectangle is the background, of
    alpha 0. *)
Theorem resize_contains lib imagePath W H w src :
  W ≠ 0%N -> H ≠ 0%N -> width src ≠ 0%N -> height src ≠ 0%N ->
  fs w !! imagePath = Some (PngFile src) ->
  let out := sharp_contain lib src W H (mkPixel 255 255 255 0) in
  let iw := (contain_size (width src) (height src) W H).1 in
  let ih := (contain_size (width src) (height src) W H).2 in
  let ox := (contain_origin (width src) (height src) W H).1 in
  let oy := (contain_origin (width src) (height src) W H).2 in
  Report.resizeImage lib imagePath W H w = (set_fs <[imagePath := PngFile out]> w, Normal tt)
  /\ (width out = W /\ height out = H)
  /\ ((0 < iw)%N /\ (0 < ih)%N /\ (ox + iw <= W)%N /\ (oy + ih <= H)%N)
  /\ ((2 * ox <= W - iw <= 2 * ox + 1)%N /\ (2 * oy <= H - ih <= 2 * oy + 1)%N)
  /\ ((iw = W /\ (2 * (height src * W) < 2 * width src * ih + width src)%N
       /\ ((2 * width src * ih <= 2 * (height src * W) + width src)%N \/ ih = 1%N))
      \/ (ih = H /\ (2 * (width src * H) < 2 * height src * iw + height src)%N
          /\ ((2 * height src * iw <= 2 * (width src * H) + height src)%N \/ iw = 1%N)))
  /\ (forall i j, (i < iw)%N -> (j < ih)%N ->
        data out ((oy + j) * W + (ox + i))%N = resample lib src iw ih (j * iw + i)%N)
  /\ (forall x y, (x < W)%N -> (y < H)%N ->
        (x < ox \/ ox + iw <= x \/ y < oy \/ oy + ih <= y)%N ->
        data out (y * W + x)%N = mkPixel 255 255 255 0
        /\ alpha (data out (y * W + x)%N) = 0%N).
Proof.
  intros HW HH Hw Hh Hsrc out iw ih ox oy.
  destruct (contain_size_fits (width src) (height src) W H Hw Hh HW HH) as [[Hiw _] [Hih _]].
  destruct (contain_origin_fits (width src) (height src) W H Hw Hh HW HH) as [Hox Hoy].
  fold iw in Hiw, Hox. fold ih in Hih, Hoy. fold ox in Hox. fold oy in Hoy.
  split; [by apply resizeImage_png|].
  split; [split; [apply sharp_contain_width | apply sharp_contain_height]|].
  split; [by repeat split|].
  split; [by apply contain_origin_centred|].
  split; [by apply contain_size_ratio|].
  split.
  - intros i j Hi Hj. unfold out. rewrite sharp_contain_data by lia.
    fold iw ih ox oy.
    rewrite (proj2 (box_test_spec iw ih ox oy (ox + i) (oy + j))) by lia.
    f_equal. lia.
  - intros x y Hx Hy Hout. unfold out. rewrite sharp_contain_data by done.
    fold iw ih ox oy.
    destruct (box_test iw ih ox oy x y) eqn:Hbox; [|done].
    apply box_test_spec in Hbox. lia.
Qed.

Lemma resize_contains_witness :
  Report.resizeImage nearest_exact "screenshots/Desktop/staging/_.png" 1280 800 stale =
    (set_fs <["screenshots/Desktop/staging/_.png" :=
              PngFile (sharp_contain nearest_exact (solid 10) 1280 800 (mkPixel 255 255 255 0))]>
       stale, Normal tt).
Proof.
  exact (proj1 (resize_contains nearest_exact "screenshots/Desktop/staging/_.png" 1280 800
                  stale (solid 10) ltac:(done) ltac:(done) ltac:(done) ltac:(done) eq_refl)).
Defined.

(** * Further properties of the code *)

Ltac simpl_world_in H :=
  cbn [fs faults banner_visible render clock location console set_fs tick emit navigate] in H.

(** ** Single browser calls *)

Lemma page_call_ok w : faults w (clock w) = None -> page_call w = (tick w, Normal tt).
Proof. intros H. unfold page_call. by rewrite H. Qed.

Lemma page_call_fails w m : faults w (clock w) = Some m -> page_call w = (tick w, Throw m).
Proof. intros H. unfold page_call. by rewrite H. Qed.

Lemma page_goto_ok url w :
  faults w (clock w) = None -> page_goto url w = (navigate url (tick w), Normal tt).
Proof. intros H. unfold page_goto. by rewrite H. Qed.

Lemma page_screenshot_ok path fullPage w :
  faults w (clock w) = None ->
  page_screenshot path fullPage w =
    (set_fs <[path := PngFile (render w (clock w) (location w) fullPage)]> (tick w), Normal tt).
Proof. intros H. unfold page_screenshot. by rewrite H. Qed.

(** ** Cookie banner *)

Lemma acceptCookies_hidden w :
  faults w (clock w) = None -> banner_visible w (clock w) = false ->
  Report.acceptCookies w = (tick w, Normal tt).
Proof.
  intros H Hb. unfold Report.acceptCookies, try_catch, bind, locator_isVisible.
  by rewrite H, Hb.
Qed.

Lemma acceptCookies_visible w :
  faults w (clock w) = None -> banner_visible w (clock w) = true ->
  faults w (S (clock w)) = None -> faults w (S (S (clock w))) = None ->
  Report.acceptCookies w = (tick (emit "Accepted cookies." (tick (tick w))), Normal tt).
Proof.
  intros H Hb H1 H2.
  unfold Report.acceptCookies, try_catch, bind, locator_isVisible, locator_click,
    page_waitForTimeout, page_call, console_log.
  rewrite H, Hb. cbn [faults clock tick emit]. rewrite H1.
  cbn [faults clock tick emit]. by rewrite H2.
Qed.

Lemma acceptCookies_unknown w m :
  faults w (clock w) = Some m ->
  Report.acceptCookies w = (emit "No cookie banner detected." (tick w), Normal tt).
Proof.
  intros H. unfold Report.acceptCookies, try_catch, bind, locator_isVisible, console_log.
  by rewrite H.
Qed.

(** X1. Dismissing the cookie banner is best effort: [acceptCookies] never
    throws, makes between one and three browser calls, writes no file and
    does not navigate; when the banner cannot even be queried it only logs
    "No cookie banner detected.". *)
Theorem acceptCookies_best_effort w :
  exists w', Report.acceptCookies w = (w', Normal tt)
    /\ fs w' = fs w /\ location w' = location w
    /\ clock w < clock w' <= clock w + 3
    /\ match faults w (clock w) with
       | Some _ => console w' = (console w ++ ["No cookie banner detected."])%list
       | None => True
       end.
Proof.
  unfold Report.acceptCookies, try_catch, bind, locator_isVisible, locator_click,
    page_waitForTimeout, page_call, console_log, ret.
  repeat (case_match; simplify_eq; cbn in * );
    (eexists; split; [reflexivity|]; cbn; repeat split; try lia; done).
Qed.

(** ** A capture in which no call rejects *)

Ltac simpl_world :=
  cbn [fs faults banner_visible render clock location console set_fs tick emit navigate].

Ltac run L :=
  erewrite bind_normal; [| eapply L; simpl_world; eassumption ].

Lemma captureScreenshot_unhindered url screenshotPath w :
  (forall k, k < 9 -> faults w (clock w + k) = None) ->
  let calls := if banner_visible w (clock w + 1) then 9 else 7 in
  exists w', Report.captureScreenshot url screenshotPath w = (w', Normal tt)
    /\ fs w' = <[screenshotPath := PngFile (render w (clock w + calls - 1) url true)]> (fs w)
    /\ console w' =
         (console w ++ ["Navigating to: " +:+ url]
            ++ (if banner_visible w (clock w + 1) then ["Accepted cookies."] else [])
            ++ ["All images loaded successfully."; "Screenshot captured: " +:+ screenshotPath])%list
    /\ clock w' = clock w + calls /\ location w' = url
    /\ faults w' = faults w /\ banner_visible w' = banner_visible w /\ render w' = render w.
Proof.
  intros Hf.
  pose proof (Hf 0 ltac:(lia)) as H0. pose proof (Hf 1 ltac:(lia)) as H1.
  pose proof (Hf 2 ltac:(lia)) as H2. pose proof (Hf 3 ltac:(lia)) as H3.
  pose proof (Hf 4 ltac:(lia)) as H4. pose proof (Hf 5 ltac:(lia)) as H5.
  pose proof (Hf 6 ltac:(lia)) as H6. pose proof (Hf 7 ltac:(lia)) as H7.
  pose proof (Hf 8 ltac:(lia)) as H8. clear Hf.
  rewrite Nat.add_0_r in H0.
  replace (clock w + 1) with (S (clock w)) in * by lia.
  replace (clock w + 2) with (S (S (clock w))) in H2 by lia.
  replace (clock w + 3) with (S (S (S (clock w)))) in H3 by lia.
  replace (clock w + 4) with (S (S (S (S (clock w))))) in H4 by lia.
  replace (clock w + 5) with (S (S (S (S (S (clock w)))))) in H5 by lia.
  replace (clock w + 6) with (S (S (S (S (S (S (clock w))))))) in H6 by lia.
  replace (clock w + 7) with (S (S (S (S (S (S (S (clock w)))))))) in H7 by lia.
  replace (clock w + 8) with (S (S (S (S (S (S (S (S (clock w))))))))) in H8 by lia.
  unfold Report.captureScreenshot, try_catch, ensureDirectoryExistence.
  unfold bind at 1. unfold console_log at 1.
  run page_goto_ok.
  destruct (banner_visible w (S (clock w))) eqn:Hb.
  - erewrite bind_normal;
      [| eapply acceptCookies_visible; simpl_world; eassumption].
    unfold page_evaluate, page_waitForFunction, page_waitForTimeout.
    run page_call_ok. run page_call_ok.
    unfold bind at 1. unfold console_log at 1.
    run page_call_ok. run page_call_ok.
    unfold bind at 1. unfold ret at 1.
    run page_screenshot_ok.
    unfold console_log. eexists. split; [reflexivity|]. simpl_world.
    replace (clock w + 9 - 1) with (S (S (S (S (S (S (S (S (clock w))))))))) by lia.
    repeat split; try done; try lia.
    by rewrite <- !app_assoc.
  - erewrite bind_normal;
      [| eapply acceptCookies_hidden; simpl_world; eassumption].
    unfold page_evaluate, page_waitForFunction, page_waitForTimeout.
    run page_call_ok. run page_call_ok.
    unfold bind at 1. unfold console_log at 1.
    run page_call_ok. run page_call_ok.
    unfold bind at 1. unfold ret at 1.
    run page_screenshot_ok.
    unfold console_log. eexists. split; [reflexivity|]. simpl_world.
    replace (clock w + 7 - 1) with (S (S (S (S (S (S (clock w))))))) by lia.
    repeat split; try done; try lia.
    by rewrite <- !app_assoc.
Qed.

(** X2. When none of the next nine browser calls rejects, the capture
    stores the full-page raster of the requested URL at [screenshotPath],
    taken by its last call (the ninth when the banner was clicked, the
    seventh otherwise), logs the three or four progress lines and leaves the
    session on that URL. *)
Theorem captureScreenshot_success url screenshotPath w :
  (forall k, k < 9 -> faults w (clock w + k) = None) ->
  let calls := if banner_visible w (clock w + 1) then 9 else 7 in
  exists w', Report.captureScreenshot url screenshotPath w = (w', Normal tt)
    /\ fs w' = <[screenshotPath := PngFile (render w (clock w + calls - 1) url true)]> (fs w)
    /\ console w' =
         (console w ++ ["Navigating to: " +:+ url]
            ++ (if banner_visible w (clock w + 1) then ["Accepted cookies."] else [])
            ++ ["All images loaded successfully."; "Screenshot captured: " +:+ screenshotPath])%list
    /\ clock w' = clock w + calls /\ location w' = url
    /\ faults w' = faults w /\ banner_visible w' = banner_visible w /\ render w' = render w.
Proof. exact (captureScreenshot_unhindered url screenshotPath w). Qed.

Lemma captureScreenshot_success_witness :
  exists w', Report.captureScreenshot "https://prod.test/" "prod.png" online = (w', Normal tt)
    /\ fs w' = <["prod.png" := PngFile (solid 128)]> ∅
    /\ console w' = ["Navigating to: https://prod.test/"; "All images loaded successfully.";
                     "Screenshot captured: prod.png"]
    /\ clock w' = 7 /\ location w' = "https://prod.test/"
    /\ faults w' = faults online /\ banner_visible w' = banner_visible online
    /\ render w' = render online.
Proof.
  apply (captureScreenshot_success "https://prod.test/" "prod.png" online).
  intros k _. reflexivity.
Defined.

(** X3. A rejection while the cookie banner is queried does not fail the
    capture: with every other call succeeding the screenshot is still
    written, after seven calls. *)
Theorem capture_survives_cookie_failure url screenshotPath w m :
  faults w (clock w) = None ->
  faults w (clock w + 1) = Some m ->
  (forall k, 2 <= k < 7 -> faults w (clock w + k) = None) ->
  exists w', Report.captureScreenshot url screenshotPath w = (w', Normal tt)
    /\ fs w' = <[screenshotPath := PngFile (render w (clock w + 6) url true)]> (fs w)
    /\ console w' =
         (console w ++ ["Navigating to: " +:+ url; "No cookie banner detected.";
                        "All images loaded successfully.";
                        "Screenshot captured: " +:+ screenshotPath])%list
    /\ clock w' = clock w + 7.
Proof.
  intros H0 H1 Hf.
  pose proof (Hf 2 ltac:(lia)) as H2. pose proof (Hf 3 ltac:(lia)) as H3.
  pose proof (Hf 4 ltac:(lia)) as H4. pose proof (Hf 5 ltac:(lia)) as H5.
  pose proof (Hf 6 ltac:(lia)) as H6. clear Hf.
  replace (clock w + 1) with (S (clock w)) in H1 by lia.
  replace (clock w + 2) with (S (S (clock w))) in H2 by lia.
  replace (clock w + 3) with (S (S (S (clock w)))) in H3 by lia.
  replace (clock w + 4) with (S (S (S (S (clock w))))) in H4 by lia.
  replace (clock w + 5) with (S (S (S (S (S (clock w)))))) in H5 by lia.
  replace (clock w + 6) with (S (S (S (S (S (S (clock w))))))) in * by lia.
  unfold Report.captureScreenshot, try_catch, ensureDirectoryExistence.
  unfold bind at 1. unfold console_log at 1.
  run page_goto_ok.
  erewrite bind_normal; [| eapply acceptCookies_unknown; simpl_world; eassumption].
  unfold page_evaluate, page_waitForFunction, page_waitForTimeout.
  run page_call_ok. run page_call_ok.
  unfold bind at 1. unfold console_log at 1.
  run page_call_ok. run page_call_ok.
  unfold bind at 1. unfold ret at 1.
  run page_screenshot_ok.
  unfold console_log. eexists. split; [reflexivity|]. simpl_world.
  repeat split; try done; try lia.
  by rewrite <- !app_assoc.
Qed.

Lemma capture_survives_cookie_failure_witness :
  exists w', Report.captureScreenshot "https://prod.test/" "prod.png" no_banner = (w', Normal tt)
    /\ fs w' = <["prod.png" := PngFile (solid 128)]> ∅
    /\ console w' =
         ["Navigating to: https://prod.test/"; "No cookie banner detected.";
          "All images loaded successfully."; "Screenshot captured: prod.png"]
    /\ clock w' = 7.
Proof.
  apply (capture_survives_cookie_failure "https://prod.test/" "prod.png" no_banner
           "locator.isVisible: Target closed"); [reflexivity | reflexivity |].
  intros k Hk. destruct k as [|[|[|[|[|[|[|k]]]]]]]; try lia; reflexivity.
Defined.

(** X4. A rejection of the wait for the images (its 5 s timeout) is fatal
    for the capture: no screenshot is taken, the disk is unchanged, and the
    failure is logged with the message of the wait. *)
Theorem image_wait_failure_loses_screenshot url screenshotPath w m :
  (forall k, k < 3 -> faults w (clock w + k) = None) ->
  banner_visible w (clock w + 1) = false ->
  faults w (clock w + 3) = Some m ->
  exists w', Report.captureScreenshot url screenshotPath w = (w', Normal tt)
    /\ fs w' = fs w
    /\ console w' =
         (console w ++ ["Navigating to: " +:+ url;
                        "Failed to capture screenshot for " +:+ url +:+ ": " +:+ m])%list
    /\ clock w' = clock w + 4.
Proof.
  intros Hf Hb H3.
  pose proof (Hf 0 ltac:(lia)) as H0. pose proof (Hf 1 ltac:(lia)) as H1.
  pose proof (Hf 2 ltac:(lia)) as H2. clear Hf.
  rewrite Nat.add_0_r in H0.
  replace (clock w + 1) with (S (clock w)) in * by lia.
  replace (clock w + 2) with (S (S (clock w))) in H2 by lia.
  replace (clock w + 3) with (S (S (S (clock w)))) in H3 by lia.
  unfold Report.captureScreenshot, try_catch, ensureDirectoryExistence.
  unfold bind at 1. unfold console_log at 1.
  run page_goto_ok.
  erewrite bind_normal; [| eapply acceptCookies_hidden; simpl_world; eassumption].
  unfold page_evaluate, page_waitForFunction, page_waitForTimeout.
  run page_call_ok.
  erewrite bind_throw; [| eapply page_call_fails; simpl_world; eassumption].
  unfold console_error, console_log. eexists. split; [reflexivity|]. simpl_world.
  repeat split; try done; try lia.
  by rewrite <- !app_assoc.
Qed.

Lemma image_wait_failure_loses_screenshot_witness :
  exists w', Report.captureScreenshot "https://prod.test/" "prod.png" slow_images
             = (w', Normal tt)
    /\ fs w' = ∅
    /\ console w' =
         ["Navigating to: https://prod.test/";
          "Failed to capture screenshot for https://prod.test/: page.waitForFunction: Timeout 5000ms exceeded."]
    /\ clock w' = 4.
Proof.
  apply (image_wait_failure_loses_screenshot "https://prod.test/" "prod.png" slow_images
           "page.waitForFunction: Timeout 5000ms exceeded."); [|reflexivity|reflexivity].
  intros k Hk. destruct k as [|[|[|k]]]; try lia; reflexivity.
Defined.

(** ** Which files a computation can write, and how many calls it makes *)

Lemma writes_only_weaken {A} (c : Js A) (ps qs : list string) :
  ps ⊆ qs -> writes_only ps c -> writes_only qs c.
Proof. intros Hsub H w q Hq. apply H. intros Hin. apply Hq, Hsub, Hin. Qed.

Lemma writes_only_ret {A} (a : A) ps : writes_only ps (ret a).
Proof. by intros w q _. Qed.

Lemma writes_only_throw {A} m ps : writes_only ps (@throw A m).
Proof. by intros w q _. Qed.

Lemma writes_only_bind {A B} (c : Js A) (k : A -> Js B) ps :
  writes_only ps c -> (forall a, writes_only ps (k a)) -> writes_only ps (bind c k).
Proof.
  intros Hc Hk w q Hq. specialize (Hc w q Hq). unfold bind.
  destruct (c w) as [w1 [a|m]]; cbn [fst] in *; [|done].
  by rewrite (Hk a w1 q Hq).
Qed.

Lemma writes_only_try_catch {A} (c : Js A) (h : string -> Js A) ps :
  writes_only ps c -> (forall m, writes_only ps (h m)) -> writes_only ps (try_catch c h).
Proof.
  intros Hc Hh w q Hq. specialize (Hc w q Hq). unfold try_catch.
  destruct (c w) as [w1 [a|m]]; cbn [fst] in *; [done|].
  by rewrite (Hh m w1 q Hq).
Qed.

Lemma writes_only_console_log line ps : writes_only ps (console_log line).
Proof. by intros w q _. Qed.

Lemma writes_only_existsSync path ps : writes_only ps (fs_existsSync path).
Proof. by intros w q _. Qed.

Lemma writes_only_readFileSync path ps : writes_only ps (fs_readFileSync path).
Proof. intros w q _. unfold fs_readFileSync. by destruct (fs w !! path). Qed.

Lemma writes_only_writeFileSync path f ps :
  path ∈ ps -> writes_only ps (fs_writeFileSync path f).
Proof.
  intros Hin w q Hq. cbn. apply lookup_insert_ne. intros ->. by apply Hq.
Qed.

Lemma writes_only_page_call ps : writes_only ps page_call.
Proof. intros w q _. unfold page_call. by destruct (faults w (clock w)). Qed.

Lemma writes_only_resizeImage lib path W H ps :
  path ∈ ps -> writes_only ps (Report.resizeImage lib path W H).
Proof.
  intros Hin. unfold Report.resizeImage.
  apply writes_only_bind; [apply writes_only_readFileSync|]. intros buffer.
  apply writes_only_bind; [|intros; by apply writes_only_writeFileSync].
  unfold sharp_resize. destruct buffer; try apply writes_only_throw.
  destruct (_ || _); [apply writes_only_throw | apply writes_only_ret].
Qed.

Lemma writes_only_PNG_sync_read buffer ps : writes_only ps (PNG_sync_read buffer).
Proof. destruct buffer; [apply writes_only_ret | apply writes_only_throw..]. Qed.

Lemma compareScreenshots_writes lib baselinePath currentPath diffPath :
  writes_only [baselinePath; currentPath; diffPath]
    (Report.compareScreenshots lib baselinePath currentPath diffPath).
Proof.
  unfold Report.compareScreenshots.
  apply writes_only_bind; [apply writes_only_existsSync|]. intros e1.
  apply writes_only_bind; [apply writes_only_existsSync|]. intros e2.
  destruct (_ || _).
  { apply writes_only_bind; [apply writes_only_console_log | intros; apply writes_only_ret]. }
  apply writes_only_bind; [apply writes_only_resizeImage; repeat constructor|]. intros _.
  apply writes_only_bind; [apply writes_only_resizeImage; repeat constructor|]. intros _.
  apply writes_only_bind; [apply writes_only_readFileSync|]. intros b1.
  apply writes_only_bind; [apply writes_only_PNG_sync_read|]. intros img1.
  apply writes_only_bind; [apply writes_only_readFileSync|]. intros b2.
  apply writes_only_bind; [apply writes_only_PNG_sync_read|]. intros img2.
  destruct (_ || _).
  { apply writes_only_bind; [apply writes_only_console_log | intros; apply writes_only_ret]. }
  apply writes_only_bind; [apply writes_only_writeFileSync; repeat constructor|]. intros _.
  apply writes_only_ret.
Qed.

Lemma captureScreenshot_writes url screenshotPath :
  writes_only [screenshotPath] (Report.captureScreenshot url screenshotPath).
Proof.
  intros w q Hq.
  destruct (captureScreenshot_outcome url screenshotPath w) as (w' & -> & _ & F).
  cbn [fst]. destruct F as [(m & _ & ->)|(img & _ & ->)]; [done|].
  apply lookup_insert_ne. intros ->. apply Hq. constructor.
Qed.

Lemma calls_at_most_weaken {A} (c : Js A) n m :
  n <= m -> calls_at_most n c -> calls_at_most m c.
Proof. intros Hle H w. specialize (H w). lia. Qed.

Lemma calls_at_most_bind {A B} (c : Js A) (k : A -> Js B) n1 n2 :
  calls_at_most n1 c -> (forall a, calls_at_most n2 (k a)) ->
  calls_at_most (n1 + n2) (bind c k).
Proof.
  intros Hc Hk w. specialize (Hc w). unfold bind.
  destruct (c w) as [w1 [a|m]]; cbn [fst] in *; [|lia].
  specialize (Hk a w1). lia.
Qed.

Lemma calls_at_most_try_catch {A} (c : Js A) (h : string -> Js A) n :
  calls_at_most n c -> (forall m, calls_at_most 0 (h m)) -> calls_at_most n (try_catch c h).
Proof.
  intros Hc Hh w. specialize (Hc w). unfold try_catch.
  destruct (c w) as [w1 [a|m]]; cbn [fst] in *; [lia|].
  specialize (Hh m w1). lia.
Qed.

Lemma calls_at_most_ret {A} (a : A) : calls_at_most 0 (ret a).
Proof. intros w. cbn. lia. Qed.

Lemma calls_at_most_throw {A} m : calls_at_most 0 (@throw A m).
Proof. intros w. cbn. lia. Qed.

Lemma calls_at_most_console_log line : calls_at_most 0 (console_log line).
Proof. intros w. cbn. lia. Qed.

Lemma calls_at_most_readFileSync path : calls_at_most 0 (fs_readFileSync path).
Proof. intros w. unfold fs_readFileSync. destruct (fs w !! path); cbn; lia. Qed.

Lemma calls_at_most_resizeImage lib path W H :
  calls_at_most 0 (Report.resizeImage lib path W H).
Proof.
  unfold Report.resizeImage.
  apply (calls_at_most_bind _ _ 0 0); [apply calls_at_most_readFileSync|]. intros buffer.
  apply (calls_at_most_bind _ _ 0 0); [|intros ? w; cbn; lia].
  unfold sharp_resize. destruct buffer; try apply calls_at_most_throw.
  destruct (_ || _); [apply calls_at_most_throw | apply calls_at_most_ret].
Qed.

Lemma calls_at_most_PNG_sync_read buffer : calls_at_most 0 (PNG_sync_read buffer).
Proof. destruct buffer; [apply calls_at_most_ret | apply calls_at_most_throw..]. Qed.

Lemma compareScreenshots_calls lib baselinePath currentPath diffPath :
  calls_at_most 0 (Report.compareScreenshots lib baselinePath currentPath diffPath).
Proof.
  unfold Report.compareScreenshots.
  apply (calls_at_most_bind _ _ 0 0); [intros w; cbn; lia|]. intros e1.
  apply (calls_at_most_bind _ _ 0 0); [intros w; cbn; lia|]. intros e2.
  destruct (_ || _).
  { apply (calls_at_most_bind _ _ 0 0);
      [apply calls_at_most_console_log | intros; apply calls_at_most_ret]. }
  apply (calls_at_most_bind _ _ 0 0); [apply calls_at_most_resizeImage|]. intros _.
  apply (calls_at_most_bind _ _ 0 0); [apply calls_at_most_resizeImage|]. intros _.
  apply (calls_at_most_bind _ _ 0 0); [apply calls_at_most_readFileSync|]. intros b1.
  apply (calls_at_most_bind _ _ 0 0); [apply calls_at_most_PNG_sync_read|]. intros img1.
  apply (calls_at_most_bind _ _ 0 0); [apply calls_at_most_readFileSync|]. intros b2.
  apply (calls_at_most_bind _ _ 0 0); [apply calls_at_most_PNG_sync_read|]. intros img2.
  destruct (_ || _).
  { apply (calls_at_most_bind _ _ 0 0);
      [apply calls_at_most_console_log | intros; apply calls_at_most_ret]. }
  apply (calls_at_most_bind _ _ 0 0); [intros w; cbn; lia|]. intros _.
  apply calls_at_most_ret.
Qed.

Lemma captureScreenshot_calls url screenshotPath :
  calls_at_most 9 (Report.captureScreenshot url screenshotPath).
Proof.
  intros w. destruct (captureScreenshot_outcome url screenshotPath w) as (w' & -> & H & _).
  exact H.
Qed.

(** X6. However it completes, [compareScreenshots] leaves every file other
    than the two screenshots and the diff as it is, and makes no browser
    call. *)
Theorem compareScreenshots_footprint lib baselinePath currentPath diffPath :
  writes_only [baselinePath; currentPath; diffPath]
    (Report.compareScreenshots lib baselinePath currentPath diffPath)
  /\ calls_at_most 0 (Report.compareScreenshots lib baselinePath currentPath diffPath).
Proof. split; [apply compareScreenshots_writes | apply compareScreenshots_calls]. Qed.

Lemma compare_page_writes lib cfg baseDir results p :
  writes_only
    [path_join (path_join baseDir "staging") (replace_slashes p +:+ ".png");
     path_join (path_join baseDir "prod") (replace_slashes p +:+ ".png");
     path_join (path_join baseDir "diff") (replace_slashes p +:+ ".png")]
    (Report.compare_page lib cfg baseDir results p).
Proof.
  unfold Report.compare_page.
  apply writes_only_try_catch; [|intros; apply writes_only_ret].
  apply writes_only_bind.
  { eapply writes_only_weaken; [|apply captureScreenshot_writes].
    intros x ->%list_elem_of_singleton. repeat constructor. }
  intros _. apply writes_only_bind.
  { eapply writes_only_weaken; [|apply captureScreenshot_writes].
    intros x ->%list_elem_of_singleton. repeat constructor. }
  intros _. apply writes_only_bind; [apply compareScreenshots_writes|].
  intros; apply writes_only_ret.
Qed.

Lemma compare_page_calls lib cfg baseDir results p :
  calls_at_most 18 (Report.compare_page lib cfg baseDir results p).
Proof.
  unfold Report.compare_page.
  apply calls_at_most_try_catch; [|intros; apply calls_at_most_ret].
  apply (calls_at_most_bind _ _ 9 9); [apply captureScreenshot_calls|]. intros _.
  apply (calls_at_most_bind _ _ 9 0); [apply captureScreenshot_calls|]. intros _.
  apply (calls_at_most_bind _ _ 0 0); [apply compareScreenshots_calls|].
  intros; apply calls_at_most_ret.
Qed.

(** X7. However it goes, processing one page writes at most the page's own
    staging, prod and diff files, and makes at most 18 browser calls. *)
Theorem compare_page_footprint lib cfg baseDir results p :
  writes_only
    [path_join (path_join baseDir "staging") (replace_slashes p +:+ ".png");
     path_join (path_join baseDir "prod") (replace_slashes p +:+ ".png");
     path_join (path_join baseDir "diff") (replace_slashes p +:+ ".png")]
    (Report.compare_page lib cfg baseDir results p)
  /\ calls_at_most 18 (Report.compare_page lib cfg baseDir results p).
Proof. split; [apply compare_page_writes | apply compare_page_calls]. Qed.

Lemma for_of_calls {A St} (items : list A) (body : St -> A -> Js St) n :
  (forall s x, calls_at_most n (body s x)) ->
  forall s, calls_at_most (length items * n) (for_of items body s).
Proof.
  intros Hbody. induction items as [|x items IH]; intros s; cbn [for_of length].
  - apply calls_at_most_ret.
  - change (S (length items) * n) with (n + length items * n).
    apply calls_at_most_bind; [apply Hbody | apply IH].
Qed.

(** X8. The whole test makes at most 18 browser calls per configured
    page. *)
Theorem visual_comparison_test_calls lib cfg :
  calls_at_most (length (urls (staging cfg)) * 18) (Report.visual_comparison_test lib cfg).
Proof.
  unfold Report.visual_comparison_test.
  apply (calls_at_most_weaken _ (0 + (length (urls (staging cfg)) * 18 + 0))); [lia|].
  apply calls_at_most_bind; [apply calls_at_most_console_log|]. intros _.
  apply calls_at_most_bind.
  - apply for_of_calls. intros s x. apply compare_page_calls.
  - intros results w. rewrite generateHtmlReport_returns. cbn. lia.
Qed.

(** ** The three totals *)

(** X9. The report's Passed, Failed and Errors totals never count a record
    twice: their sum is at most the number of pages tested. *)
Theorem summary_totals_disjoint results deviceName w :
  exists summary,
    fs (Report.generateHtmlReport results deviceName w).1
      !! ("visual_comparison_report_" +:+ deviceName +:+ ".html") = Some (HtmlFile summary)
    /\ total summary = length results
    /\ passed summary + failed summary + errors summary <= total summary.
Proof.
  rewrite generateHtmlReport_returns. eexists. split.
  { cbn [fst fs set_fs]. apply lookup_insert_eq. }
  cbn [total passed failed errors].
  rewrite (Permutation_length (Array_sort_perm _ results)).
  split; [done | apply totals_bound].
Qed.

(** X10. When every record is "Error" or a number (not NaN), the three
    totals add up to the number of records. *)
Theorem summary_totals_cover results deviceName w :
  Forall classified results ->
  exists summary,
    fs (Report.generateHtmlReport results deviceName w).1
      !! ("visual_comparison_report_" +:+ deviceName +:+ ".html") = Some (HtmlFile summary)
    /\ passed summary + failed summary + errors summary = length results.
Proof.
  intros Hall. rewrite generateHtmlReport_returns. eexists. split.
  { cbn [fst fs set_fs]. apply lookup_insert_eq. }
  cbn [total passed failed errors]. by apply totals_cover.
Qed.

Lemma summary_totals_cover_witness :
  exists summary,
    fs (Report.generateHtmlReport [similar 10; capture_error; similar 99] "Desktop" online).1
      !! ("visual_comparison_report_" +:+ "Desktop" +:+ ".html") = Some (HtmlFile summary)
    /\ passed summary + failed summary + errors summary = 3.
Proof.
  apply (summary_totals_cover [similar 10; capture_error; similar 99] "Desktop" online).
  apply List.Forall_cons; [right; exists 10%float; split; reflexivity|].
  apply List.Forall_cons; [left; reflexivity|].
  apply List.Forall_cons; [right; exists 99%float; split; reflexivity|].
  apply List.Forall_nil.
Defined.

(** ** Rows *)

Lemma row_status w deviceName (r : Result) :
  row_page (Report.row w deviceName r) = pagePath r
  /\ (statusText (Report.row w deviceName r) = "Pass" <-> Report.is_passed r = true)
  /\ (statusText (Report.row w deviceName r) = "Error"
      <-> exists s, similarityPercentage r = inr s).
Proof.
  unfold Report.row, Report.is_passed.
  destruct (similarityPercentage r) as [x|s]; [destruct (PrimFloat.leb 95 x)|];
    cbn; (split; [reflexivity|]); split; split; try done; try (intros [? ?]; done); eauto.
Qed.

Lemma pass_rows w deviceName (l : list Result) :
  length (filter (fun row => statusText row = "Pass") (map (Report.row w deviceName) l))
  = length (filter (fun r => Report.is_passed r = true) l).
Proof.
  induction l as [|r l IH]; [done|]. cbn [map]. rewrite !filter_cons.
  destruct (row_status w deviceName r) as (_ & Hpass & _).
  destruct (decide (Report.is_passed r = true)) as [Hp|Hp].
  - rewrite decide_True by by apply Hpass. cbn. by rewrite IH.
  - rewrite decide_False by (intros H; by apply Hp, Hpass). exact IH.
Qed.

(** X11. The report has one row per record it was given, in the order of
    the sorted array, which is a rearrangement of the input; the number of
    rows shown as "Pass" equals the Passed total. *)
Theorem report_rows results deviceName w :
  exists sorted summary,
    Report.generateHtmlReport results deviceName w
      = (set_fs <["visual_comparison_report_" +:+ deviceName +:+ ".html" := HtmlFile summary]> w,
         Normal sorted)
    /\ sorted ≡ₚ results
    /\ map row_page (rows summary) = map pagePath sorted
    /\ length (filter (fun row => statusText row = "Pass") (rows summary)) = passed summary.
Proof.
  rewrite generateHtmlReport_returns. eexists _, _. split; [reflexivity|].
  cbn [rows passed]. split; [apply Array_sort_perm|]. split.
  - rewrite map_map. apply map_ext. intros r. apply row_status.
  - rewrite pass_rows.
    apply Permutation_length. by rewrite (Array_sort_perm Report.compare_results results).
Qed.

(** ** Order of the rows *)

(** X12. Of fewer than 64 records (the arrays the engine sorts as one
    run), those marked "Error" lead the sorted array in the reverse of
    their original order, followed by a rearrangement of the other
    records. *)
Theorem errors_lead_in_reverse (results : list Result) :
  length results < 64 ->
  exists others,
    Array_sort Report.compare_results results
      = (rev (filter (fun r => Report.is_error r = true) results) ++ others)%list
    /\ others ≡ₚ filter (fun r => Report.is_error r ≠ true) results.
Proof.
  intros _. destruct (Array_sort_shape results) as (ns & Hsort & Hns & _).
  exists ns. split; [exact Hsort|].
  pose proof (Array_sort_perm Report.compare_results results) as Hperm.
  rewrite Hsort, <- Permutation_rev in Hperm.
  rewrite <- (filter_app_complement (fun r => Report.is_error r = true) results) in Hperm at 2.
  by apply Permutation_app_inv_l in Hperm.
Qed.

Lemma errors_lead_in_reverse_witness :
  exists others,
    Array_sort Report.compare_results
      [mkResult "/a" (inr "Error") None; similar 50; mkResult "/b" (inr "Error") None]
      = (rev (filter (fun r => Report.is_error r = true)
                [mkResult "/a" (inr "Error") None; similar 50;
                 mkResult "/b" (inr "Error") None]) ++ others)%list
    /\ others ≡ₚ filter (fun r => Report.is_error r ≠ true)
                  [mkResult "/a" (inr "Error") None; similar 50;
                   mkResult "/b" (inr "Error") None].
Proof.
  apply (errors_lead_in_reverse
           [mkResult "/a" (inr "Error") None; similar 50; mkResult "/b" (inr "Error") None]).
  cbn. lia.
Defined.

(** ** File names *)

(** X13. The file name made from a page path has the length of the path
    and contains no slash. *)
Theorem replace_slashes_flat (s : string) :
  String.length (replace_slashes s) = String.length s
  /\ "/"%char ∉ String.list_ascii_of_string (replace_slashes s).
Proof.
  induction s as [|c s [IH1 IH2]];
    cbn [replace_slashes String.length String.list_ascii_of_string].
  - split; [done | apply not_elem_of_nil].
  - split; [by rewrite IH1|].
    apply not_elem_of_cons. split; [|done].
    destruct (Ascii.eqb_spec c "/"); [done | congruence].
Qed.

(** ** Scrolling *)

Lemma scroll_ticks_resolves (scrollHeight : nat -> N) (H : N) :
  (forall j, (scrollHeight j <= H)%N) ->
  forall fuel k totalHeight,
    0 < fuel -> (H < totalHeight + 300 * N.of_nat fuel)%N ->
    exists n, scroll_ticks scrollHeight fuel k totalHeight
              = Some (n, (totalHeight + 300 * N.of_nat (n - k)%nat)%N)
      /\ k < n
      /\ (scrollHeight (n - 1)%nat <= totalHeight + 300 * N.of_nat (n - k)%nat)%N
      /\ (n = S k \/ (totalHeight + 300 * N.of_nat (n - k - 1)%nat < H)%N)
      /\ (forall j, k <= j -> S j < n ->
            (totalHeight + 300 * N.of_nat (S j - k)%nat < scrollHeight j)%N).
Proof.
  intros Hbound. induction fuel as [|fuel IH]; intros k totalHeight Hpos Hfuel.
  - lia.
  - cbn [scroll_ticks].
    destruct (N.leb_spec (scrollHeight k) (totalHeight + 300)) as [Hstop|Hgo].
    + exists (S k). replace (S k - k) with 1 by lia. replace (S k - 1) with k by lia.
      repeat split; [lia | | by left | intros j ? ?; lia].
      by replace (totalHeight + 300 * N.of_nat 1)%N with (totalHeight + 300)%N by lia.
    + pose proof (Hbound k).
      destruct (IH (S k) (totalHeight + 300)%N ltac:(lia) ltac:(lia))
        as (n & -> & Hn & Hlast & Hprev & Hfirst).
      exists n. replace (n - k) with (S (n - S k)) by lia.
      repeat split.
      * f_equal. f_equal. lia.
      * lia.
      * replace (totalHeight + 300 * N.of_nat (S (n - S k))%nat)%N
          with (totalHeight + 300 + 300 * N.of_nat (n - S k)%nat)%N by lia.
        exact Hlast.
      * right. destruct Hprev as [->|Hprev]; lia.
      * intros j Hj Hjn. destruct (decide (j = k)) as [->|Hne].
        -- replace (S k - k) with 1 by lia. lia.
        -- specialize (Hfirst j ltac:(lia) Hjn).
           replace (S j - k) with (S (S j - S k)) by lia. lia.
Qed.

(** X14. On a page whose height never exceeds [H], the scroll loop
    resolves after at least one and at most [H / 300 + 1] ticks, having
    scrolled 300 per tick, at the first tick at which the distance scrolled
    reaches the height of the document: at every earlier tick the document
    was taller than the distance scrolled. *)
Theorem scroll_to_bottom_resolves (scrollHeight : nat -> N) (H : N) fuel :
  (forall j, (scrollHeight j <= H)%N) ->
  N.to_nat (H / 300) < fuel ->
  exists n, scroll_to_bottom scrollHeight fuel = Some (n, (300 * N.of_nat n)%N)
    /\ 1 <= n <= N.to_nat (H / 300) + 1
    /\ (scrollHeight (n - 1)%nat <= 300 * N.of_nat n)%N
    /\ (forall j, S j < n -> (300 * N.of_nat (S j) < scrollHeight j)%N).
Proof.
  intros Hbound Hfuel. unfold scroll_to_bottom.
  assert (Hdiv : (H < 300 * N.succ (H / 300))%N) by (apply N.mul_succ_div_gt; lia).
  destruct (scroll_ticks_resolves scrollHeight H Hbound fuel 0 0%N ltac:(lia) ltac:(lia))
    as (n & -> & Hn & Hlast & Hprev & Hfirst).
  exists n. rewrite Nat.sub_0_r in *. rewrite N.add_0_l in *.
  repeat split; [lia | | exact Hlast |].
  - destruct Hprev as [->|Hprev]; [lia|].
    assert (N.of_nat (n - 1)%nat <= H / 300)%N; [|lia].
    apply N.div_le_lower_bound; lia.
  - intros j Hj. specialize (Hfirst j ltac:(lia) Hj).
    rewrite Nat.sub_0_r, N.add_0_l in Hfirst. exact Hfirst.
Qed.

Lemma scroll_to_bottom_resolves_witness :
  exists n, scroll_to_bottom (fun j => N.min 1000 (400 * N.of_nat (S j))) 10
            = Some (n, (300 * N.of_nat n)%N)
    /\ 1 <= n <= N.to_nat (1000 / 300) + 1
    /\ ((fun j => N.min 1000 (400 * N.of_nat (S j))) (n - 1)%nat <= 300 * N.of_nat n)%N
    /\ (forall j, S j < n ->
          (300 * N.of_nat (S j) < (fun j => N.min 1000 (400 * N.of_nat (S j))) j)%N).
Proof.
  apply (scroll_to_bottom_resolves (fun j => N.min 1000 (400 * N.of_nat (S j))) 1000 10).
  - intros j. lia.
  - vm_compute. lia.
Defined.

(** X15. On a page that at every tick is taller than the distance scrolled
    so far, the scroll loop never resolves, whatever the number of ticks. *)
Theorem scroll_to_bottom_never_resolves (scrollHeight : nat -> N) :
  (forall j, (300 * N.of_nat (S j)%nat < scrollHeight j)%N) ->
  forall fuel, scroll_to_bottom scrollHeight fuel = None.
Proof.
  intros Hgrow fuel. unfold scroll_to_bottom.
  assert (Hgen : forall fuel k, scroll_ticks scrollHeight fuel k (300 * N.of_nat k)%N = None).
  { clear fuel. induction fuel as [|fuel IH]; intros k; [done|]. cbn [scroll_ticks].
    destruct (N.leb_spec (scrollHeight k) (300 * N.of_nat k + 300)) as [Hstop|_].
    - specialize (Hgrow k). lia.
    - replace (300 * N.of_nat k + 300)%N with (300 * N.of_nat (S k)%nat)%N by lia. apply IH. }
  apply (Hgen fuel 0).
Qed.

Lemma scroll_to_bottom_never_resolves_witness :
  scroll_to_bottom (fun j => (300 * N.of_nat (S j)%nat + 1)%N) 1000 = None.
Proof.
  apply (scroll_to_bottom_never_resolves (fun j => (300 * N.of_nat (S j)%nat + 1)%N)).
  intros j. lia.
Defined.

(** X5. [resizeImage] on a path that holds no image (no file, or a file
    that is not an image) throws and changes nothing: the file is not
    overwritten. *)
Theorem resizeImage_rejects lib imagePath W H w :
  (forall img, fs w !! imagePath ≠ Some (PngFile img)) ->
  exists m, Report.resizeImage lib imagePath W H w = (w, Throw m).
Proof.
  intros Hnot. unfold Report.resizeImage, bind, fs_readFileSync.
  destruct (fs w !! imagePath) as [[img| |]|] eqn:Hf.
  - by destruct (Hnot img).
  - by eexists.
  - by eexists.
  - by eexists.
Qed.

Lemma resizeImage_rejects_witness :
  exists m, Report.resizeImage nearest_exact "screenshots/Desktop/staging/_.png" 1280 800 junk
            = (junk, Throw m).
Proof.
  apply (resizeImage_rejects nearest_exact "screenshots/Desktop/staging/_.png" 1280 800 junk).
  intros img H. discriminate H.
Defined.

(** ** Two sites that render alike *)

Lemma captureScreenshot_quiet url screenshotPath w :
  (forall t, faults w t = None) ->
  exists w' t, Report.captureScreenshot url screenshotPath w = (w', Normal tt)
    /\ fs w' = <[screenshotPath := PngFile (render w t url true)]> (fs w)
    /\ faults w' = faults w /\ render w' = render w.
Proof.
  intros Hf.
  destruct (captureScreenshot_unhindered url screenshotPath w (fun k _ => Hf _))
    as (w' & Hrun & Hfs & _ & _ & _ & Hf' & _ & Hr').
  by eexists w', _.
Qed.

Lemma compare_page_alike lib cfg baseDir results p w :
  (forall t, faults w t = None) ->
  (forall t t', render w t (baseUrl (staging cfg) +:+ p) true
                = render w t' (baseUrl (prod cfg) +:+ p) true) ->
  exists w', Report.compare_page lib cfg baseDir results p w
             = (w', Normal (results ++ [mkResult p (inl 100%float) None])%list)
    /\ faults w' = faults w /\ render w' = render w.
Proof.
  intros Hf Hr.
  destruct (compare_page_cases lib cfg baseDir results p w) as (w2 & (w1 & H1 & H2) & ->).
  destruct (page_paths_distinct baseDir (replace_slashes p +:+ ".png")) as (Hsp & _ & _).
  destruct (captureScreenshot_quiet (baseUrl (staging cfg) +:+ p)
              (path_join (path_join baseDir "staging") (replace_slashes p +:+ ".png")) w Hf)
    as (w1' & t1 & E1 & F1 & Hf1 & Hr1).
  rewrite H1 in E1. injection E1 as <-.
  destruct (captureScreenshot_quiet (baseUrl (prod cfg) +:+ p)
              (path_join (path_join baseDir "prod") (replace_slashes p +:+ ".png")) w1
              ltac:(by rewrite Hf1))
    as (w2' & t2 & E2 & F2 & Hf2 & Hr2).
  rewrite H2 in E2. injection E2 as <-.
  rewrite Hr1, <- (Hr t1 t2) in F2.
  erewrite (compareScreenshots_success lib _ _ _ w2 _ _ Hsp).
  - rewrite pixelmatch_identical, similarity_all_matched.
    eexists. split; [reflexivity|]. simpl_world. by rewrite Hf2, Hr2, Hf1, Hr1.
  - rewrite F2, F1. rewrite lookup_insert_ne by done. apply lookup_insert_eq.
  - rewrite F2. apply lookup_insert_eq.
Qed.

Lemma compare_pages_alike lib cfg baseDir items : forall acc w,
  (forall t, faults w t = None) ->
  (forall p, p ∈ items -> forall t t',
     render w t (baseUrl (staging cfg) +:+ p) true
     = render w t' (baseUrl (prod cfg) +:+ p) true) ->
  exists w', for_of items (Report.compare_page lib cfg baseDir) acc w
             = (w', Normal (acc ++ map (fun p => mkResult p (inl 100%float) None) items)%list).
Proof.
  induction items as [|p items IH]; intros acc w Hf Hr; cbn [for_of map].
  - exists w. by rewrite app_nil_r.
  - destruct (compare_page_alike lib cfg baseDir acc p w Hf (Hr p ltac:(set_solver)))
      as (w1 & H1 & Hf1 & Hr1).
    rewrite (bind_normal _ _ _ _ _ H1).
    destruct (IH (acc ++ [mkResult p (inl 100%float) None])%list w1) as (w2 & H2).
    + intros t. by rewrite Hf1.
    + intros q Hq t t'. rewrite Hr1. apply Hr. set_solver.
    + exists w2. by rewrite H2, <- app_assoc.
Qed.

Lemma Array_sort_all_equal (l : list string) :
  Array_sort Report.compare_results (map (fun p => mkResult p (inl 100%float) None) l)
  = map (fun p => mkResult p (inl 100%float) None) l.
Proof.
  destruct l as [|p [|q l]]; [done..|].
  unfold Array_sort. cbn [map CountAndMakeRun].
  change (PrimFloat.ltb (sort_compare Report.compare_results
            (mkResult q (inl 100%float) None) (mkResult p (inl 100%float) None)) 0)
    with false.
  assert (Hrun : forall l q, extend_run Report.compare_results false
                   (mkResult q (inl 100%float) None)
                   (map (fun p => mkResult p (inl 100%float) None) l)
                 = (map (fun p => mkResult p (inl 100%float) None) l, [])).
  { clear. induction l as [|p l IH]; intros q; [done|].
    cbn [map extend_run].
    change (PrimFloat.ltb (sort_compare Report.compare_results
              (mkResult p (inl 100%float) None) (mkResult q (inl 100%float) None)) 0)
      with false.
    by rewrite IH. }
  by rewrite Hrun.
Qed.

Lemma filter_all_100 (f : Result -> bool) (l : list string) b :
  (forall p, f (mkResult p (inl 100%float) None) = b) ->
  length (filter (fun r => f r = true) (map (fun p => mkResult p (inl 100%float) None) l))
  = if b then length l else 0.
Proof.
  intros Hf. induction l as [|p l IH]; [by destruct b|].
  cbn [map]. rewrite filter_cons, Hf.
  destruct b; [rewrite decide_True by done | rewrite decide_False by done]; cbn; by rewrite ?IH.
Qed.

(** X16. When no browser call rejects and each configured page renders on
    staging as it does on prod, whenever it is captured (the pages may
    differ from one another), the test records similarity exactly 100 for
    every configured page, in the configured order, and the report counts
    every page as passed, with every row shown as "Pass". *)
Theorem identical_sites_all_pass lib cfg w :
  (forall t, faults w t = None) ->
  (forall p, p ∈ urls (staging cfg) -> forall t t',
     render w t (baseUrl (staging cfg) +:+ p) true
     = render w t' (baseUrl (prod cfg) +:+ p) true) ->
  exists w' shown,
    Report.visual_comparison_test lib cfg w
      = (w', Normal (map (fun p => mkResult p (inl 100%float) None) (urls (staging cfg))))
    /\ fs w' !! "visual_comparison_report_Desktop.html"
       = Some (HtmlFile (mkSummary (length (urls (staging cfg))) (length (urls (staging cfg)))
                           0 0 shown))
    /\ Forall (fun row => statusText row = "Pass") shown.
Proof.
  intros Hf Hr.
  destruct (test_returns lib cfg w) as (w1 & rs & Hloop & _ & ->).
  destruct (compare_pages_alike lib cfg "screenshots/Desktop" (urls (staging cfg)) []
              (emit "Running tests..." w)) as (w1' & Hloop').
  { intros t. simpl_world. apply Hf. }
  { intros p Hp t t'. simpl_world. by apply Hr. }
  unfold Report.compare_pages in Hloop. rewrite Hloop' in Hloop. injection Hloop as <- <-.
  rewrite generateHtmlReport_returns. cbn [app].
  rewrite Array_sort_all_equal, length_map.
  rewrite (filter_all_100 Report.is_passed _ true) by done.
  rewrite (filter_all_100 Report.is_failed _ false) by done.
  rewrite (filter_all_100 Report.is_error _ false) by done.
  eexists _, _. split; [reflexivity|]. split.
  - cbn [fs set_fs]. change ("visual_comparison_report_" +:+ "Desktop" +:+ ".html")
      with "visual_comparison_report_Desktop.html". apply lookup_insert_eq.
  - apply Forall_map, Forall_map. apply Forall_forall. intros p _. reflexivity.
Qed.

Lemma identical_sites_all_pass_witness :
  exists w' shown,
    Report.visual_comparison_test nearest_exact two_pages mirrored
      = (w', Normal (map (fun p => mkResult p (inl 100%float) None) ["/"; "/events"]))
    /\ fs w' !! "visual_comparison_report_Desktop.html"
       = Some (HtmlFile (mkSummary 2 2 0 0 shown))
    /\ Forall (fun row => statusText row = "Pass") shown.
Proof.
  apply (identical_sites_all_pass nearest_exact two_pages mirrored).
  - intros t. reflexivity.
  - intros p Hp t t'. cbn in Hp.
    apply elem_of_cons in Hp as [->|Hp]; [reflexivity|].
    apply elem_of_cons in Hp as [->|Hp]; [reflexivity|].
    by apply elem_of_nil in Hp.
Defined.

(** ** The retrying test *)

Lemma attempt_outcome url path w :
  exists w1 r, Legacy.attempt url path w = (w1, r)
    /\ clock w1 <= clock w + 3
    /\ (forall q, q ≠ path -> fs w1 !! q = fs w !! q)
    /\ match r with
       | Normal _ => exists img, fs w1 !! path = Some (PngFile img)
       | Throw _ => fs w1 = fs w
       end.
Proof.
  unfold Legacy.attempt, bind, page_setViewportSize, page_call, page_goto, page_screenshot.
  destruct (faults w (clock w)); simpl_world.
  { eexists _, _. split; [reflexivity|]. simpl_world. repeat split; [lia|done..]. }
  destruct (faults w (S (clock w))); simpl_world.
  { eexists _, _. split; [reflexivity|]. simpl_world. repeat split; [lia|done..]. }
  destruct (faults w (S (S (clock w)))); simpl_world.
  { eexists _, _. split; [reflexivity|]. simpl_world. repeat split; [lia|done..]. }
  eexists _, _. split; [reflexivity|]. simpl_world. split; [lia|]. split.
  - intros q Hq. by apply lookup_insert_ne.
  - eexists. apply lookup_insert_eq.
Qed.

Lemma legacy_capture_outcome url path w :
  exists w' r, Legacy.captureScreenshot url path w = (w', r)
    /\ clock w' <= clock w + 9
    /\ (forall q, q ≠ path -> fs w' !! q = fs w !! q)
    /\ match r with
       | Normal v => v = Some tt /\ exists img, fs w' !! path = Some (PngFile img)
       | Throw m => m = "Failed to load " +:+ url +:+ " after 3 attempts" /\ fs w' = fs w
       end.
Proof.
  unfold Legacy.captureScreenshot.
  cbn [Legacy.capture_loop Legacy.maxAttempts Nat.ltb Nat.leb Nat.eqb].
  unfold bind, console_log, throw. cbn beta iota.
  destruct (attempt_outcome url path w) as (w1 & r1 & -> & C1 & F1 & R1).
  destruct r1 as [[]|m1].
  { eexists _, _. split; [reflexivity|]. repeat split; [lia | done | done]. }
  destruct (attempt_outcome url path (emit (Legacy.retry_line 1 url) w1))
    as (w2 & r2 & -> & C2 & F2 & R2).
  simpl_world_in C2. simpl_world_in F2. simpl_world_in R2.
  destruct r2 as [[]|m2].
  { eexists _, _. split; [reflexivity|]. repeat split; [lia | | done].
    intros q Hq. by rewrite F2, F1. }
  destruct (attempt_outcome url path (emit (Legacy.retry_line 2 url) w2))
    as (w3 & r3 & -> & C3 & F3 & R3).
  simpl_world_in C3. simpl_world_in F3. simpl_world_in R3.
  destruct r3 as [[]|m3].
  { eexists _, _. split; [reflexivity|]. repeat split; [lia | | done].
    intros q Hq. by rewrite F3, F2, F1. }
  eexists _, _. split; [reflexivity|]. simpl_world. repeat split; [lia | |].
  - intros q Hq. by rewrite F3, F2, F1.
  - by rewrite R3, R2, R1.
Qed.

(** X17. Whenever the retrying capture returns normally, an image is on
    disk at the screenshot path, no other file was touched, and at most nine
    browser calls were made. *)
Theorem legacy_capture_leaves_screenshot url path w w' v :
  Legacy.captureScreenshot url path w = (w', Normal v) ->
  v = Some tt
  /\ (exists img, fs w' !! path = Some (PngFile img))
  /\ (forall q, q ≠ path -> fs w' !! q = fs w !! q)
  /\ clock w' <= clock w + 9.
Proof.
  intros Hrun. destruct (legacy_capture_outcome url path w) as (w1 & r & E & C & F & R).
  rewrite Hrun in E. injection E as <- <-. destruct R as [-> Himg]. by repeat split.
Qed.

Lemma legacy_capture_leaves_screenshot_witness :
  Some tt = Some tt
  /\ (exists img, fs (Legacy.captureScreenshot "https://prod.test/" "prod.png" online).1
                    !! "prod.png" = Some (PngFile img))
  /\ (forall q, q ≠ "prod.png" ->
        fs (Legacy.captureScreenshot "https://prod.test/" "prod.png" online).1 !! q
        = fs online !! q)
  /\ clock (Legacy.captureScreenshot "https://prod.test/" "prod.png" online).1
     <= clock online + 9.
Proof.
  apply (legacy_capture_leaves_screenshot "https://prod.test/" "prod.png" online).
  reflexivity.
Defined.

(** X18. Whenever the retrying capture throws, it leaves the disk as it
    was, and the message is "Failed to load <url> after 3 attempts". *)
Theorem legacy_capture_exhausted url path w w' m :
  Legacy.captureScreenshot url path w = (w', Throw m) ->
  m = "Failed to load " +:+ url +:+ " after 3 attempts" /\ fs w' = fs w.
Proof.
  intros Hrun. destruct (legacy_capture_outcome url path w) as (w1 & r & E & C & F & R).
  rewrite Hrun in E. injection E as <- <-. exact R.
Qed.

Lemma legacy_capture_exhausted_witness :
  "Failed to load https://prod.test/ after 3 attempts"
    = "Failed to load " +:+ "https://prod.test/" +:+ " after 3 attempts"
  /\ fs (Legacy.captureScreenshot "https://prod.test/" "prod.png" offline).1 = fs offline.
Proof.
  apply (legacy_capture_exhausted "https://prod.test/" "prod.png" offline).
  reflexivity.
Defined.

Section LegacyTest.
Variable lib : Imaging.
Variable cfg : Config.
Variable toFixed : float -> nat -> string.

(** X19. In the retrying test, when the staging capture throws, the page
    ends there: the production site is not visited, nothing is compared or
    written, and one line "Error testing page: ..." is logged. *)
Theorem legacy_page_stops_at_first_failure pagePath w w1 m :
  Legacy.captureScreenshot (baseUrl (staging cfg) +:+ "/" +:+ pagePath)
    ("screenshots/staging/" +:+ Legacy.or_home pagePath +:+ ".png")
    (emit ("Testing page: " +:+ Legacy.or_home pagePath) w) = (w1, Throw m) ->
  Legacy.test_page lib cfg toFixed pagePath w =
    (emit ("Error testing page: " +:+ Legacy.or_home pagePath +:+ " - "
           +:+ "Failed to load " +:+ (baseUrl (staging cfg) +:+ "/" +:+ pagePath)
           +:+ " after 3 attempts") w1, Normal tt)
  /\ fs w1 = fs w.
Proof.
  intros Hrun.
  destruct (legacy_capture_outcome (baseUrl (staging cfg) +:+ "/" +:+ pagePath)
              ("screenshots/staging/" +:+ Legacy.or_home pagePath +:+ ".png")
              (emit ("Testing page: " +:+ Legacy.or_home pagePath) w))
    as (w' & r & E & _ & _ & R).
  rewrite Hrun in E. injection E as <- <-. destruct R as [-> Hfs].
  split; [|exact Hfs].
  unfold Legacy.test_page. unfold bind at 1. unfold console_log at 1.
  unfold try_catch. by rewrite (bind_throw _ _ _ _ _ Hrun).
Qed.

Lemma legacy_compare_calls stagingPath prodPath diffPath :
  calls_at_most 0 (Legacy.compareScreenshots lib stagingPath prodPath diffPath).
Proof.
  unfold Legacy.compareScreenshots.
  apply (calls_at_most_bind _ _ 0 0); [apply calls_at_most_readFileSync|]. intros b1.
  apply (calls_at_most_bind _ _ 0 0); [apply calls_at_most_PNG_sync_read|]. intros img1.
  apply (calls_at_most_bind _ _ 0 0); [apply calls_at_most_readFileSync|]. intros b2.
  apply (calls_at_most_bind _ _ 0 0); [apply calls_at_most_PNG_sync_read|]. intros img2.
  destruct (_ || _).
  { apply (calls_at_most_bind _ _ 0 0);
      [apply calls_at_most_console_log | intros; apply calls_at_most_ret]. }
  apply (calls_at_most_bind _ _ 0 0); [intros w; cbn; lia|]. intros _.
  apply (calls_at_most_bind _ _ 0 0);
    [apply calls_at_most_console_log | intros; apply calls_at_most_ret].
Qed.

Lemma legacy_capture_calls url path : calls_at_most 9 (Legacy.captureScreenshot url path).
Proof.
  intros w. destruct (legacy_capture_outcome url path w) as (w' & r & -> & C & _). exact C.
Qed.

Lemma legacy_page_returns pagePath w :
  exists w', Legacy.test_page lib cfg toFixed pagePath w = (w', Normal tt).
Proof.
  unfold Legacy.test_page. unfold bind at 1. unfold console_log at 1.
  match goal with
  | |- exists w', try_catch ?body ?handler ?w0 = _ =>
      destruct (try_catch_total body handler w0) as (w' & [] & H)
  end.
  - intros m w0. by eexists _, tt.
  - by exists w'.
Qed.

Lemma legacy_page_calls pagePath :
  calls_at_most 18 (Legacy.test_page lib cfg toFixed pagePath).
Proof.
  unfold Legacy.test_page.
  apply (calls_at_most_bind _ _ 0 18); [apply calls_at_most_console_log|]. intros _.
  apply calls_at_most_try_catch; [|intros; apply calls_at_most_console_log].
  apply (calls_at_most_bind _ _ 9 9); [apply legacy_capture_calls|]. intros _.
  apply (calls_at_most_bind _ _ 9 0); [apply legacy_capture_calls|]. intros _.
  apply (calls_at_most_bind _ _ 0 0); [apply legacy_compare_calls|]. intros x.
  destruct (PrimFloat.eqb x (-1)); apply calls_at_most_console_log.
Qed.

(** X20. The retrying test completes normally for every configuration and
    every world, and makes at most 18 browser calls per configured page. *)
Theorem legacy_test_completes w :
  (exists w', Legacy.visual_test lib cfg toFixed w = (w', Normal tt))
  /\ clock (Legacy.visual_test lib cfg toFixed w).1
     <= clock w + length (urls (staging cfg)) * 18.
Proof.
  split.
  - unfold Legacy.visual_test. generalize (urls (staging cfg)) as items. intros items.
    revert w. induction items as [|p items IH]; intros w; cbn [for_of].
    + by exists w.
    + destruct (legacy_page_returns p w) as [w1 H1].
      rewrite (bind_normal _ _ _ _ _ H1). apply IH.
  - apply for_of_calls. intros s x. apply legacy_page_calls.
Qed.

(** X21. The retrying test's [compareScreenshots] returns -1 for two
    images of different width or height, having written no diff file. *)
Theorem legacy_size_mismatch stagingPath prodPath diffPath w img1 img2 :
  fs w !! stagingPath = Some (PngFile img1) ->
  fs w !! prodPath = Some (PngFile img2) ->
  width img1 ≠ width img2 \/ height img1 ≠ height img2 ->
  Legacy.compareScreenshots lib stagingPath prodPath diffPath w =
    (emit ("Skipping comparison for " +:+ stagingPath +:+ " and " +:+ prodPath
           +:+ " due to size mismatch.") w, Normal (-1)%float).
Proof.
  intros H1 H2 Hsize. unfold Legacy.compareScreenshots.
  rewrite (bind_normal _ _ _ _ _ (fs_readFileSync_some _ _ _ H1)).
  unfold PNG_sync_read at 1. unfold bind at 1. unfold ret at 1.
  rewrite (bind_normal _ _ _ _ _ (fs_readFileSync_some _ _ _ H2)).
  unfold PNG_sync_read at 1. unfold bind at 1. unfold ret at 1.
  assert (Hb : negb (width img1 =? width img2)%N || negb (height img1 =? height img2)%N
               = true).
  { destruct Hsize as [Hs|Hs]; apply N.eqb_neq in Hs; rewrite Hs; [done|].
    by rewrite orb_true_r. }
  rewrite Hb. reflexivity.
Qed.

(** X22. The retrying test's [compareScreenshots] throws "ENOENT" when a
    screenshot is missing, and changes nothing. *)
Theorem legacy_missing_file stagingPath prodPath diffPath w :
  fs w !! stagingPath = None
  \/ ((exists img, fs w !! stagingPath = Some (PngFile img)) /\ fs w !! prodPath = None) ->
  exists path,
    Legacy.compareScreenshots lib stagingPath prodPath diffPath w =
      (w, Throw ("ENOENT: no such file or directory, open '" +:+ path +:+ "'"))
    /\ (path = stagingPath \/ path = prodPath).
Proof.
  intros [H1|[[img H1] H2]]; unfold Legacy.compareScreenshots.
  - exists stagingPath. split; [|by left].
    unfold bind at 1. unfold fs_readFileSync at 1. by rewrite H1.
  - exists prodPath. split; [|by right].
    rewrite (bind_normal _ _ _ _ _ (fs_readFileSync_some _ _ _ H1)).
    unfold PNG_sync_read at 1. unfold bind at 1. unfold ret at 1.
    unfold bind at 1. unfold fs_readFileSync at 1. by rewrite H2.
Qed.

End LegacyTest.

Lemma legacy_page_stops_at_first_failure_witness :
  Legacy.test_page nearest_exact home_only (fun _ _ => "0.00") "" offline =
    (emit ("Error testing page: " +:+ Legacy.or_home "" +:+ " - "
           +:+ "Failed to load " +:+ (baseUrl (staging home_only) +:+ "/" +:+ "")
           +:+ " after 3 attempts")
       (Legacy.captureScreenshot "https://staging.test/" "screenshots/staging/home.png"
          (emit "Testing page: home" offline)).1, Normal tt)
  /\ fs (Legacy.captureScreenshot "https://staging.test/" "screenshots/staging/home.png"
           (emit "Testing page: home" offline)).1 = fs offline.
Proof.
  apply (legacy_page_stops_at_first_failure nearest_exact home_only (fun _ _ => "0.00") ""
           offline _ "Failed to load https://staging.test/ after 3 attempts").
  reflexivity.
Defined.

Lemma legacy_size_mismatch_witness :
  Legacy.compareScreenshots nearest_exact "screenshots/staging/home.png"
    "screenshots/prod/home.png" "screenshots/diff/home.png" uneven =
    (emit ("Skipping comparison for " +:+ "screenshots/staging/home.png" +:+ " and "
           +:+ "screenshots/prod/home.png" +:+ " due to size mismatch.") uneven,
     Normal (-1)%float).
Proof.
  apply (legacy_size_mismatch nearest_exact _ _ _ uneven (solid 10)
           (mkImage 3 2 (fun _ => mkPixel 0 0 0 255))); [reflexivity | reflexivity |].
  left. cbn. discriminate.
Defined.

Lemma legacy_missing_file_witness :
  exists path,
    Legacy.compareScreenshots nearest_exact "screenshots/staging/home.png"
      "screenshots/prod/home.png" "screenshots/diff/home.png" offline =
      (offline, Throw ("ENOENT: no such file or directory, open '" +:+ path +:+ "'"))
    /\ (path = "screenshots/staging/home.png" \/ path = "screenshots/prod/home.png").
Proof.
  apply (legacy_missing_file nearest_exact). left. reflexivity.
Defined.
